(** * Frame tree and execution-context manager

    A shallow embedding of [FrameManager] and [Frame] (the frame-tree
    manager of the browser-automation client) and the properties of its
    event handlers.

    JavaScript objects have identity and are mutated in place, so frames,
    worlds and execution contexts live in an object store and are named by
    references; the manager's two [Map]s are finite maps from string keys to
    references.  Handlers are state transformers in a small error monad:
    [Throw] is a JavaScript exception; [Stuck] is the model's own
    failure, a dangling reference or the exhaustion of the fuel that bounds
    the recursive walk over the frame tree, and is shown not to happen on
    well-formed stores. *)

From Stdlib Require Import Ascii.
From stdpp Require Import gmap strings list fin_maps pretty.

Set Warnings "-register-all".

(** ** Values thrown and results *)

(** What a [catch] clause can receive: an error object with its [message],
    or any other thrown value. *)
Inductive Thrown :=
  | JsError (message : string)
  | JsNonError (repr : string).

(** Modelled from the spec: [isErrorLike] (module [./util], not among the
    sources) tells the error objects, which carry a [message], from every
    other thrown value. *)
Definition isErrorLike (e : Thrown) : bool :=
  match e with JsError _ => true | JsNonError _ => false end.

Inductive Outcome (A : Type) :=
  | Ok (a : A)
  | Throw (e : Thrown)
  | Stuck.
Arguments Ok {A} a.
Arguments Throw {A} e.
Arguments Stuck {A}.

Definition bind {A B} (m : Outcome A) (k : A → Outcome B) : Outcome B :=
  match m with
  | Ok a => k a
  | Throw e => Throw e
  | Stuck => Stuck
  end.

Notation "'let*' x ':=' m 'in' k" := (bind m (λ x, k))
  (at level 10, x binder, m at level 100, k at level 200).

(** Modelled from the spec: [assert] (module [./assert], not among the
    sources) aborts the calling operation when its argument is falsy; an
    internal invariant violation is fatal.  The value asserted is returned so
    that the code after the assertion can use it at its narrowed type. *)
Definition assert {A} (v : option A) (msg : string) : Outcome A :=
  match v with
  | Some a => Ok a
  | None => Throw (JsError msg)
  end.

Definition assert_default_message : string := "Assertion failed".

Fixpoint forM {A S} (body : A → S → Outcome S) (l : list A) (s : S) : Outcome S :=
  match l with
  | [] => Ok s
  | x :: l' => let* s' := body x s in forM body l' s'
  end.

(** ** Data model *)

(** Modelled from the spec: a session channel is identified by its session
    id ([CDPSession], module [./Connection]); two channels are the same
    object exactly when their ids agree. *)
Record CDPSession := { session_id : string }.

Global Instance CDPSession_eq_dec : EqDecision CDPSession.
Proof. solve_decision. Defined.

Abbreviation FrameRef := nat (only parsing).
Abbreviation WorldRef := nat (only parsing).
Abbreviation CtxRef := nat (only parsing).

(** Modelled from the spec: a World ([DOMWorld], not among the sources) refers
    to its owning frame and holds at most one bound execution context;
    [_setContext] stores or clears the binding, [_hasContext] tests it,
    [_detach] marks the world detached. *)
Record DOMWorld := {
  world_frame : FrameRef;
  world_context : option CtxRef;
  world_detached : bool;
}.

Definition DOMWorld_new (frame : FrameRef) : DOMWorld :=
  {| world_frame := frame; world_context := None; world_detached := false |}.

Definition DOMWorld_setContext (c : option CtxRef) (w : DOMWorld) : DOMWorld :=
  {| world_frame := world_frame w; world_context := c;
     world_detached := world_detached w |}.

Definition DOMWorld_hasContext (w : DOMWorld) : bool :=
  bool_decide (is_Some (world_context w)).

Definition DOMWorld_detach (w : DOMWorld) : DOMWorld :=
  {| world_frame := world_frame w; world_context := world_context w;
     world_detached := true |}.

(** [Protocol.Runtime.ExecutionContextDescription] and its [auxData]. *)
Record AuxData := { aux_frameId : option string; aux_isDefault : bool }.

Record ExecutionContextDescription := {
  ctx_id : Z;
  ctx_name : string;
  ctx_auxData : option AuxData;
}.

(** The fields of [ExecutionContext] that the manager reads: the arguments
    of its constructor. *)
Record ExecutionContext := {
  _client : CDPSession;
  _contextPayload : ExecutionContextDescription;
  _world : option WorldRef;
}.

(** [Protocol.Page.Frame]. *)
Record FramePayload := {
  payload_id : string;
  payload_parentId : option string;
  payload_name : option string;
  payload_url : string;
  payload_urlFragment : option string;
}.

Record Frame := {
  parentFrame : option FrameRef;
  url : string;
  detached : bool;
  frame_client : CDPSession;
  _id : string;
  _loaderId : string;
  _name : option string;
  _hasStartedLoading : bool;
  _lifecycleEvents : list string;
  _mainWorld : WorldRef;
  _secondaryWorld : WorldRef;
  _childFrames : list FrameRef;
}.

Inductive Emitted :=
  | FrameAttached (frame : FrameRef)
  | FrameNavigated (frame : FrameRef)
  | FrameDetached (frame : FrameRef)
  | FrameSwapped (frame : option FrameRef)
  | LifecycleEvent (frame : FrameRef)
  | FrameNavigatedWithinDocument (frame : FrameRef).

Global Instance Emitted_eq_dec : EqDecision Emitted.
Proof. solve_decision. Defined.

(** The manager together with the object store its references point into.
    [next_ref] is the allocation counter, [emitted] the log of events the
    manager has emitted, oldest first. *)
Record FrameManager := {
  fm_frames : gmap string FrameRef;
  fm_contextIdToContext : gmap string CtxRef;
  fm_isolatedWorlds : gset string;
  fm_mainFrame : option FrameRef;
  fm_client : CDPSession;
  frame_store : gmap nat Frame;
  world_store : gmap nat DOMWorld;
  context_store : gmap nat ExecutionContext;
  next_ref : nat;
  emitted : list Emitted;
}.

Definition UTILITY_WORLD_NAME : string := "__puppeteer_utility_world__".

Definition FrameManager_new (client : CDPSession) : FrameManager :=
  {| fm_frames := ∅; fm_contextIdToContext := ∅; fm_isolatedWorlds := ∅;
     fm_mainFrame := None; fm_client := client;
     frame_store := ∅; world_store := ∅; context_store := ∅;
     next_ref := 0; emitted := [] |}.

(** ** Access to the store *)

Definition deref {A} (store : gmap nat A) (r : nat) : Outcome A :=
  match store !! r with
  | Some a => Ok a
  | None => Stuck
  end.

Definition set_frames (g : gmap string FrameRef) (m : FrameManager) : FrameManager :=
  {| fm_frames := g; fm_contextIdToContext := fm_contextIdToContext m;
     fm_isolatedWorlds := fm_isolatedWorlds m; fm_mainFrame := fm_mainFrame m;
     fm_client := fm_client m; frame_store := frame_store m;
     world_store := world_store m; context_store := context_store m;
     next_ref := next_ref m; emitted := emitted m |}.

Definition set_contextIdToContext (g : gmap string CtxRef) (m : FrameManager) : FrameManager :=
  {| fm_frames := fm_frames m; fm_contextIdToContext := g;
     fm_isolatedWorlds := fm_isolatedWorlds m; fm_mainFrame := fm_mainFrame m;
     fm_client := fm_client m; frame_store := frame_store m;
     world_store := world_store m; context_store := context_store m;
     next_ref := next_ref m; emitted := emitted m |}.

Definition set_isolatedWorlds (g : gset string) (m : FrameManager) : FrameManager :=
  {| fm_frames := fm_frames m; fm_contextIdToContext := fm_contextIdToContext m;
     fm_isolatedWorlds := g; fm_mainFrame := fm_mainFrame m;
     fm_client := fm_client m; frame_store := frame_store m;
     world_store := world_store m; context_store := context_store m;
     next_ref := next_ref m; emitted := emitted m |}.

Definition set_mainFrame (f : option FrameRef) (m : FrameManager) : FrameManager :=
  {| fm_frames := fm_frames m; fm_contextIdToContext := fm_contextIdToContext m;
     fm_isolatedWorlds := fm_isolatedWorlds m; fm_mainFrame := f;
     fm_client := fm_client m; frame_store := frame_store m;
     world_store := world_store m; context_store := context_store m;
     next_ref := next_ref m; emitted := emitted m |}.

Definition set_frame_store (h : gmap nat Frame) (m : FrameManager) : FrameManager :=
  {| fm_frames := fm_frames m; fm_contextIdToContext := fm_contextIdToContext m;
     fm_isolatedWorlds := fm_isolatedWorlds m; fm_mainFrame := fm_mainFrame m;
     fm_client := fm_client m; frame_store := h;
     world_store := world_store m; context_store := context_store m;
     next_ref := next_ref m; emitted := emitted m |}.

Definition set_world_store (h : gmap nat DOMWorld) (m : FrameManager) : FrameManager :=
  {| fm_frames := fm_frames m; fm_contextIdToContext := fm_contextIdToContext m;
     fm_isolatedWorlds := fm_isolatedWorlds m; fm_mainFrame := fm_mainFrame m;
     fm_client := fm_client m; frame_store := frame_store m;
     world_store := h; context_store := context_store m;
     next_ref := next_ref m; emitted := emitted m |}.

Definition set_context_store (h : gmap nat ExecutionContext) (m : FrameManager) : FrameManager :=
  {| fm_frames := fm_frames m; fm_contextIdToContext := fm_contextIdToContext m;
     fm_isolatedWorlds := fm_isolatedWorlds m; fm_mainFrame := fm_mainFrame m;
     fm_client := fm_client m; frame_store := frame_store m;
     world_store := world_store m; context_store := h;
     next_ref := next_ref m; emitted := emitted m |}.

Definition set_next_ref (n : nat) (m : FrameManager) : FrameManager :=
  {| fm_frames := fm_frames m; fm_contextIdToContext := fm_contextIdToContext m;
     fm_isolatedWorlds := fm_isolatedWorlds m; fm_mainFrame := fm_mainFrame m;
     fm_client := fm_client m; frame_store := frame_store m;
     world_store := world_store m; context_store := context_store m;
     next_ref := n; emitted := emitted m |}.

(** [this.emit(event, frame)]: appended to the log. *)
Definition emit (e : Emitted) (m : FrameManager) : FrameManager :=
  {| fm_frames := fm_frames m; fm_contextIdToContext := fm_contextIdToContext m;
     fm_isolatedWorlds := fm_isolatedWorlds m; fm_mainFrame := fm_mainFrame m;
     fm_client := fm_client m; frame_store := frame_store m;
     world_store := world_store m; context_store := context_store m;
     next_ref := next_ref m; emitted := emitted m ++ [e] |}.

Definition update_frame (r : FrameRef) (g : Frame → Frame) (m : FrameManager) : FrameManager :=
  set_frame_store (alter g r (frame_store m)) m.

Definition update_world (w : WorldRef) (g : DOMWorld → DOMWorld) (m : FrameManager) : FrameManager :=
  set_world_store (alter g w (world_store m)) m.

(** ** Frame *)

Definition Frame_set_parentFrame (p : option FrameRef) (f : Frame) : Frame :=
  {| parentFrame := p; url := url f; detached := detached f;
     frame_client := frame_client f; _id := _id f; _loaderId := _loaderId f;
     _name := _name f; _hasStartedLoading := _hasStartedLoading f;
     _lifecycleEvents := _lifecycleEvents f; _mainWorld := _mainWorld f;
     _secondaryWorld := _secondaryWorld f; _childFrames := _childFrames f |}.

Definition Frame_set_detached (b : bool) (f : Frame) : Frame :=
  {| parentFrame := parentFrame f; url := url f; detached := b;
     frame_client := frame_client f; _id := _id f; _loaderId := _loaderId f;
     _name := _name f; _hasStartedLoading := _hasStartedLoading f;
     _lifecycleEvents := _lifecycleEvents f; _mainWorld := _mainWorld f;
     _secondaryWorld := _secondaryWorld f; _childFrames := _childFrames f |}.

Definition Frame_set_id (i : string) (f : Frame) : Frame :=
  {| parentFrame := parentFrame f; url := url f; detached := detached f;
     frame_client := frame_client f; _id := i; _loaderId := _loaderId f;
     _name := _name f; _hasStartedLoading := _hasStartedLoading f;
     _lifecycleEvents := _lifecycleEvents f; _mainWorld := _mainWorld f;
     _secondaryWorld := _secondaryWorld f; _childFrames := _childFrames f |}.

Definition Frame_set_childFrames (l : list FrameRef) (f : Frame) : Frame :=
  {| parentFrame := parentFrame f; url := url f; detached := detached f;
     frame_client := frame_client f; _id := _id f; _loaderId := _loaderId f;
     _name := _name f; _hasStartedLoading := _hasStartedLoading f;
     _lifecycleEvents := _lifecycleEvents f; _mainWorld := _mainWorld f;
     _secondaryWorld := _secondaryWorld f; _childFrames := l |}.

(** The three assignments of [_updateClient]. *)
Definition Frame_set_binding (c : CDPSession) (w1 w2 : WorldRef) (f : Frame) : Frame :=
  {| parentFrame := parentFrame f; url := url f; detached := detached f;
     frame_client := c; _id := _id f; _loaderId := _loaderId f;
     _name := _name f; _hasStartedLoading := _hasStartedLoading f;
     _lifecycleEvents := _lifecycleEvents f; _mainWorld := w1;
     _secondaryWorld := w2; _childFrames := _childFrames f |}.

(** [_navigated]: the name and the url, with [urlFragment || ''] appended. *)
Definition Frame_navigated (p : FramePayload) (f : Frame) : Frame :=
  {| parentFrame := parentFrame f;
     url := payload_url p +:+ default "" (payload_urlFragment p);
     detached := detached f;
     frame_client := frame_client f; _id := _id f; _loaderId := _loaderId f;
     _name := payload_name p; _hasStartedLoading := _hasStartedLoading f;
     _lifecycleEvents := _lifecycleEvents f; _mainWorld := _mainWorld f;
     _secondaryWorld := _secondaryWorld f; _childFrames := _childFrames f |}.

(** [_navigatedWithinDocument]. *)
Definition Frame_navigatedWithinDocument (u : string) (f : Frame) : Frame :=
  {| parentFrame := parentFrame f; url := u; detached := detached f;
     frame_client := frame_client f; _id := _id f; _loaderId := _loaderId f;
     _name := _name f; _hasStartedLoading := _hasStartedLoading f;
     _lifecycleEvents := _lifecycleEvents f; _mainWorld := _mainWorld f;
     _secondaryWorld := _secondaryWorld f; _childFrames := _childFrames f |}.

(** [_onLifecycleEvent], [_onLoadingStopped] and [_onLoadingStarted]; the set
    of lifecycle events is kept in insertion order. *)
Definition names_add (x : string) (l : list string) : list string :=
  if decide (x ∈ l) then l else l ++ [x].

Definition Frame_onLifecycleEvent (loaderId name : string) (f : Frame) : Frame :=
  let init := bool_decide (name = "init") in
  {| parentFrame := parentFrame f; url := url f; detached := detached f;
     frame_client := frame_client f; _id := _id f;
     _loaderId := if init then loaderId else _loaderId f;
     _name := _name f; _hasStartedLoading := _hasStartedLoading f;
     _lifecycleEvents := names_add name (if init then [] else _lifecycleEvents f);
     _mainWorld := _mainWorld f; _secondaryWorld := _secondaryWorld f;
     _childFrames := _childFrames f |}.

Definition Frame_onLoadingStopped (f : Frame) : Frame :=
  {| parentFrame := parentFrame f; url := url f; detached := detached f;
     frame_client := frame_client f; _id := _id f; _loaderId := _loaderId f;
     _name := _name f; _hasStartedLoading := _hasStartedLoading f;
     _lifecycleEvents :=
       names_add "load" (names_add "DOMContentLoaded" (_lifecycleEvents f));
     _mainWorld := _mainWorld f; _secondaryWorld := _secondaryWorld f;
     _childFrames := _childFrames f |}.

Definition Frame_onLoadingStarted (f : Frame) : Frame :=
  {| parentFrame := parentFrame f; url := url f; detached := detached f;
     frame_client := frame_client f; _id := _id f; _loaderId := _loaderId f;
     _name := _name f; _hasStartedLoading := true;
     _lifecycleEvents := _lifecycleEvents f;
     _mainWorld := _mainWorld f; _secondaryWorld := _secondaryWorld f;
     _childFrames := _childFrames f |}.

(** [Set.add] and [Set.delete] on the insertion-ordered set of children. *)
Definition set_add (x : FrameRef) (l : list FrameRef) : list FrameRef :=
  if decide (x ∈ l) then l else l ++ [x].

Definition set_delete (x : FrameRef) (l : list FrameRef) : list FrameRef :=
  filter (λ y, y ≠ x) l.

(** [_updateClient]: the session is stored and both worlds are created anew;
    the worlds the frame had before stay in the store, unreferenced by it. *)
Definition Frame_updateClient (client : CDPSession) (r : FrameRef)
    (m : FrameManager) : FrameManager :=
  let w1 := next_ref m in
  let w2 := S (next_ref m) in
  let m1 := set_world_store
              (<[w2 := DOMWorld_new r]> (<[w1 := DOMWorld_new r]> (world_store m))) m in
  let m2 := update_frame r (Frame_set_binding client w1 w2) m1 in
  set_next_ref (S (S (next_ref m))) m2.

(** [new Frame(frameManager, parentFrame, frameId, client)].  The session and
    world fields are assigned by [_updateClient] before the constructor
    returns; until then they hold the values they are about to get. *)
Definition Frame_new (parent : option FrameRef) (frameId : string)
    (client : CDPSession) (m : FrameManager) : FrameRef * FrameManager :=
  let r := next_ref m in
  let f := {| parentFrame := parent; url := ""; detached := false;
              frame_client := client; _id := frameId; _loaderId := "";
              _name := None; _hasStartedLoading := false;
              _lifecycleEvents := []; _mainWorld := S r;
              _secondaryWorld := S (S r); _childFrames := [] |} in
  let m1 := set_next_ref (S r) (set_frame_store (<[r := f]> (frame_store m)) m) in
  let m2 := match parent with
            | Some p => update_frame p (λ pf, Frame_set_childFrames
                                                (set_add r (_childFrames pf)) pf) m1
            | None => m1
            end in
  (r, Frame_updateClient client r m2).

(** [isOOPFrame]. *)
Definition Frame_isOOPFrame (m : FrameManager) (f : Frame) : bool :=
  bool_decide (frame_client f ≠ fm_client m).

(** [_detach]. *)
Definition Frame_detach (r : FrameRef) (m : FrameManager) : Outcome FrameManager :=
  let* f := deref (frame_store m) r in
  let m1 := update_frame r (Frame_set_detached true) m in
  let m2 := update_world (_mainWorld f) DOMWorld_detach m1 in
  let m3 := update_world (_secondaryWorld f) DOMWorld_detach m2 in
  let m4 := match parentFrame f with
            | Some p => update_frame p (λ pf, Frame_set_childFrames
                                                (set_delete r (_childFrames pf)) pf) m3
            | None => m3
            end in
  Ok (update_frame r (Frame_set_parentFrame None) m4).

(** ** FrameManager *)

(** Truthiness of an optional string: [undefined] and [''] are falsy. *)
Definition truthy (o : option string) : option string :=
  match o with
  | Some s => if decide (s = "") then None else Some s
  | None => None
  end.

(** [mainFrame()]. *)
Definition mainFrame (m : FrameManager) : Outcome FrameRef :=
  assert (fm_mainFrame m) "Requesting main frame too early!".

(** [frame(frameId)]. *)
Definition frame (frameId : string) (m : FrameManager) : option FrameRef :=
  fm_frames m !! frameId.

(** [#removeFramesRecursively].  The loop runs over the array that
    [childFrames()] copies out of the set before the first iteration. *)
Fixpoint removeFramesRecursively (fuel : nat) (r : FrameRef) (m : FrameManager)
    : Outcome FrameManager :=
  match fuel with
  | 0 => Stuck
  | S fuel' =>
      let* f := deref (frame_store m) r in
      let* m1 := forM (removeFramesRecursively fuel') (_childFrames f) m in
      let* m2 := Frame_detach r m1 in
      let* f2 := deref (frame_store m2) r in
      Ok (emit (FrameDetached r) (set_frames (delete (_id f2) (fm_frames m2)) m2))
  end.

(** The recursion descends from a frame to frames allocated after it, so
    the allocation counter, which a removal does not move, bounds its depth. *)
Definition removeFrames (r : FrameRef) (m : FrameManager) : Outcome FrameManager :=
  removeFramesRecursively (next_ref m) r m.

(** [#onFrameAttached]. *)
Definition onFrameAttached (session : CDPSession) (frameId : string)
    (parentFrameId : option string) (m : FrameManager) : Outcome FrameManager :=
  match fm_frames m !! frameId with
  | Some r =>
      let* f := deref (frame_store m) r in
      if Frame_isOOPFrame m f
      then Ok (Frame_updateClient session r m)
      else Ok m
  | None =>
      let* pid := assert (truthy parentFrameId) assert_default_message in
      let* parent := assert (fm_frames m !! pid) assert_default_message in
      let '(r, m1) := Frame_new (Some parent) frameId session m in
      let m2 := set_frames (<[frameId := r]> (fm_frames m1)) m1 in
      Ok (emit (FrameAttached r) m2)
  end.

(** [#onFrameNavigated]. *)
Definition onFrameNavigated (framePayload : FramePayload) (m : FrameManager)
    : Outcome FrameManager :=
  let isMainFrame := bool_decide (truthy (payload_parentId framePayload) = None) in
  let frame := if isMainFrame then fm_mainFrame m
               else fm_frames m !! payload_id framePayload in
  let* _ := (if isMainFrame then Ok tt
             else let* _ := assert frame
                    "We either navigate top level or have old version of the navigated frame"
                  in Ok tt) in
  let* m1 := match frame with
             | Some r =>
                 let* f := deref (frame_store m) r in
                 forM (removeFramesRecursively (next_ref m)) (_childFrames f) m
             | None => Ok m
             end in
  let* '(frame, m2) :=
    (if isMainFrame then
       let* '(r, m') :=
         match frame with
         | Some r =>
             let* f := deref (frame_store m1) r in
             let m' := set_frames (delete (_id f) (fm_frames m1)) m1 in
             Ok (r, update_frame r (Frame_set_id (payload_id framePayload)) m')
         | None =>
             Ok (Frame_new None (payload_id framePayload) (fm_client m1) m1)
         end in
       let m'' := set_frames (<[payload_id framePayload := r]> (fm_frames m')) m' in
       Ok (Some r, set_mainFrame (Some r) m'')
     else Ok (frame, m1)) in
  let* r := assert frame assert_default_message in
  let m3 := update_frame r (Frame_navigated framePayload) m2 in
  Ok (emit (FrameNavigated r) m3).

(** [#onFrameNavigatedWithinDocument]. *)
Definition onFrameNavigatedWithinDocument (frameId url : string) (m : FrameManager)
    : Outcome FrameManager :=
  match fm_frames m !! frameId with
  | None => Ok m
  | Some r =>
      let m1 := update_frame r (Frame_navigatedWithinDocument url) m in
      Ok (emit (FrameNavigated r) (emit (FrameNavigatedWithinDocument r) m1))
  end.

(** [#onLifecycleEvent]. *)
Definition onLifecycleEvent (frameId loaderId name : string) (m : FrameManager)
    : Outcome FrameManager :=
  match fm_frames m !! frameId with
  | None => Ok m
  | Some r =>
      Ok (emit (LifecycleEvent r)
            (update_frame r (Frame_onLifecycleEvent loaderId name) m))
  end.

(** [#onFrameStartedLoading]. *)
Definition onFrameStartedLoading (frameId : string) (m : FrameManager)
    : Outcome FrameManager :=
  match fm_frames m !! frameId with
  | None => Ok m
  | Some r => Ok (update_frame r Frame_onLoadingStarted m)
  end.

(** [#onFrameStoppedLoading]. *)
Definition onFrameStoppedLoading (frameId : string) (m : FrameManager)
    : Outcome FrameManager :=
  match fm_frames m !! frameId with
  | None => Ok m
  | Some r =>
      Ok (emit (LifecycleEvent r) (update_frame r Frame_onLoadingStopped m))
  end.

(** [#onFrameDetached]. *)
Definition onFrameDetached (frameId reason : string) (m : FrameManager)
    : Outcome FrameManager :=
  let frame := fm_frames m !! frameId in
  if decide (reason = "remove") then
    match frame with
    | Some r => removeFrames r m
    | None => Ok m
    end
  else if decide (reason = "swap") then
    Ok (emit (FrameSwapped frame) m)
  else Ok m.

(** The synchronous part of [#onAttachedToTarget]: the frame of an iframe
    target is rebound to the session of the target.  [session] is the
    session object the connection holds for [event.sessionId]; the two
    assertions that it exists are taken to pass.  The handler goes on to
    subscribe to the session and to await [initialize(session)], below. *)
Definition onAttachedToTarget (targetType targetId : string) (session : CDPSession)
    (m : FrameManager) : Outcome FrameManager :=
  if decide (targetType = "iframe") then
    match fm_frames m !! targetId with
    | Some r => Ok (Frame_updateClient session r m)
    | None => Ok m
    end
  else Ok m.

(** [#onDetachedFromTarget]. *)
Definition onDetachedFromTarget (targetId : option string) (m : FrameManager)
    : Outcome FrameManager :=
  match truthy targetId with
  | None => Ok m
  | Some tid =>
      match fm_frames m !! tid with
      | None => Ok m
      | Some r =>
          let* f := deref (frame_store m) r in
          if Frame_isOOPFrame m f then removeFrames r m else Ok m
      end
  end.

(** The composite key [`${session.id()}:${contextId}`]. *)
Definition contextKey (session : CDPSession) (contextId : Z) : string :=
  session_id session +:+ ":" +:+ pretty contextId.

(** [new ExecutionContext(client, contextPayload, world)], allocated in the
    store. *)
Definition ExecutionContext_new (client : CDPSession)
    (payload : ExecutionContextDescription) (world : option WorldRef)
    (m : FrameManager) : CtxRef * FrameManager :=
  let c := next_ref m in
  let ctx := {| _client := client; _contextPayload := payload; _world := world |} in
  (c, set_next_ref (S c) (set_context_store (<[c := ctx]> (context_store m)) m)).

(** The [world] variable of [#onExecutionContextCreated] for a frame owned
    by the session of the event. *)
Definition contextWorld (payload : ExecutionContextDescription) (f : Frame)
    (m : FrameManager) : Outcome (option WorldRef) :=
  if bool_decide (aux_isDefault <$> ctx_auxData payload = Some true) then
    Ok (Some (_mainWorld f))
  else if bool_decide (ctx_name payload = UTILITY_WORLD_NAME) then
    let* w := deref (world_store m) (_secondaryWorld f) in
    if negb (DOMWorld_hasContext w) then Ok (Some (_secondaryWorld f)) else Ok None
  else Ok None.

(** The frame an [executionContextCreated] event is about: [auxData?.frameId]
    looked up in the frame index when it is a string. *)
Definition contextFrame (contextPayload : ExecutionContextDescription)
    (m : FrameManager) : option FrameRef :=
  (ctx_auxData contextPayload ≫= aux_frameId) ≫= (λ i, fm_frames m !! i).

(** The tail of [#onExecutionContextCreated], from [new ExecutionContext] on:
    the context is constructed, bound to [world] if there is one, and put
    into the index under the composite key. *)
Definition createContext (contextPayload : ExecutionContextDescription)
    (session client : CDPSession) (world : option WorldRef) (m : FrameManager)
    : FrameManager :=
  let '(context, m1) := ExecutionContext_new client contextPayload world m in
  let m2 := match world with
            | Some w => update_world w (DOMWorld_setContext (Some context)) m1
            | None => m1
            end in
  let key := contextKey session (ctx_id contextPayload) in
  set_contextIdToContext (<[key := context]> (fm_contextIdToContext m2)) m2.

(** [#onExecutionContextCreated]. *)
Definition onExecutionContextCreated (contextPayload : ExecutionContextDescription)
    (session : CDPSession) (m : FrameManager) : Outcome FrameManager :=
  match contextFrame contextPayload m with
  | Some r =>
      let* f := deref (frame_store m) r in
      if bool_decide (frame_client f ≠ session) then Ok m
      else
        let* world := contextWorld contextPayload f m in
        Ok (createContext contextPayload session (frame_client f) world m)
  | None => Ok (createContext contextPayload session (fm_client m) None m)
  end.

(** [#onExecutionContextDestroyed]. *)
Definition onExecutionContextDestroyed (executionContextId : Z)
    (session : CDPSession) (m : FrameManager) : Outcome FrameManager :=
  let key := contextKey session executionContextId in
  match fm_contextIdToContext m !! key with
  | None => Ok m
  | Some c =>
      let* context := deref (context_store m) c in
      let m1 := set_contextIdToContext (delete key (fm_contextIdToContext m)) m in
      match _world context with
      | Some w => Ok (update_world w (DOMWorld_setContext None) m1)
      | None => Ok m1
      end
  end.

(** One iteration of the loop of [#onExecutionContextsCleared]. *)
Definition clearContext (session : CDPSession) (entry : string * CtxRef)
    (m : FrameManager) : Outcome FrameManager :=
  let* context := deref (context_store m) entry.2 in
  if bool_decide (_client context ≠ session) then Ok m
  else
    let m1 := match _world context with
              | Some w => update_world w (DOMWorld_setContext None) m
              | None => m
              end in
    Ok (set_contextIdToContext (delete entry.1 (fm_contextIdToContext m1)) m1).

(** [#onExecutionContextsCleared].  The iteration visits every entry present
    when it starts: the loop only ever deletes the entry it is visiting. *)
Definition onExecutionContextsCleared (session : CDPSession) (m : FrameManager)
    : Outcome FrameManager :=
  forM (clearContext session) (map_to_list (fm_contextIdToContext m)) m.

Definition missing_context (contextId : Z) : Thrown :=
  JsError ("INTERNAL ERROR: missing context with id = " +:+ pretty contextId).

Definition main_frame_too_early : Thrown :=
  JsError "Requesting main frame too early!".

(** [executionContextById]. *)
Definition executionContextById (contextId : Z) (session : CDPSession)
    (m : FrameManager) : Outcome CtxRef :=
  let key := contextKey session contextId in
  assert (fm_contextIdToContext m !! key)
    ("INTERNAL ERROR: missing context with id = " +:+ pretty contextId).

(** ** Protocol events

    The events [setupEventListeners] subscribes to, each with the session it
    arrives on where the handler takes it, and their dispatch. *)

Inductive ProtocolEvent :=
  | Page_frameAttached (session : CDPSession) (frameId : string)
      (parentFrameId : option string)
  | Page_frameNavigated (frame : FramePayload)
  | Page_navigatedWithinDocument (frameId url : string)
  | Page_frameDetached (frameId reason : string)
  | Page_frameStartedLoading (frameId : string)
  | Page_frameStoppedLoading (frameId : string)
  | Runtime_executionContextCreated (context : ExecutionContextDescription)
      (session : CDPSession)
  | Runtime_executionContextDestroyed (executionContextId : Z)
      (session : CDPSession)
  | Runtime_executionContextsCleared (session : CDPSession)
  | Page_lifecycleEvent (frameId loaderId name : string)
  | Target_attachedToTarget (targetType targetId : string) (session : CDPSession)
  | Target_detachedFromTarget (targetId : option string).

Definition dispatch (event : ProtocolEvent) : FrameManager → Outcome FrameManager :=
  match event with
  | Page_frameAttached session frameId parentFrameId =>
      onFrameAttached session frameId parentFrameId
  | Page_frameNavigated frame => onFrameNavigated frame
  | Page_navigatedWithinDocument frameId url =>
      onFrameNavigatedWithinDocument frameId url
  | Page_frameDetached frameId reason => onFrameDetached frameId reason
  | Page_frameStartedLoading frameId => onFrameStartedLoading frameId
  | Page_frameStoppedLoading frameId => onFrameStoppedLoading frameId
  | Runtime_executionContextCreated context session =>
      onExecutionContextCreated context session
  | Runtime_executionContextDestroyed executionContextId session =>
      onExecutionContextDestroyed executionContextId session
  | Runtime_executionContextsCleared session => onExecutionContextsCleared session
  | Page_lifecycleEvent frameId loaderId name =>
      onLifecycleEvent frameId loaderId name
  | Target_attachedToTarget targetType targetId session =>
      onAttachedToTarget targetType targetId session
  | Target_detachedFromTarget targetId => onDetachedFromTarget targetId
  end.

(** The states of a manager: the one its constructor makes, and those a
    handler returns from one of them.  A handler that throws leaves the state
    as it found it. *)
Inductive reachable : FrameManager → Prop :=
  | reachable_new client : reachable (FrameManager_new client)
  | reachable_dispatch event m m' :
      reachable m → dispatch event m = Ok m' → reachable m'.

(** ** Scenarios *)

Definition S1 : CDPSession := {| session_id := "S1" |}.
Definition S2 : CDPSession := {| session_id := "S2" |}.

Definition navigatedTo (i : string) (parent : option string) (u : string) : FramePayload :=
  {| payload_id := i; payload_parentId := parent; payload_name := None;
     payload_url := u; payload_urlFragment := None |}.

(** Runs handlers one after the other from a state. *)
Definition run (hs : list (FrameManager → Outcome FrameManager)) (m : FrameManager)
    : Outcome FrameManager :=
  forM (λ h, h) hs m.

Definition state_of (o : Outcome FrameManager) (d : FrameManager) : FrameManager :=
  match o with Ok m => m | _ => d end.

Definition contextFor (i : Z) (name : string) (frameId : option string)
    (isDefault : bool) : ExecutionContextDescription :=
  {| ctx_id := i; ctx_name := name;
     ctx_auxData := Some {| aux_frameId := frameId; aux_isDefault := isDefault |} |}.

(** The main frame "F1" with the children "F2" and "F4", and "F3" under
    "F2". *)
Definition scenario_tree : Outcome FrameManager :=
  run [ onFrameNavigated (navigatedTo "F1" None "https://a.test");
        onFrameAttached S1 "F2" (Some "F1");
        onFrameAttached S1 "F3" (Some "F2");
        onFrameAttached S1 "F4" (Some "F1") ] (FrameManager_new S1).

(** A main frame with its default context and a utility context, both
    reported by the primary session. *)
Definition scenario_contexts : Outcome FrameManager :=
  run [ onFrameNavigated (navigatedTo "F1" None "https://a.test");
        onExecutionContextCreated (contextFor 1 "" (Some "F1") true) S1;
        onExecutionContextCreated (contextFor 2 UTILITY_WORLD_NAME (Some "F1") false) S1 ]
      (FrameManager_new S1).

(** ** Well-formed stores

    What every state the handlers produce satisfies ([reachable_wf] at the
    end): the frame index names
    live frames under their current ids; the children of a frame are
    distinct live frames, allocated after it, whose parent it is; every
    reference in use is below the allocation counter; the worlds of a live
    frame, the indexed contexts and the main frame are live. *)

Definition index_ok (m : FrameManager) : Prop :=
  map_Forall (λ k r, _id <$> frame_store m !! r = Some k) (fm_frames m).

Definition children_ok (h : gmap nat Frame) : Prop :=
  map_Forall (λ p fp,
      NoDup (_childFrames fp)
      ∧ Forall (λ c, p < c ∧ parentFrame <$> h !! c = Some (Some p))
               (_childFrames fp))
    h.

Definition parents_ok (h : gmap nat Frame) : Prop :=
  map_Forall (λ x fx, from_option (λ p, p < x) True (parentFrame fx)) h.

Definition below {A} (n : nat) (h : gmap nat A) : Prop :=
  map_Forall (λ r _, r < n) h.

Definition refs_bounded (m : FrameManager) : Prop :=
  below (next_ref m) (frame_store m)
  ∧ below (next_ref m) (world_store m)
  ∧ below (next_ref m) (context_store m).

Definition worlds_ok (m : FrameManager) : Prop :=
  map_Forall (λ _ f, is_Some (world_store m !! _mainWorld f)
                     ∧ is_Some (world_store m !! _secondaryWorld f))
    (frame_store m).

Definition contexts_ok (m : FrameManager) : Prop :=
  map_Forall (λ _ c, is_Some (context_store m !! c)) (fm_contextIdToContext m).

Definition main_ok (m : FrameManager) : Prop :=
  from_option (λ r, is_Some (frame_store m !! r)) True (fm_mainFrame m).

Definition wf (m : FrameManager) : Prop :=
  index_ok m ∧ children_ok (frame_store m) ∧ refs_bounded m ∧ worlds_ok m
  ∧ contexts_ok m ∧ main_ok m ∧ parents_ok (frame_store m).

Global Instance from_option_dec {A} (P : A → Prop) (Q : Prop)
  `{∀ x, Decision (P x)} `{Decision Q} (o : option A) :
  Decision (from_option P Q o).
Proof. destruct o; simpl; apply _. Defined.

Global Instance wf_dec m : Decision (wf m).
Proof.
  unfold wf, index_ok, children_ok, parents_ok, refs_bounded, below, worlds_ok,
    contexts_ok, main_ok.
  apply _.
Defined.

(** ** The subtree of a frame *)

(** The frames at and below [r], children before their parent and in the
    order of the child sets: the order in which [#removeFramesRecursively]
    finishes with them. *)
Fixpoint postorder (fuel : nat) (h : gmap nat Frame) (r : FrameRef) : list FrameRef :=
  match fuel with
  | 0 => []
  | S fuel' =>
      match h !! r with
      | None => []
      | Some f => (_childFrames f ≫= postorder fuel' h) ++ [r]
      end
  end.

Definition subtree (m : FrameManager) (r : FrameRef) : list FrameRef :=
  postorder (next_ref m) (frame_store m) r.

(** A frame after its removal, and a parent after the removal of a child. *)
Definition Frame_removed (f : Frame) : Frame :=
  Frame_set_parentFrame None (Frame_set_childFrames [] (Frame_set_detached true f)).

Definition Frame_without_child (r : FrameRef) (pf : Frame) : Frame :=
  Frame_set_childFrames (set_delete r (_childFrames pf)) pf.

Definition parentOf (h : gmap nat Frame) (r : FrameRef) : option FrameRef :=
  h !! r ≫= parentFrame.

(** The frame store after the frames [L], the subtree of [r], are removed. *)
Definition removedStore (L : list FrameRef) (r : FrameRef) (h : gmap nat Frame)
    (x : FrameRef) : option Frame :=
  if decide (x ∈ L) then Frame_removed <$> h !! x
  else if decide (parentOf h r = Some x) then Frame_without_child r <$> h !! x
  else h !! x.

Definition removedIds (h : gmap nat Frame) (L : list FrameRef) : list string :=
  omap (λ x, _id <$> h !! x) L.

(** Whether a character occurs in a string. *)
Fixpoint occurs (c : ascii) (s : string) : bool :=
  match s with
  | EmptyString => false
  | String a s' => bool_decide (a = c) || occurs c s'
  end.


(** The main frame alone, owned by the primary session. *)
Definition scenario_main : Outcome FrameManager :=
  run [ onFrameNavigated (navigatedTo "F1" None "https://a.test") ]
      (FrameManager_new S1).

(** Of a list of index entries, those whose context belongs to a session:
    their keys, and the worlds their contexts are bound to. *)
Definition ownedBy (session : CDPSession) (store : gmap nat ExecutionContext)
    (entry : string * CtxRef) : Prop :=
  _client <$> store !! entry.2 = Some session.

Global Instance ownedBy_dec session store entry :
  Decision (ownedBy session store entry).
Proof. unfold ownedBy. apply _. Defined.

Definition clearedKeys (session : CDPSession) (store : gmap nat ExecutionContext)
    (l : list (string * CtxRef)) : list string :=
  (filter (ownedBy session store) l).*1.

Definition clearedWorlds (session : CDPSession) (store : gmap nat ExecutionContext)
    (l : list (string * CtxRef)) : list WorldRef :=
  omap (λ entry, store !! entry.2 ≫= _world) (filter (ownedBy session store) l).

(** Two sessions with a context each: the default context of the main frame
    from the primary session, and the default context of an out-of-process
    child frame from the session of its target. *)
Definition scenario_two_sessions : Outcome FrameManager :=
  run [ onFrameNavigated (navigatedTo "F1" None "https://a.test");
        onExecutionContextCreated (contextFor 1 "" (Some "F1") true) S1;
        onFrameAttached S1 "F2" (Some "F1");
        onAttachedToTarget "iframe" "F2" S2;
        onExecutionContextCreated (contextFor 1 "" (Some "F2") true) S2 ]
      (FrameManager_new S1).

(** A frame as its constructor leaves it. *)
Definition Frame_fresh (parent : option FrameRef) (frameId : string)
    (client : CDPSession) (r : FrameRef) : Frame :=
  {| parentFrame := parent; url := ""; detached := false;
     frame_client := client; _id := frameId; _loaderId := "";
     _name := None; _hasStartedLoading := false; _lifecycleEvents := [];
     _mainWorld := S r; _secondaryWorld := S (S r); _childFrames := [] |}.

(** An out-of-process child: "F2" under "F1", rebound to the session of its
    own target. *)
Definition scenario_oop : Outcome FrameManager :=
  run [ onFrameNavigated (navigatedTo "F1" None "https://a.test");
        onFrameAttached S1 "F2" (Some "F1");
        onAttachedToTarget "iframe" "F2" S2;
        onExecutionContextCreated (contextFor 1 "" (Some "F2") true) S2 ]
      (FrameManager_new S1).

(** What a removal leaves alone. *)
Definition same_rest (m m' : FrameManager) : Prop :=
  fm_mainFrame m' = fm_mainFrame m ∧ fm_client m' = fm_client m
  ∧ fm_contextIdToContext m' = fm_contextIdToContext m
  ∧ context_store m' = context_store m
  ∧ fm_isolatedWorlds m' = fm_isolatedWorlds m
  ∧ next_ref m' = next_ref m
  ∧ dom (world_store m') = dom (world_store m).

(** [m'] is [m] after the removal of the frames [L], the subtree of [r]: a
    [FrameDetached] event was emitted for each in turn, the frame store has
    them detached and cut off, and their ids are out of the index. *)
Definition removal (m m' : FrameManager) (L : list FrameRef) (r : FrameRef) : Prop :=
  emitted m' = emitted m ++ (FrameDetached <$> L)
  ∧ (∀ x, frame_store m' !! x = removedStore L r (frame_store m) x)
  ∧ (∀ k, fm_frames m' !! k
          = if decide (k ∈ removedIds (frame_store m) L) then None
            else fm_frames m !! k)
  ∧ same_rest m m'.

(** The frame store while the children [done] of [r] have been removed and
    [r] itself has not: the loop invariant of [#removeFramesRecursively]. *)
Definition childrenRemovedStore (L done : list FrameRef) (r : FrameRef)
    (h : gmap nat Frame) (x : FrameRef) : option Frame :=
  if decide (x ∈ L) then Frame_removed <$> h !! x
  else if decide (x = r) then
    (λ f, Frame_set_childFrames (filter (λ c, c ∉ done) (_childFrames f)) f) <$> h !! x
  else h !! x.

Definition childrenRemoval (fuel : nat) (m m' : FrameManager)
    (done : list FrameRef) (r : FrameRef) : Prop :=
  let L := done ≫= postorder fuel (frame_store m) in
  emitted m' = emitted m ++ (FrameDetached <$> L)
  ∧ (∀ x, frame_store m' !! x = childrenRemovedStore L done r (frame_store m) x)
  ∧ (∀ k, fm_frames m' !! k
          = if decide (k ∈ removedIds (frame_store m) L) then None
            else fm_frames m !! k)
  ∧ same_rest m m'.

(** A cross-process navigation of the main frame of [scenario_tree]. *)
Definition crossProcessPayload : FramePayload :=
  {| payload_id := "G1"; payload_parentId := None; payload_name := Some "top";
     payload_url := "https://b.test/"; payload_urlFragment := Some "#x" |}.

(** The frame "F2" of [scenario_oop]. *)
Definition scenario_oop_child : Frame :=
  {| parentFrame := Some 0; url := ""; detached := false; frame_client := S2;
     _id := "F2"; _loaderId := ""; _name := None; _hasStartedLoading := false;
     _lifecycleEvents := []; _mainWorld := 6; _secondaryWorld := 7;
     _childFrames := [] |}.

(** The main frame of [scenario_tree]. *)
Definition scenario_tree_main : Frame :=
  {| parentFrame := None; url := "https://a.test"; detached := false;
     frame_client := S1; _id := "F1"; _loaderId := ""; _name := None;
     _hasStartedLoading := false; _lifecycleEvents := []; _mainWorld := 1;
     _secondaryWorld := 2; _childFrames := [3; 9] |}.

(** ** The session channel and asynchronous operations *)

(** A promise is fulfilled with a value or rejected with what was thrown. *)
Inductive Settled (A : Type) :=
  | Fulfilled (a : A)
  | Rejected (e : Thrown).
Arguments Fulfilled {A} a.
Arguments Rejected {A} e.

(** [Protocol.Page.FrameTree]. *)
Inductive FrameTree :=
  | FrameTreeNode (frame : FramePayload) (childFrames : option (list FrameTree)).

(** Modelled from the spec: the session channel answers a command with a
    result or a failure ([CDPSession.send], module [./Connection], not among
    the sources).  The channel is taken as a parameter that fixes the answer
    to every command the manager sends; [NetworkManager.initialize] is
    likewise a collaborator. *)
Record Transport := {
  Page_enable : CDPSession → Settled unit;
  Page_getFrameTree : CDPSession → Settled FrameTree;
  Target_setAutoAttach : CDPSession → Settled unit;
  Page_setLifecycleEventsEnabled : CDPSession → Settled unit;
  Runtime_enable : CDPSession → Settled unit;
  Page_addScriptToEvaluateOnNewDocument : CDPSession → string → Settled unit;
  Page_createIsolatedWorld : CDPSession → string → string → Settled unit;
  NetworkManager_initialize : Settled unit;
}.

(** Code that changes the manager and may throw: what was changed before the
    throw stays changed. *)
Definition Eff (A : Type) : Type := FrameManager → Outcome A * FrameManager.

Definition eff_ret {A} (a : A) : Eff A := λ m, (Ok a, m).

Definition eff_bind {A B} (c : Eff A) (k : A → Eff B) : Eff B :=
  λ m, match c m with
       | (Ok a, m') => k a m'
       | (Throw e, m') => (Throw e, m')
       | (Stuck, m') => (Stuck, m')
       end.

Notation "'do' x '←' c ';' k" := (eff_bind c (λ x, k))
  (at level 10, x binder, c at level 100, k at level 200).

(** A handler as an effect: it either replaces the manager or throws. *)
Definition eff_handler (h : FrameManager → Outcome FrameManager) : Eff unit :=
  λ m, match h m with
       | Ok m' => (Ok tt, m')
       | Throw e => (Throw e, m)
       | Stuck => (Stuck, m)
       end.

(** [await] of a promise of the channel. *)
Definition await {A} (p : Settled A) : Eff A :=
  λ m, match p with
       | Fulfilled a => (Ok a, m)
       | Rejected e => (Throw e, m)
       end.

(** [try { body } catch (error) { handler }]. *)
Definition try_catch {A} (body : Eff A) (handler : Thrown → Eff A) : Eff A :=
  λ m, match body m with
       | (Throw e, m') => handler e m'
       | r => r
       end.

(** [await Promise.all(ps)].  Every promise runs to its end whether or not
    another one is rejected; the result is the array of their values, or
    the rejection of the first of them that is rejected.  The promises are
    taken to settle in the order of the array. *)
Fixpoint promise_all {A} (ps : list (Eff A)) : Eff (list A) :=
  match ps with
  | [] => eff_ret []
  | p :: ps' =>
      λ m, match p m with
           | (Ok a, m1) =>
               match promise_all ps' m1 with
               | (Ok l, m2) => (Ok (a :: l), m2)
               | r => r
               end
           | (Throw e, m1) => (Throw e, (promise_all ps' m1).2)
           | (Stuck, m1) => (Stuck, m1)
           end
  end.

(** [String.prototype.includes]. *)
Fixpoint includes (sub s : string) : bool :=
  String.prefix sub s
  || match s with
     | EmptyString => false
     | String _ s' => includes sub s'
     end.

(** [#handleFrameTree]. *)
Fixpoint handleFrameTree (session : CDPSession) (frameTree : FrameTree) : Eff unit :=
  match frameTree with
  | FrameTreeNode frame childFrames =>
      do _ ← match truthy (payload_parentId frame) with
             | Some parentId =>
                 eff_handler (onFrameAttached session (payload_id frame) (Some parentId))
             | None => eff_ret tt
             end;
      do _ ← eff_handler (onFrameNavigated frame);
      match childFrames with
      | None => eff_ret tt
      | Some children =>
          (fix loop (l : list FrameTree) : Eff unit :=
             match l with
             | [] => eff_ret tt
             | child :: l' => do _ ← handleFrameTree session child; loop l'
             end) children
      end
  end.

(** [frames()], in some order: the index does not record insertion order. *)
Definition frames (m : FrameManager) : list FrameRef :=
  (map_to_list (fm_frames m)).*2.

(** [promise.catch(debugError)]: a rejection is logged and the promise is
    fulfilled. *)
Definition catch_debugError (c : Eff unit) : Eff unit :=
  try_catch c (λ _, eff_ret tt).

(** [_ensureIsolatedWorld]. *)
Definition _ensureIsolatedWorld (t : Transport) (session : CDPSession)
    (name : string) : Eff unit :=
  λ m,
    let key := session_id session +:+ ":" +:+ name in
    if decide (key ∈ fm_isolatedWorlds m) then (Ok tt, m)
    else
      let m1 := set_isolatedWorlds ({[key]} ∪ fm_isolatedWorlds m) m in
      (do _ ← await (Page_addScriptToEvaluateOnNewDocument t session name);
       do _ ← promise_all
           ((λ f, catch_debugError
                    (await (Page_createIsolatedWorld t session (_id f) name)))
            <$> filter (λ f, frame_client f = session)
                  (omap (λ r, frame_store m1 !! r) (frames m1)));
       eff_ret tt) m1.

(** The test of the [catch] clause of [initialize]. *)
Definition targetClosed (error : Thrown) : bool :=
  match error with
  | JsError message =>
      includes "Target closed" message || includes "Session closed" message
  | JsNonError _ => false
  end.

(** The three promises of the first [Promise.all] of [initialize]; the
    second one yields the frame tree. *)
Definition initialize_first (t : Transport) (client : CDPSession)
    (primary : bool) : list (Eff (option FrameTree)) :=
  [ do _ ← await (Page_enable t client); eff_ret None;
    do tree ← await (Page_getFrameTree t client); eff_ret (Some tree);
    if primary then eff_ret None
    else do _ ← await (Target_setAutoAttach t client); eff_ret None ].

(** The three promises of the second one. *)
Definition initialize_second (t : Transport) (client : CDPSession)
    (primary : bool) : list (Eff unit) :=
  [ await (Page_setLifecycleEventsEnabled t client);
    do _ ← await (Runtime_enable t client);
      _ensureIsolatedWorld t client UTILITY_WORLD_NAME;
    if primary then await (NetworkManager_initialize t) else eff_ret tt ].

(** The [try] block of [initialize]; [primary] is [client === this.#client]. *)
Definition initialize_body (t : Transport) (client : CDPSession) : Eff unit :=
  λ m,
    let primary := bool_decide (client = fm_client m) in
    (do result ← promise_all (initialize_first t client primary);
     do _ ← match result !! 1 with
            | Some (Some frameTree) => handleFrameTree client frameTree
            | _ => eff_ret tt
            end;
     do _ ← promise_all (initialize_second t client primary);
     eff_ret tt) m.

(** [initialize]. *)
Definition initialize (t : Transport) (client : CDPSession) : Eff unit :=
  try_catch (initialize_body t client)
    (λ error, if isErrorLike error && targetClosed error then eff_ret tt
              else λ m, (Throw error, m)).

(** What the [catch] clause of [initialize] makes of the failure it
    receives. *)
Definition initialize_result (error : Thrown) : Outcome unit :=
  if targetClosed error then Ok tt else Throw error.

(** A channel on which every command succeeds and the page has one frame. *)
Definition quietTransport : Transport :=
  {| Page_enable := λ _, Fulfilled tt;
     Page_getFrameTree := λ _,
       Fulfilled (FrameTreeNode (navigatedTo "F1" None "https://a.test") None);
     Target_setAutoAttach := λ _, Fulfilled tt;
     Page_setLifecycleEventsEnabled := λ _, Fulfilled tt;
     Runtime_enable := λ _, Fulfilled tt;
     Page_addScriptToEvaluateOnNewDocument := λ _ _, Fulfilled tt;
     Page_createIsolatedWorld := λ _ _ _, Fulfilled tt;
     NetworkManager_initialize := Fulfilled tt |}.

(** The same channel with [Runtime.enable] failing. *)
Definition failingTransport (error : Thrown) : Transport :=
  {| Page_enable := λ _, Fulfilled tt;
     Page_getFrameTree := λ _,
       Fulfilled (FrameTreeNode (navigatedTo "F1" None "https://a.test") None);
     Target_setAutoAttach := λ _, Fulfilled tt;
     Page_setLifecycleEventsEnabled := λ _, Fulfilled tt;
     Runtime_enable := λ _, Rejected error;
     Page_addScriptToEvaluateOnNewDocument := λ _ _, Fulfilled tt;
     Page_createIsolatedWorld := λ _ _ _, Fulfilled tt;
     NetworkManager_initialize := Fulfilled tt |}.

(** ** Navigation *)























Definition otherError : Thrown := JsError "Protocol error (Runtime.enable): Internal error".


(** ** Relating frame stores *)

Definition frames_related (R : Frame → Frame → Prop) (h h' : gmap nat Frame) : Prop :=
  ∀ x, option_Forall2 R (h !! x) (h' !! x).

Definition same_links (f f' : Frame) : Prop :=
  parentFrame f' = parentFrame f ∧ _childFrames f' = _childFrames f.

Definition same_id (f f' : Frame) : Prop := _id f' = _id f.

Definition same_worlds (f f' : Frame) : Prop :=
  _mainWorld f' = _mainWorld f ∧ _secondaryWorld f' = _secondaryWorld f.

(** ** Sequences of events *)

(** The events of a list delivered one after the other. *)
Definition deliver (events : list ProtocolEvent) (m : FrameManager)
    : Outcome FrameManager :=
  forM dispatch events m.

(** A channel on which every [Page.createIsolatedWorld] is rejected and
    every other command succeeds. *)
Definition noWorldsTransport (error : Thrown) : Transport :=
  {| Page_enable := λ _, Fulfilled tt;
     Page_getFrameTree := λ _,
       Fulfilled (FrameTreeNode (navigatedTo "F1" None "https://a.test") None);
     Target_setAutoAttach := λ _, Fulfilled tt;
     Page_setLifecycleEventsEnabled := λ _, Fulfilled tt;
     Runtime_enable := λ _, Fulfilled tt;
     Page_addScriptToEvaluateOnNewDocument := λ _ _, Fulfilled tt;
     Page_createIsolatedWorld := λ _ _ _, Rejected error;
     NetworkManager_initialize := Fulfilled tt |}.

(** ** A frame tree as a sequence of events *)

(** The events a frame-tree snapshot stands for, in the order
    [#handleFrameTree] visits the tree: for each frame an attachment, when
    the frame has a parent id, and a navigation, before those of its
    children. *)
Fixpoint tree_events (session : CDPSession) (frameTree : FrameTree)
    : list ProtocolEvent :=
  match frameTree with
  | FrameTreeNode frame childFrames =>
      match truthy (payload_parentId frame) with
      | Some parentId =>
          [Page_frameAttached session (payload_id frame) (Some parentId)]
      | None => []
      end
      ++ Page_frameNavigated frame
      :: match childFrames with
         | None => []
         | Some children =>
             (fix go (l : list FrameTree) : list ProtocolEvent :=
                match l with
                | [] => []
                | child :: l' => tree_events session child ++ go l'
                end) children
         end
  end.

(** The handlers of a list of events called one after the other by one
    caller: the first exception ends the run, and what was done before it
    stays done. *)
Fixpoint handle_all (events : list ProtocolEvent) : Eff unit :=
  match events with
  | [] => eff_ret tt
  | event :: events' => do _ ← eff_handler (dispatch event); handle_all events'
  end.

(** The states of a manager that handles events and is initialized, for one
    session or another, in between. *)
Inductive attainable : FrameManager → Prop :=
  | attainable_new client : attainable (FrameManager_new client)
  | attainable_dispatch event m m' :
      attainable m → dispatch event m = Ok m' → attainable m'
  | attainable_initialize t client m :
      attainable m → attainable (initialize t client m).2
  | attainable_ensureIsolatedWorld t session name m :
      attainable m → attainable (_ensureIsolatedWorld t session name m).2.

(** [m'] is a state the manager gets to from [m] as it handles events and
    is initialized for one session or another. *)
Inductive reaches (m : FrameManager) : FrameManager → Prop :=
  | reaches_refl : reaches m m
  | reaches_step event m1 m2 :
      reaches m m1 → dispatch event m1 = Ok m2 → reaches m m2
  | reaches_initialize t client m1 :
      reaches m m1 → reaches m (initialize t client m1).2
  | reaches_ensureIsolatedWorld t session name m1 :
      reaches m m1 → reaches m (_ensureIsolatedWorld t session name m1).2.

(** A channel with another answer to [Target.setAutoAttach], and one with
    another outcome of [NetworkManager.initialize]. *)
Definition with_setAutoAttach (answer : CDPSession → Settled unit) (t : Transport)
    : Transport :=
  {| Page_enable := Page_enable t;
     Page_getFrameTree := Page_getFrameTree t;
     Target_setAutoAttach := answer;
     Page_setLifecycleEventsEnabled := Page_setLifecycleEventsEnabled t;
     Runtime_enable := Runtime_enable t;
     Page_addScriptToEvaluateOnNewDocument := Page_addScriptToEvaluateOnNewDocument t;
     Page_createIsolatedWorld := Page_createIsolatedWorld t;
     NetworkManager_initialize := NetworkManager_initialize t |}.

Definition with_networkManager (outcome : Settled unit) (t : Transport) : Transport :=
  {| Page_enable := Page_enable t;
     Page_getFrameTree := Page_getFrameTree t;
     Target_setAutoAttach := Target_setAutoAttach t;
     Page_setLifecycleEventsEnabled := Page_setLifecycleEventsEnabled t;
     Runtime_enable := Runtime_enable t;
     Page_addScriptToEvaluateOnNewDocument := Page_addScriptToEvaluateOnNewDocument t;
     Page_createIsolatedWorld := Page_createIsolatedWorld t;
     NetworkManager_initialize := outcome |}.

(** ** The tree of tracked frames *)

(** A frame is tracked when the index holds it under its id. *)
Definition tracked (m : FrameManager) (x : FrameRef) : Prop :=
  ∃ fx, frame_store m !! x = Some fx ∧ fm_frames m !! _id fx = Some x.

(** The frames in a child set are tracked. *)
Definition children_tracked (m : FrameManager) : Prop :=
  ∀ p fp c, frame_store m !! p = Some fp → c ∈ _childFrames fp → tracked m c.

(** A frame is in the child set of the frame it has as parent. *)
Definition parents_know (h : gmap nat Frame) : Prop :=
  ∀ c fc p, h !! c = Some fc → parentFrame fc = Some p →
            ∃ fp, h !! p = Some fp ∧ c ∈ _childFrames fp.

(** A tracked frame is the main frame or has a tracked parent. *)
Definition tracked_hang (m : FrameManager) : Prop :=
  ∀ k x fx, fm_frames m !! k = Some x → frame_store m !! x = Some fx →
            fm_mainFrame m = Some x ∨ ∃ p, parentFrame fx = Some p ∧ tracked m p.

(** Only a tracked frame has children. *)
Definition parents_tracked (m : FrameManager) : Prop :=
  ∀ p fp, frame_store m !! p = Some fp → _childFrames fp ≠ [] → tracked m p.

Definition tree_ok (m : FrameManager) : Prop :=
  children_tracked m ∧ parents_know (frame_store m) ∧ tracked_hang m
  ∧ parents_tracked m.

(** [m'] has the frames of [m] with the same ids, parents and children, the
    same index and the same main frame. *)
Definition same_tree (m m' : FrameManager) : Prop :=
  fm_frames m' = fm_frames m ∧ fm_mainFrame m' = fm_mainFrame m
  ∧ frames_related (λ f f', same_links f f' ∧ same_id f f')
      (frame_store m) (frame_store m').

(** [m'] is [m] with the frames [L] cut out of the tree: they have lost
    their links and their index entries, and the other frames have lost them
    as children. *)
Definition pruned (L : list FrameRef) (m m' : FrameManager) : Prop :=
  fm_mainFrame m' = fm_mainFrame m
  ∧ (∀ k, fm_frames m' !! k
          = if decide (k ∈ removedIds (frame_store m) L) then None
            else fm_frames m !! k)
  ∧ (∀ x, x ∈ L → frame_store m' !! x = Frame_removed <$> frame_store m !! x)
  ∧ (∀ x, x ∉ L →
       option_Forall2
         (λ f f', _id f' = _id f ∧ parentFrame f' = parentFrame f
                  ∧ ∀ c, c ∈ _childFrames f' ↔ c ∈ _childFrames f ∧ c ∉ L)
         (frame_store m !! x) (frame_store m' !! x)).

(** ** Frame-tree snapshots *)

(** The frames of a snapshot, parents before children. *)
Fixpoint tree_frames (frameTree : FrameTree) : list FramePayload :=
  match frameTree with
  | FrameTreeNode frame childFrames =>
      frame
      :: match childFrames with
         | None => []
         | Some children =>
             (fix go (l : list FrameTree) : list FramePayload :=
                match l with
                | [] => []
                | child :: l' => tree_frames child ++ go l'
                end) children
         end
  end.

(** The events one frame of a snapshot stands for. *)
Definition frame_events (session : CDPSession) (frame : FramePayload)
    : list ProtocolEvent :=
  match truthy (payload_parentId frame) with
  | Some parentId => [Page_frameAttached session (payload_id frame) (Some parentId)]
  | None => []
  end
  ++ [Page_frameNavigated frame].

(** Every frame of the list has a parent id, that of a frame listed in
    [seen] or earlier in the list. *)
Fixpoint parents_first (seen : list string) (l : list FramePayload) : Prop :=
  match l with
  | [] => True
  | frame :: l' =>
      (∃ parentId, truthy (payload_parentId frame) = Some parentId ∧ parentId ∈ seen)
      ∧ parents_first (seen ++ [payload_id frame]) l'
  end.

(** A snapshot as the browser sends it: the first frame has no parent id,
    every other has the id of a frame before it as its parent id, and no id
    occurs twice. *)
Definition snapshot_ok (l : list FramePayload) : Prop :=
  match l with
  | [] => False
  | root :: rest =>
      truthy (payload_parentId root) = None
      ∧ NoDup (payload_id <$> l)
      ∧ parents_first [payload_id root] rest
  end.

(** The frame of a snapshot as the manager holds it: tracked under its id,
    with the name and the url of the payload; the frame without a parent id
    is the main frame, and any other is bound to the session and has the
    frame tracked under its parent id as parent. *)
Definition placed (session : CDPSession) (q : FramePayload) (m : FrameManager) : Prop :=
  ∃ r f,
    fm_frames m !! payload_id q = Some r ∧ frame_store m !! r = Some f
    ∧ url f = payload_url q +:+ default "" (payload_urlFragment q)
    ∧ _name f = payload_name q
    ∧ match truthy (payload_parentId q) with
      | Some parentId =>
          frame_client f = session
          ∧ ∃ rp, fm_frames m !! parentId = Some rp ∧ parentFrame f = Some rp
      | None => fm_mainFrame m = Some r ∧ parentFrame f = None
      end.

(** The frames [seen] of a snapshot are in place, and no other frame is
    tracked. *)
Definition materialized (session : CDPSession) (seen : list FramePayload)
    (m : FrameManager) : Prop :=
  (∀ k, is_Some (fm_frames m !! k) ↔ k ∈ payload_id <$> seen)
  ∧ ∀ q, q ∈ seen → placed session q m.

(** A snapshot of four frames: "F2" and "F4" under "F1", and "F3" under
    "F2". *)
Definition snapshot_tree : FrameTree :=
  FrameTreeNode (navigatedTo "F1" None "https://a.test")
    (Some [ FrameTreeNode (navigatedTo "F2" (Some "F1") "https://b.test")
              (Some [ FrameTreeNode (navigatedTo "F3" (Some "F2") "https://c.test")
                        None ]);
            FrameTreeNode (navigatedTo "F4" (Some "F1") "https://d.test") None ]).

(** [Frame.name()] and [Frame.url()]. *)
Definition Frame_name (f : Frame) : string := default "" (truthy (_name f)).

Definition Frame_url (f : Frame) : string := url f.

(** The main frame of [scenario_main]. *)
Definition scenario_main_frame : Frame :=
  {| parentFrame := None; url := "https://a.test"; detached := false;
     frame_client := S1; _id := "F1"; _loaderId := ""; _name := None;
     _hasStartedLoading := false; _lifecycleEvents := []; _mainWorld := 1;
     _secondaryWorld := 2; _childFrames := [] |}.

(** * Properties *)

(** ** The composite key *)

Lemma occurs_app c s t : occurs c (s +:+ t) = occurs c s || occurs c t.
Proof. induction s as [|a s IH]; simpl; [done|]. rewrite IH. by rewrite orb_assoc. Qed.

Lemma pretty_N_char_not_colon x : pretty_N_char x ≠ ":"%char.
Proof. unfold pretty_N_char. by repeat case_match. Qed.

Lemma pretty_N_go_occurs x s :
  occurs ":"%char s = false → occurs ":"%char (pretty_N_go x s) = false.
Proof.
  revert s. induction (N.lt_wf_0 x) as [x _ IH]; intros s Hs.
  destruct (decide (0 < x)%N) as [Hx|Hx].
  - rewrite pretty_N_go_step by done.
    apply IH; [by apply N.div_lt|].
    simpl. rewrite Hs, orb_false_r.
    apply bool_decide_eq_false, pretty_N_char_not_colon.
  - assert (x = 0%N) as -> by lia. by rewrite pretty_N_go_0.
Qed.

Lemma pretty_Z_occurs (z : Z) : occurs ":"%char (pretty z) = false.
Proof.
  destruct z as [|p|p]; [done| |].
  - by apply pretty_N_go_occurs.
  - change (occurs ":"%char ("-" +:+ pretty_N_go (N.pos p) "") = false).
    rewrite occurs_app. simpl. by apply pretty_N_go_occurs.
Qed.

Lemma split_at_last_colon a b p q :
  occurs ":"%char p = false → occurs ":"%char q = false →
  a +:+ String ":"%char p = b +:+ String ":"%char q → a = b ∧ p = q.
Proof.
  intros Hp Hq. revert b. induction a as [|c a IH]; intros [|d b] H.
  - by injection H.
  - exfalso. injection H as _ H. rewrite H, occurs_app in Hp. simpl in Hp.
    by rewrite orb_true_r in Hp.
  - exfalso. injection H as _ H. rewrite <-H, occurs_app in Hq. simpl in Hq.
    by rewrite orb_true_r in Hq.
  - injection H as -> H. destruct (IH b) as [-> ->]; done.
Qed.

(** The key determines the session and the context id. *)
Lemma contextKey_inj s1 s2 i1 i2 :
  contextKey s1 i1 = contextKey s2 i2 → s1 = s2 ∧ i1 = i2.
Proof.
  unfold contextKey. intros H.
  apply split_at_last_colon in H as [Hs Hi]; try apply pretty_Z_occurs.
  split; [destruct s1, s2; simpl in *; congruence|].
  by apply (inj pretty).
Qed.


(** ** Lookups that must not miss *)

Lemma executionContextById_None contextId session m :
  fm_contextIdToContext m !! contextKey session contextId = None →
  executionContextById contextId session m = Throw (missing_context contextId).
Proof. intros H. unfold executionContextById. by rewrite H. Qed.

Lemma executionContextById_Some contextId session m c :
  fm_contextIdToContext m !! contextKey session contextId = Some c →
  executionContextById contextId session m = Ok c.
Proof. intros H. unfold executionContextById. by rewrite H. Qed.

Lemma onExecutionContextDestroyed_index contextId session m m' :
  onExecutionContextDestroyed contextId session m = Ok m' →
  fm_contextIdToContext m' !! contextKey session contextId = None.
Proof.
  unfold onExecutionContextDestroyed.
  destruct (fm_contextIdToContext m !! _) as [c|] eqn:Hc.
  - unfold deref. destruct (context_store m !! c) as [ctx|]; [|done]. simpl.
    destruct (_world ctx); intros [= <-]; simpl; apply lookup_delete_eq.
  - by intros [= <-].
Qed.

(** C5.  [executionContextById] on a pair that is not in the context index,
    and [mainFrame] while no main frame is recorded (as on a manager just
    constructed), throw: no null and no default comes back.  After an
    [executionContextDestroyed] event for an indexed context the same lookup
    throws in this way. *)
Theorem missing_lookups_are_fatal :
  (∀ contextId session m,
     fm_contextIdToContext m !! contextKey session contextId = None →
     executionContextById contextId session m = Throw (missing_context contextId))
  ∧ (∀ m, fm_mainFrame m = None →
       mainFrame m = Throw main_frame_too_early)
  ∧ (∀ client,
       mainFrame (FrameManager_new client) = Throw main_frame_too_early)
  ∧ (∀ contextId session m c ctx,
       fm_contextIdToContext m !! contextKey session contextId = Some c →
       context_store m !! c = Some ctx →
       executionContextById contextId session m = Ok c
       ∧ ∃ m', onExecutionContextDestroyed contextId session m = Ok m'
               ∧ executionContextById contextId session m'
                 = Throw (missing_context contextId)).
Proof.
  split_and!.
  - apply executionContextById_None.
  - intros m H. unfold mainFrame. by rewrite H.
  - done.
  - intros contextId session m c ctx Hc Hctx.
    split; [by apply executionContextById_Some|].
    destruct (onExecutionContextDestroyed contextId session m) as [m'| |] eqn:E.
    + exists m'. split; [done|].
      apply executionContextById_None.
      by eapply onExecutionContextDestroyed_index.
    + exfalso. revert E. unfold onExecutionContextDestroyed.
      rewrite Hc. unfold deref. rewrite Hctx. simpl. by destruct (_world ctx).
    + exfalso. revert E. unfold onExecutionContextDestroyed.
      rewrite Hc. unfold deref. rewrite Hctx. simpl. by destruct (_world ctx).
Qed.

Lemma missing_lookups_are_fatal_witness :
  executionContextById 7 S2 (state_of scenario_contexts (FrameManager_new S1))
  = Throw (missing_context 7)
  ∧ mainFrame (FrameManager_new S1) = Throw main_frame_too_early
  ∧ ∃ m', onExecutionContextDestroyed 1 S1
            (state_of scenario_contexts (FrameManager_new S1)) = Ok m'
          ∧ executionContextById 1 S1 m' = Throw (missing_context 1).
Proof.
  destruct missing_lookups_are_fatal as (Habsent & Hearly & _ & Hdestroyed).
  split_and!.
  - apply Habsent. vm_compute. reflexivity.
  - apply Hearly. reflexivity.
  - eapply Hdestroyed; vm_compute; reflexivity.
Defined.

Lemma scenario_tree_wf : wf (state_of scenario_tree (FrameManager_new S1)).
Proof. apply (bool_decide_unpack _). vm_compute. reflexivity. Qed.

(** ** Creation of execution contexts *)

Lemma createContext_index p session cl world m :
  fm_contextIdToContext (createContext p session cl world m)
  = <[contextKey session (ctx_id p) := next_ref m]> (fm_contextIdToContext m).
Proof. unfold createContext. simpl. by destruct world. Qed.

Lemma createContext_context_store p session cl world m :
  context_store (createContext p session cl world m)
  = <[next_ref m := {| _client := cl; _contextPayload := p; _world := world |}]>
      (context_store m).
Proof. unfold createContext. simpl. by destruct world. Qed.

Lemma createContext_world_store p session cl world m :
  world_store (createContext p session cl world m)
  = match world with
    | Some w => alter (DOMWorld_setContext (Some (next_ref m))) w (world_store m)
    | None => world_store m
    end.
Proof. unfold createContext. simpl. by destruct world. Qed.

Lemma createContext_frames p session cl world m :
  fm_frames (createContext p session cl world m) = fm_frames m
  ∧ frame_store (createContext p session cl world m) = frame_store m
  ∧ fm_mainFrame (createContext p session cl world m) = fm_mainFrame m
  ∧ fm_client (createContext p session cl world m) = fm_client m
  ∧ emitted (createContext p session cl world m) = emitted m
  ∧ next_ref (createContext p session cl world m) = S (next_ref m).
Proof. unfold createContext. simpl. by destruct world. Qed.


(** C10, as amended.  An [executionContextCreated] event that names a tracked
    frame owned by another session than the one delivering it is dropped: the
    handler returns with the manager and the store exactly as they were, so no
    context is constructed, no key enters the index and no world is bound.  A
    lookup of the event's id for the delivering session afterwards resolves
    as it did before the event; it throws the missing-context assertion when
    that pair was not indexed already. *)
Theorem foreign_session_context_is_dropped p session m aux frameId r f :
  ctx_auxData p = Some aux → aux_frameId aux = Some frameId →
  fm_frames m !! frameId = Some r → frame_store m !! r = Some f →
  frame_client f ≠ session →
  ∃ m', onExecutionContextCreated p session m = Ok m' ∧ m' = m
        ∧ executionContextById (ctx_id p) session m'
          = executionContextById (ctx_id p) session m
        ∧ (fm_contextIdToContext m !! contextKey session (ctx_id p) = None →
           executionContextById (ctx_id p) session m'
           = Throw (missing_context (ctx_id p))).
Proof.
  intros Haux Hid Hr Hf Hne. exists m.
  split; [|split; [done|split; [done|by apply executionContextById_None]]].
  unfold onExecutionContextCreated, contextFrame.
  rewrite Haux. simpl. rewrite Hid. simpl. rewrite Hr.
  unfold deref. rewrite Hf. simpl. by rewrite bool_decide_eq_true_2.
Qed.


Lemma createContext_worlds_ok p session cl world m :
  worlds_ok m → worlds_ok (createContext p session cl world m).
Proof.
  intros Hw r f Hf. destruct (createContext_frames p session cl world m) as (_ & Hfs & _).
  rewrite Hfs in Hf. destruct (Hw _ _ Hf) as [H1 H2].
  rewrite createContext_world_store.
  destruct world as [w|]; [|done].
  split; rewrite lookup_alter_is_Some; done.
Qed.

Lemma createContext_index_ok p session cl world m :
  index_ok m → index_ok (createContext p session cl world m).
Proof.
  intros Hi k r Hr. destruct (createContext_frames p session cl world m) as (Hfr & Hfs & _).
  rewrite Hfr in Hr. rewrite Hfs. by apply Hi.
Qed.





Lemma foreign_session_context_is_dropped_witness :
  ∃ m', onExecutionContextCreated (contextFor 5 "" (Some "F1") true) S2
          (state_of scenario_contexts (FrameManager_new S1)) = Ok m'
        ∧ m' = state_of scenario_contexts (FrameManager_new S1)
        ∧ executionContextById 5 S2 m' = Throw (missing_context 5).
Proof.
  destruct (foreign_session_context_is_dropped
              (contextFor 5 "" (Some "F1") true) S2
              (state_of scenario_contexts (FrameManager_new S1))
              {| aux_frameId := Some "F1"; aux_isDefault := true |} "F1" 0
              {| parentFrame := None; url := "https://a.test"; detached := false;
                 frame_client := S1; _id := "F1"; _loaderId := "";
                 _name := None; _hasStartedLoading := false;
                 _lifecycleEvents := []; _mainWorld := 1; _secondaryWorld := 2;
                 _childFrames := [] |})
    as (m' & E & Hm & _ & Hthrow); try (vm_compute; reflexivity).
  - vm_compute. discriminate.
  - exists m'. split; [exact E|]. split; [exact Hm|].
    apply Hthrow. vm_compute. reflexivity.
Defined.

(** The event of session [S2] below names the main frame, which [S1] owns, so
    it is dropped; its id is one [S2] has indexed already, and the lookup
    that follows returns that earlier context instead of throwing. *)
Lemma dropped_event_with_indexed_id :
  let m := state_of scenario_two_sessions (FrameManager_new S1) in
  fm_frames m !! "F1" = Some 0
  ∧ frame_client <$> frame_store m !! 0 = Some S1 ∧ S1 ≠ S2
  ∧ onExecutionContextCreated (contextFor 1 "" (Some "F1") true) S2 m = Ok m
  ∧ executionContextById 1 S2 m = Ok 9
  ∧ executionContextById 1 S2 m ≠ Throw (missing_context 1).
Proof. split_and!; try (vm_compute; reflexivity); discriminate. Qed.


(** ** Clearing the contexts of a session *)

Lemma DOMWorld_setContext_None_idemp w :
  DOMWorld_setContext None (DOMWorld_setContext None w) = DOMWorld_setContext None w.
Proof. done. Qed.

Lemma if_elem_of_cons {A B} `{EqDecision A} (j k : A) (K : list A) (x y : B) :
  (if decide (j ∈ k :: K) then x else y)
  = if decide (j = k) then x else if decide (j ∈ K) then x else y.
Proof.
  repeat case_decide; try done; exfalso; rewrite elem_of_cons in *; tauto.
Qed.

Lemma clearContext_loop session l : ∀ m,
  Forall (λ entry, is_Some (context_store m !! entry.2)) l →
  ∃ m', forM (clearContext session) l m = Ok m'
    ∧ context_store m' = context_store m
    ∧ fm_frames m' = fm_frames m ∧ frame_store m' = frame_store m
    ∧ emitted m' = emitted m ∧ next_ref m' = next_ref m
    ∧ (∀ k, fm_contextIdToContext m' !! k
            = if decide (k ∈ clearedKeys session (context_store m) l) then None
              else fm_contextIdToContext m !! k)
    ∧ (∀ w, world_store m' !! w
            = if decide (w ∈ clearedWorlds session (context_store m) l)
              then DOMWorld_setContext None <$> world_store m !! w
              else world_store m !! w).
Proof.
  induction l as [|[k c] l IH]; intros m Hlive.
  - exists m. split_and!; try done.
  - apply Forall_cons in Hlive as [[ctx Hctx] Hlive]. simpl in Hctx.
    simpl. unfold clearContext at 1, deref. simpl. rewrite Hctx. simpl.
    unfold clearedKeys, clearedWorlds. rewrite filter_cons.
    case_bool_decide as Hcl.
    + destruct (IH m Hlive) as (m' & E & Hcs & Hfr & Hfs & Hem & Hn & Hidx & Hws).
      exists m'. rewrite decide_False
        by (unfold ownedBy; simpl; rewrite Hctx; simpl; congruence).
      split_and!; done.
    + set (m1 := set_contextIdToContext _ _).
      assert (context_store m1 = context_store m) as Hcs1
        by (subst m1; by destruct (_world ctx)).
      destruct (IH m1) as (m' & E & Hcs & Hfr & Hfs & Hem & Hn & Hidx & Hws).
      { by rewrite Hcs1. }
      rewrite Hcs1 in Hidx, Hws.
      exists m'. rewrite decide_True
        by (unfold ownedBy; simpl; rewrite Hctx; simpl; congruence).
      split_and!.
      * done.
      * congruence.
      * rewrite Hfr. subst m1. by destruct (_world ctx).
      * rewrite Hfs. subst m1. by destruct (_world ctx).
      * rewrite Hem. subst m1. by destruct (_world ctx).
      * rewrite Hn. subst m1. by destruct (_world ctx).
      * intros j. rewrite Hidx.
        assert (fm_contextIdToContext m1 = delete k (fm_contextIdToContext m)) as ->
          by (subst m1; by destruct (_world ctx)).
        clearbody m1. simpl. rewrite if_elem_of_cons.
        fold (clearedKeys session (context_store m) l).
        destruct (decide (j = k)) as [ -> |Hjk].
        -- rewrite lookup_delete_eq. by case_decide.
        -- by rewrite lookup_delete_ne.
      * intros w. rewrite Hws.
        destruct (_world ctx) as [w0|] eqn:Hw0.
        -- assert (world_store m1 = alter (DOMWorld_setContext None) w0 (world_store m))
             as -> by (by subst m1).
           clearbody m1. simpl. rewrite Hctx. simpl. rewrite Hw0.
           rewrite if_elem_of_cons.
           fold (clearedWorlds session (context_store m) l).
           destruct (decide (w = w0)) as [ -> |Hne].
           ++ rewrite lookup_alter_eq.
              case_decide; [|done].
              rewrite <-option_fmap_compose. done.
           ++ by rewrite lookup_alter_ne.
        -- assert (world_store m1 = world_store m) as -> by (by subst m1).
           clearbody m1. simpl. rewrite Hctx. simpl. by rewrite Hw0.
Qed.

Lemma elem_of_clearedKeys session store l k :
  k ∈ clearedKeys session store l ↔ ∃ c, (k, c) ∈ l ∧ ownedBy session store (k, c).
Proof.
  unfold clearedKeys. rewrite list_elem_of_fmap. split.
  - intros ([k' c] & -> & Hin). apply list_elem_of_filter in Hin as [? ?]. eauto.
  - intros (c & Hin & Ho). exists (k, c). split; [done|].
    by apply list_elem_of_filter.
Qed.

Lemma elem_of_clearedWorlds session store l w :
  w ∈ clearedWorlds session store l
  ↔ ∃ k c ctx, (k, c) ∈ l ∧ store !! c = Some ctx
               ∧ _client ctx = session ∧ _world ctx = Some w.
Proof.
  unfold clearedWorlds. rewrite list_elem_of_omap. split.
  - intros ([k c] & Hin & Hw). apply list_elem_of_filter in Hin as [Ho Hin].
    unfold ownedBy in Ho. simpl in *.
    destruct (store !! c) as [ctx|] eqn:Hc; [|done]. simpl in *.
    exists k, c, ctx. split_and!; congruence.
  - intros (k & c & ctx & Hin & Hc & Hcl & Hw). exists (k, c). split.
    + apply list_elem_of_filter. split; [|done].
      unfold ownedBy. simpl. rewrite Hc. simpl. congruence.
    + simpl. by rewrite Hc.
Qed.

(** C9.  An [executionContextsCleared] event for a session removes from the
    context index exactly the entries whose context has that session as its
    client, and clears the binding of the world each such context is bound
    to.  Every entry whose context belongs to another session stays in the
    index under its key with the context as it was; nothing is added, the
    worlds no removed context is bound to are untouched, and so are the
    frames. *)
Theorem contexts_are_cleared_per_session session m :
  contexts_ok m →
  ∃ m', onExecutionContextsCleared session m = Ok m'
    ∧ context_store m' = context_store m
    ∧ (∀ k c ctx,
         fm_contextIdToContext m !! k = Some c → context_store m !! c = Some ctx →
         _client ctx = session →
         fm_contextIdToContext m' !! k = None
         ∧ ∀ w, _world ctx = Some w →
                world_store m' !! w = DOMWorld_setContext None <$> world_store m !! w)
    ∧ (∀ k c ctx,
         fm_contextIdToContext m !! k = Some c → context_store m !! c = Some ctx →
         _client ctx ≠ session →
         fm_contextIdToContext m' !! k = Some c ∧ context_store m' !! c = Some ctx)
    ∧ (∀ k, fm_contextIdToContext m !! k = None →
            fm_contextIdToContext m' !! k = None)
    ∧ (∀ w, (∀ k c ctx,
               fm_contextIdToContext m !! k = Some c →
               context_store m !! c = Some ctx →
               _client ctx = session → _world ctx ≠ Some w) →
            world_store m' !! w = world_store m !! w)
    ∧ fm_frames m' = fm_frames m ∧ frame_store m' = frame_store m.
Proof.
  intros Hok.
  destruct (clearContext_loop session (map_to_list (fm_contextIdToContext m)) m)
    as (m' & E & Hcs & Hfr & Hfs & _ & _ & Hidx & Hws).
  { apply Forall_forall. intros [k c] Hin. apply elem_of_map_to_list in Hin.
    by apply Hok in Hin. }
  exists m'. split_and!; try done.
  - intros k c ctx Hk Hc Hcl. split.
    + rewrite Hidx, decide_True; [done|].
      apply elem_of_clearedKeys. exists c. split; [by apply elem_of_map_to_list|].
      unfold ownedBy. simpl. by rewrite Hc, <-Hcl.
    + intros w Hw. rewrite Hws, decide_True; [done|].
      apply elem_of_clearedWorlds. exists k, c, ctx.
      split_and!; try done. by apply elem_of_map_to_list.
  - intros k c ctx Hk Hc Hcl. split; [|by rewrite Hcs].
    rewrite Hidx, decide_False; [done|].
    rewrite elem_of_clearedKeys. intros (c' & Hin & Ho).
    apply elem_of_map_to_list in Hin. unfold ownedBy in Ho. simpl in Ho.
    assert (c' = c) as -> by congruence.
    rewrite Hc in Ho. simpl in Ho. congruence.
  - intros k Hk. rewrite Hidx. by case_decide.
  - intros w Hw. rewrite Hws, decide_False; [done|].
    rewrite elem_of_clearedWorlds. intros (k & c & ctx & Hin & Hc & Hcl & Hwc).
    apply elem_of_map_to_list in Hin. by eapply Hw.
Qed.

Lemma contexts_are_cleared_per_session_witness :
  ∃ m', onExecutionContextsCleared S1
          (state_of scenario_two_sessions (FrameManager_new S1)) = Ok m'
    ∧ fm_contextIdToContext m' !! contextKey S1 1 = None
    ∧ world_context <$> world_store m' !! 1 = Some None
    ∧ fm_contextIdToContext m' !! contextKey S2 1 = Some 9.
Proof.
  destruct (contexts_are_cleared_per_session S1
              (state_of scenario_two_sessions (FrameManager_new S1)))
    as (m' & E & _ & Hgone & Hkept & _).
  { apply (bool_decide_unpack _). vm_compute. reflexivity. }
  exists m'. split; [done|].
  destruct (Hgone (contextKey S1 1) 3
              {| _client := S1; _contextPayload := contextFor 1 "" (Some "F1") true;
                 _world := Some 1 |}) as [Hidx Hw]; try (vm_compute; reflexivity).
  destruct (Hkept (contextKey S2 1) 9
              {| _client := S2; _contextPayload := contextFor 1 "" (Some "F2") true;
                 _world := Some 7 |}) as [Hidx2 _]; try (vm_compute; reflexivity).
  { vm_compute. discriminate. }
  split_and!; [done| |done].
  rewrite (Hw 1 eq_refl). vm_compute. reflexivity.
Defined.

(** ** Attaching frames *)

Lemma wf_frame_bound m r f : wf m → frame_store m !! r = Some f → r < next_ref m.
Proof. intros (_ & _ & (Hb & _) & _) Hf. by eapply Hb. Qed.

Lemma wf_indexed_live m k r :
  wf m → fm_frames m !! k = Some r → ∃ f, frame_store m !! r = Some f ∧ _id f = k.
Proof.
  intros (Hi & _) Hr. apply Hi in Hr.
  destruct (frame_store m !! r) as [f|]; [|done]. exists f. naive_solver.
Qed.


(** ** The subtree of a frame *)

Lemma children_ok_child h p fp c :
  children_ok h → h !! p = Some fp → c ∈ _childFrames fp →
  p < c ∧ parentFrame <$> h !! c = Some (Some p).
Proof.
  intros Hok Hp Hc. destruct (Hok _ _ Hp) as [_ Hall].
  rewrite Forall_forall in Hall. by apply Hall.
Qed.

Lemma children_ok_parent_unique h p q fp fq c :
  children_ok h → h !! p = Some fp → h !! q = Some fq →
  c ∈ _childFrames fp → c ∈ _childFrames fq → p = q.
Proof.
  intros Hok Hp Hq Hcp Hcq.
  destruct (children_ok_child _ _ _ _ Hok Hp Hcp) as [_ H1].
  destruct (children_ok_child _ _ _ _ Hok Hq Hcq) as [_ H2]. congruence.
Qed.

Lemma postorder_S n h r f :
  h !! r = Some f → postorder (S n) h r = (_childFrames f ≫= postorder n h) ++ [r].
Proof. intros H. simpl. by rewrite H. Qed.

Lemma postorder_self n h r f : h !! r = Some f → r ∈ postorder (S n) h r.
Proof. intros H. rewrite (postorder_S _ _ _ _ H). set_solver. Qed.

Lemma postorder_child n h r f c x :
  h !! r = Some f → c ∈ _childFrames f → x ∈ postorder n h c →
  x ∈ postorder (S n) h r.
Proof.
  intros H Hc Hx. rewrite (postorder_S _ _ _ _ H), elem_of_app. left.
  apply list_elem_of_bind. eauto.
Qed.

Lemma elem_of_postorder_S n h r x :
  x ∈ postorder (S n) h r →
  ∃ f, h !! r = Some f
       ∧ (x = r ∨ ∃ c, c ∈ _childFrames f ∧ x ∈ postorder n h c).
Proof.
  simpl. destruct (h !! r) as [f|] eqn:Hr; [|by intros ?%elem_of_nil].
  rewrite elem_of_app, list_elem_of_bind, list_elem_of_singleton.
  intros [(c & Hx & Hc)| -> ]; exists f; (split; [done|]); [right; eauto|by left].
Qed.

Lemma postorder_ge n h : ∀ r x,
  children_ok h → x ∈ postorder n h r → r ≤ x.
Proof.
  induction n as [|n IH]; intros r x Hok Hx; [by apply elem_of_nil in Hx|].
  apply elem_of_postorder_S in Hx as (f & Hr & [ -> |(c & Hc & Hx)]); [done|].
  apply IH in Hx; [|done].
  destruct (children_ok_child _ _ _ _ Hok Hr Hc). lia.
Qed.

Lemma postorder_parent n h : ∀ r x,
  x ∈ postorder n h r → x ≠ r →
  ∃ p fp, h !! p = Some fp ∧ x ∈ _childFrames fp ∧ p ∈ postorder n h r.
Proof.
  induction n as [|n IH]; intros r x Hx Hne; [by apply elem_of_nil in Hx|].
  apply elem_of_postorder_S in Hx as (f & Hr & [ -> |(c & Hc & Hx)]); [done|].
  destruct (decide (x = c)) as [ -> |Hxc].
  - exists r, f. split_and!; [done|done|by eapply postorder_self].
  - destruct (IH _ _ Hx Hxc) as (p & fp & Hp & Hxp & Hin).
    exists p, fp. split_and!; [done|done|by eapply postorder_child].
Qed.

Lemma postorder_live n h r x : x ∈ postorder n h r → is_Some (h !! x).
Proof.
  revert r. induction n as [|n IH]; intros r Hx; [by apply elem_of_nil in Hx|].
  apply elem_of_postorder_S in Hx as (f & Hr & [ -> |(c & Hc & Hx)]); eauto.
Qed.

(** The subtrees of two children of a frame have no frame in common. *)
Lemma postorder_disjoint h r f c1 c2 n1 n2 x :
  children_ok h → h !! r = Some f →
  c1 ∈ _childFrames f → c2 ∈ _childFrames f → c1 ≠ c2 →
  x ∈ postorder n1 h c1 → x ∈ postorder n2 h c2 → False.
Proof.
  intros Hok Hr Hc1 Hc2 Hne. induction (lt_wf x) as [x _ IH]. intros H1 H2.
  assert (∀ c c' n, c ∈ _childFrames f → c' ∈ _childFrames f → c ≠ c' →
            c ∈ postorder n h c' → False) as Hroot.
  { intros c c' n Hc Hc' Hcc Hin.
    destruct (postorder_parent _ _ _ _ Hin Hcc) as (p & fp & Hp & Hcp & Hpin).
    assert (p = r) as -> by (by eapply children_ok_parent_unique).
    apply postorder_ge in Hpin; [|done].
    destruct (children_ok_child _ _ _ _ Hok Hr Hc'). lia. }
  destruct (decide (x = c1)) as [ -> |Hx1];
    [exact (Hroot c1 c2 n2 Hc1 Hc2 Hne H2)|].
  destruct (decide (x = c2)) as [ -> |Hx2];
    [exact (Hroot c2 c1 n1 Hc2 Hc1 (λ e, Hne (eq_sym e)) H1)|].
  destruct (postorder_parent _ _ _ _ H1 Hx1) as (p & fp & Hp & Hxp & Hp1).
  destruct (postorder_parent _ _ _ _ H2 Hx2) as (q & fq & Hq & Hxq & Hq2).
  assert (p = q) as <- by (by eapply children_ok_parent_unique).
  destruct (children_ok_child _ _ _ _ Hok Hp Hxp) as [Hlt _].
  by eapply (IH p).
Qed.

(** The subtree only depends on the frames of a set closed under children. *)
Lemma postorder_ext (S : nat → Prop) n h h' : ∀ r,
  S r → (∀ x, S x → h' !! x = h !! x) →
  (∀ x fx c, S x → h !! x = Some fx → c ∈ _childFrames fx → S c) →
  postorder n h' r = postorder n h r.
Proof.
  induction n as [|n IH]; intros r Hr Hag Hcl; [done|].
  simpl. rewrite (Hag _ Hr). destruct (h !! r) as [f|] eqn:Hf; [|done].
  f_equal. assert (Forall S (_childFrames f)) as Hall.
  { apply Forall_forall. intros c Hc. by eapply Hcl. }
  induction Hall as [|c cs Hc _ IHcs]; [done|].
  rewrite !bind_cons. f_equal; [by apply IH|done].
Qed.

(** A live frame with fuel to spare closes its own subtree. *)
Lemma postorder_last n h r f :
  h !! r = Some f → ∃ l, postorder (S n) h r = l ++ [r].
Proof. intros H. rewrite (postorder_S _ _ _ _ H). eauto. Qed.

(** In the subtree every child comes before its parent. *)
Lemma postorder_children_first bound n h : ∀ r p fp c,
  children_ok h → below bound h → bound ≤ r + n →
  p ∈ postorder n h r → h !! p = Some fp → c ∈ _childFrames fp →
  ∃ l1 l2 l3, postorder n h r = l1 ++ c :: l2 ++ p :: l3.
Proof.
  induction n as [|n IH]; intros r p fp c Hok Hb Hn Hp Hfp Hc;
    [by apply elem_of_nil in Hp|].
  apply elem_of_postorder_S in Hp as (f & Hr & Hp).
  rewrite (postorder_S _ _ _ _ Hr).
  destruct (decide (p = r)) as [ -> |Hpr].
  - assert (f = fp) as -> by congruence.
    destruct (children_ok_child _ _ _ _ Hok Hr Hc) as [Hlt Hpar].
    destruct (h !! c) as [fc|] eqn:Hfc; [|done].
    assert (c < bound) by (by eapply Hb).
    destruct n as [|n]; [lia|].
    destruct (postorder_last n h c fc Hfc) as [l Hl].
    apply list_elem_of_split in Hc as (a & b & ->).
    rewrite bind_app, bind_cons, Hl.
    exists ((a ≫= postorder (S n) h) ++ l), (b ≫= postorder (S n) h), [].
    by rewrite <-!app_assoc.
  - destruct Hp as [?|(c' & Hc' & Hp)]; [done|].
    destruct (children_ok_child _ _ _ _ Hok Hr Hc') as [Hlt _].
    destruct (IH c' p fp c) as (l1 & l2 & l3 & Hl); try done; [lia|].
    apply list_elem_of_split in Hc' as (a & b & ->).
    rewrite bind_app, bind_cons, Hl.
    exists ((a ≫= postorder n h) ++ l1), l2, (l3 ++ (b ≫= postorder n h) ++ [r]).
    rewrite <-!app_assoc. simpl. by rewrite <-!app_assoc.
Qed.

(** ** Removal of a subtree *)

Lemma forM_snoc {A S} (body : A → S → Outcome S) l x s :
  forM body (l ++ [x]) s = let* s' := forM body l s in body x s'.
Proof.
  revert s. induction l as [|y l IH]; intros s; simpl.
  - by destruct (body x s).
  - destruct (body y s); simpl; [apply IH|done|done].
Qed.

Lemma set_delete_filter c (d l : list nat) :
  set_delete c (filter (λ y, y ∉ d) l) = filter (λ y, y ∉ d ++ [c]) l.
Proof.
  unfold set_delete. induction l as [|y l IH]; [done|].
  rewrite !filter_cons. destruct (decide (y ∉ d)) as [Hy|Hy].
  - rewrite filter_cons. destruct (decide (y ≠ c)) as [Hyc|Hyc].
    + rewrite decide_True by set_solver. by rewrite IH.
    + rewrite decide_False by set_solver. done.
  - rewrite decide_False by set_solver. done.
Qed.

Lemma filter_not_elem_of_self (l : list nat) : filter (λ y, y ∉ l) l = [].
Proof.
  apply elem_of_nil_inv. intros x Hx. apply list_elem_of_filter in Hx as [? ?]. done.
Qed.

Lemma filter_not_elem_of_nil (l : list nat) : filter (λ y, y ∉ @nil nat) l = l.
Proof.
  induction l as [|y l IH]; [done|].
  rewrite filter_cons, decide_True by set_solver. by rewrite IH.
Qed.

Lemma removedIds_app h l1 l2 :
  removedIds h (l1 ++ l2) = removedIds h l1 ++ removedIds h l2.
Proof. apply omap_app. Qed.

Lemma removedIds_ext h h' l :
  (∀ x, x ∈ l → _id <$> h' !! x = _id <$> h !! x) →
  removedIds h' l = removedIds h l.
Proof.
  intros H. induction l as [|x l IH]; [done|]. simpl.
  rewrite H by set_solver. rewrite IH; [done|]. intros y Hy. apply H. set_solver.
Qed.

Lemma removedStore_Some L r h x fx' :
  removedStore L r h x = Some fx' →
  ∃ fx, h !! x = Some fx
        ∧ ((x ∈ L ∧ fx' = Frame_removed fx)
           ∨ ((x ∉ L) ∧ parentOf h r = Some x
              ∧ fx' = Frame_without_child r fx)
           ∨ ((x ∉ L) ∧ parentOf h r ≠ Some x ∧ fx' = fx)).
Proof.
  unfold removedStore. repeat case_decide; destruct (h !! x) as [fx|]; try done;
    simpl; intros [= <-]; exists fx; naive_solver.
Qed.

Lemma removedStore_outside L r h x :
  x ∉ L → parentFrame <$> removedStore L r h x = parentFrame <$> h !! x.
Proof.
  intros Hx. unfold removedStore. rewrite decide_False by done.
  case_decide; [|done]. by destruct (h !! x).
Qed.

(** Removing a subtree leaves a forest. *)
Lemma removedStore_tree h h' r n :
  children_ok h → parents_ok h →
  (∀ x, h' !! x = removedStore (postorder n h r) r h x) →
  children_ok h' ∧ parents_ok h' ∧ (∀ b, below b h → below b h').
Proof.
  intros Hch Hpa Hh'. set (L := postorder n h r) in *.
  assert (∀ x fx c, h !! x = Some fx → x ∉ L → c ∈ _childFrames fx → c ≠ r →
            c ∉ L) as Hout.
  { intros x fx c Hx HxL Hc Hcr HcL.
    destruct (postorder_parent _ _ _ _ HcL Hcr) as (q & fq & Hq & Hcq & HqL).
    assert (q = x) as -> by (by eapply children_ok_parent_unique). done. }
  assert (∀ x fx c, h !! x = Some fx → x ∉ L → c ∈ _childFrames fx → c ≠ r →
            x < c ∧ parentFrame <$> h' !! c = Some (Some x)) as Hkeep.
  { intros x fx c Hx HxL Hc Hcr.
    destruct (children_ok_child _ _ _ _ Hch Hx Hc) as [Hlt Hpar].
    split; [done|]. rewrite Hh', removedStore_outside; [done|by eapply Hout]. }
  split_and!.
  - intros x fx' Hx'. rewrite Hh' in Hx'.
    apply removedStore_Some in Hx'
      as (fx & Hx & [[HxL ->]|[(HxL & Hp & ->)|(HxL & Hp & ->)]]); simpl.
    + split; [apply NoDup_nil_2|apply Forall_nil_2].
    + destruct (Hch _ _ Hx) as [Hnd _]. split; [by apply NoDup_filter|].
      apply Forall_forall. intros c Hc.
      apply list_elem_of_filter in Hc as [Hcr Hc]. by eapply Hkeep.
    + destruct (Hch _ _ Hx) as [Hnd _]. split; [done|].
      apply Forall_forall. intros c Hc. eapply Hkeep; try done.
      intros ->. destruct (children_ok_child _ _ _ _ Hch Hx Hc) as [_ Hpar].
      apply Hp. unfold parentOf.
      destruct (h !! r) as [fr|]; simpl in *; [congruence|done].
  - intros x fx' Hx'. rewrite Hh' in Hx'.
    apply removedStore_Some in Hx'
      as (fx & Hx & [[HxL ->]|[(HxL & Hp & ->)|(HxL & Hp & ->)]]); simpl;
      [done|by apply (Hpa _ _ Hx)..].
  - intros b Hb x fx' Hx'. rewrite Hh' in Hx'.
    apply removedStore_Some in Hx' as (fx & Hx & _). by eapply Hb.
Qed.

Lemma same_rest_refl m : same_rest m m.
Proof. by repeat split. Qed.

Lemma same_rest_trans m1 m2 m3 : same_rest m1 m2 → same_rest m2 m3 → same_rest m1 m3.
Proof.
  unfold same_rest. intros (?&?&?&?&?&?&?) (?&?&?&?&?&?&?). split_and!; congruence.
Qed.

Lemma Frame_set_childFrames_id f : Frame_set_childFrames (_childFrames f) f = f.
Proof. by destruct f. Qed.

Lemma Frame_detach_Ok r m f :
  frame_store m !! r = Some f →
  ∃ m', Frame_detach r m = Ok m'
    ∧ fm_frames m' = fm_frames m ∧ emitted m' = emitted m ∧ same_rest m m'
    ∧ frame_store m'
      = alter (Frame_set_parentFrame None) r
          (match parentFrame f with
           | Some p => alter (Frame_without_child r) p
                         (alter (Frame_set_detached true) r (frame_store m))
           | None => alter (Frame_set_detached true) r (frame_store m)
           end).
Proof.
  intros Hf. unfold Frame_detach, deref. rewrite Hf. simpl.
  eexists. split; [done|].
  destruct (parentFrame f); simpl; repeat split; try done;
    simpl; by rewrite !dom_alter_L.
Qed.

(** The loop over the children, given the recursive calls behave. *)
Lemma remove_children_spec fuel r f m :
  (∀ c mc fc,
     children_ok (frame_store mc) → parents_ok (frame_store mc) →
     below (next_ref mc) (frame_store mc) →
     frame_store mc !! c = Some fc → next_ref mc ≤ c + fuel →
     ∃ m', removeFramesRecursively fuel c mc = Ok m'
           ∧ removal mc m' (postorder fuel (frame_store mc) c) c) →
  children_ok (frame_store m) → parents_ok (frame_store m) →
  below (next_ref m) (frame_store m) →
  frame_store m !! r = Some f → next_ref m ≤ r + S fuel →
  ∀ done rest, _childFrames f = done ++ rest →
  ∃ m', forM (removeFramesRecursively fuel) done m = Ok m'
        ∧ childrenRemoval fuel m m' done r
        ∧ children_ok (frame_store m') ∧ parents_ok (frame_store m')
        ∧ below (next_ref m') (frame_store m').
Proof.
  intros IH Hch Hpa Hb Hr Hfuel.
  set (h := frame_store m) in *.
  induction done as [|c done IHdone] using rev_ind; intros rest Hsplit.
  - exists m. split; [done|]. split; [|done].
    unfold childrenRemoval. change ([] ≫= postorder fuel (frame_store m)) with (@nil nat).
    split_and!.
    + by rewrite app_nil_r.
    + intros x. unfold childrenRemovedStore.
      destruct (decide (x ∈ [])) as [Hx|_]; [by apply elem_of_nil in Hx|].
      case_decide as Hx; [|done]. subst x. fold h. rewrite Hr. simpl.
      by rewrite filter_not_elem_of_nil, Frame_set_childFrames_id.
    + intros k. change (removedIds (frame_store m) []) with (@nil string).
      destruct (decide (k ∈ [])) as [Hx|_]; [by apply elem_of_nil in Hx|done].
    + apply same_rest_refl.
  - rewrite <-app_assoc in Hsplit. simpl in Hsplit.
    destruct (IHdone _ Hsplit) as (md & Ed & (Hem & Hst & Hidx & Hrest) & Hch' & Hpa' & Hb').
    fold h in Hst, Hidx.
    set (Ld := done ≫= postorder fuel h) in *.
    assert (c ∈ _childFrames f) as Hc by (rewrite Hsplit; set_solver).
    destruct (children_ok_child _ _ _ _ Hch Hr Hc) as [Hrc Hcpar].
    destruct (h !! c) as [fc|] eqn:Hfc; [|done].
    assert (NoDup (_childFrames f)) as Hnd by (by destruct (Hch _ _ Hr)).
    assert (c ∉ done) as Hcd.
    { rewrite Hsplit in Hnd. apply NoDup_app in Hnd as (_ & Hnd & _).
      intros Hin. apply (Hnd _ Hin). set_solver. }
    (* frames at or below [c] are as they were *)
    assert (∀ x n, x ∈ postorder n h c → x ∉ Ld ∧ x ≠ r) as Hfresh.
    { intros x n Hx. split.
      - unfold Ld. rewrite list_elem_of_bind. intros (d & Hxd & Hd).
        eapply (postorder_disjoint h r f c d); try done.
        + rewrite Hsplit. set_solver.
        + intros ->. done.
      - apply postorder_ge in Hx; [lia|done]. }
    assert (∀ x, x ∉ Ld → x ≠ r → frame_store md !! x = h !! x) as Hsame.
    { intros x H1 H2. rewrite Hst. unfold childrenRemovedStore.
      by rewrite !decide_False. }
    assert (postorder fuel (frame_store md) c = postorder fuel h c) as Hpost.
    { apply (postorder_ext (λ x, c ≤ x ∧ x ∉ Ld)).
      - split; [done|]. destruct fuel as [|fuel'].
        + assert (c < next_ref m) by (by eapply Hb). lia.
        + by apply (Hfresh c (S fuel')), (postorder_self _ _ _ fc).
      - intros x [Hcx Hx]. apply Hsame; [done|lia].
      - intros x fx c' [Hcx Hx] Hfx Hc'.
        destruct (children_ok_child _ _ _ _ Hch Hfx Hc') as [Hlt _].
        split; [lia|]. unfold Ld. rewrite list_elem_of_bind.
        intros (d & Hc'd & Hd).
        assert (d ∈ _childFrames f) as Hdf by (rewrite Hsplit; set_solver).
        destruct (decide (c' = d)) as [ -> |Hne].
        + assert (x = r) as ->
            by exact (children_ok_parent_unique h x r fx f d Hch Hfx Hr Hc' Hdf).
          lia.
        + destruct (postorder_parent _ _ _ _ Hc'd Hne) as (q & fq & Hq & Hcq & Hqd).
          assert (q = x) as ->
            by exact (children_ok_parent_unique h q x fq fx c' Hch Hq Hfx Hcq Hc').
          apply Hx. unfold Ld. rewrite list_elem_of_bind. eauto. }
    assert (frame_store md !! c = Some fc) as Hfc'.
    { rewrite Hsame; [done| |lia].
      destruct fuel as [|fuel'].
      - assert (c < next_ref m) by (by eapply Hb). lia.
      - by apply (Hfresh c (S fuel')), (postorder_self _ _ _ fc). }
    assert (next_ref md = next_ref m) as Hnext
      by (by destruct Hrest as (_ & _ & _ & _ & _ & ? & _)).
    destruct (IH c md fc) as (m' & E & Hem' & Hst' & Hidx' & Hrest');
      try done; [lia|].
    rewrite Hpost in Hem', Hst', Hidx'.
    set (Lc := postorder fuel h c) in *.
    exists m'. split; [by rewrite forM_snoc, Ed|].
    destruct (removedStore_tree (frame_store md) (frame_store m') c fuel)
      as (Hch'' & Hpa'' & Hb''); try done.
    { intros x. by rewrite Hpost. }
    split; [|split_and!; try done;
             replace (next_ref m') with (next_ref md)
               by (by destruct Hrest' as (_ & _ & _ & _ & _ & ? & _));
             by apply Hb''].
    unfold childrenRemoval. fold h. rewrite bind_app, bind_singleton.
    fold Ld Lc. split_and!.
    + by rewrite Hem', Hem, fmap_app, app_assoc.
    + intros x. rewrite Hst'. unfold removedStore, childrenRemovedStore.
      assert (parentOf (frame_store md) c = Some r) as Hparc.
      { unfold parentOf. rewrite Hfc'. simpl in *. congruence. }
      rewrite Hparc.
      destruct (decide (x ∈ Lc)) as [HxL|HxL].
      * destruct (Hfresh _ _ HxL) as [H1 H2].
        rewrite decide_True by set_solver. by rewrite Hsame.
      * destruct (decide (Some r = Some x)) as [[= <-]|Hxr].
        -- assert (r ∉ Ld) as HrL.
           { unfold Ld. rewrite list_elem_of_bind. intros (d & Hrd & Hd).
             apply postorder_ge in Hrd; [|done].
             assert (d ∈ _childFrames f) as Hdf by (rewrite Hsplit; set_solver).
             destruct (children_ok_child _ _ _ _ Hch Hr Hdf). lia. }
           rewrite decide_False by set_solver. rewrite decide_True by done.
           rewrite Hst. unfold childrenRemovedStore.
           rewrite decide_False, decide_True by done.
           rewrite Hr. simpl. unfold Frame_without_child. simpl.
           by rewrite set_delete_filter.
        -- rewrite Hst. unfold childrenRemovedStore.
           destruct (decide (x ∈ Ld)) as [HxLd|HxLd].
           ++ by rewrite decide_True by set_solver.
           ++ rewrite (decide_False (P := x = r)) by congruence.
              rewrite (decide_False (P := x ∈ Ld ++ Lc))
                by (rewrite elem_of_app; tauto).
              by rewrite (decide_False (P := x = r)) by congruence.
    + intros k. rewrite Hidx', Hidx, removedIds_app.
      rewrite (removedIds_ext h (frame_store md) Lc).
      * repeat case_decide; set_solver.
      * intros x Hx. destruct (Hfresh _ _ Hx). by rewrite Hsame.
    + by eapply same_rest_trans.
Qed.

Lemma children_subtrees_above h r f fuel x :
  children_ok h → h !! r = Some f →
  x ∈ _childFrames f ≫= postorder fuel h → r < x.
Proof.
  intros Hch Hr. rewrite list_elem_of_bind. intros (c & Hx & Hc).
  apply postorder_ge in Hx; [|done].
  destruct (children_ok_child _ _ _ _ Hch Hr Hc). lia.
Qed.

(** [#removeFramesRecursively] on a live frame of a well-formed store, with
    fuel for the frames allocated after it, returns, and has removed the
    subtree of the frame in post-order. *)
Lemma removeFramesRecursively_spec fuel : ∀ r m f,
  children_ok (frame_store m) → parents_ok (frame_store m) →
  below (next_ref m) (frame_store m) →
  frame_store m !! r = Some f → next_ref m ≤ r + fuel →
  ∃ m', removeFramesRecursively fuel r m = Ok m'
        ∧ removal m m' (postorder fuel (frame_store m) r) r.
Proof.
  induction fuel as [|fuel IH]; intros r m f Hch Hpa Hb Hr Hfuel.
  { assert (r < next_ref m) by (by eapply Hb). lia. }
  destruct (remove_children_spec fuel r f m IH Hch Hpa Hb Hr Hfuel
              (_childFrames f) [] (eq_sym (app_nil_r _)))
    as (mk & Ek & (Hem & Hst & Hidx & Hrest) & Hch' & Hpa' & Hb').
  set (h := frame_store m) in *.
  set (Lc := _childFrames f ≫= postorder fuel h) in *.
  assert (∀ x, x ∈ Lc → r < x) as Habove
    by (intros x; by apply (children_subtrees_above h r f fuel)).
  assert (frame_store mk !! r = Some (Frame_set_childFrames [] f)) as Hrk.
  { rewrite Hst. unfold childrenRemovedStore.
    rewrite decide_False by (intros ?%Habove; lia).
    rewrite decide_True by done. rewrite Hr. simpl.
    by rewrite filter_not_elem_of_self. }
  destruct (Frame_detach_Ok r mk _ Hrk) as (m2 & E2 & Hfr2 & Hem2 & Hrest2 & Hst2).
  simpl in Hst2.
  assert (∀ p, parentFrame f = Some p → p < r) as Hpr.
  { intros p Hp. specialize (Hpa _ _ Hr). simpl in Hpa. by rewrite Hp in Hpa. }
  assert (∀ x, frame_store m2 !! x = removedStore (Lc ++ [r]) r h x) as Hfinal.
  { intros x. rewrite Hst2. unfold removedStore, parentOf. rewrite Hr. simpl.
    destruct (decide (x = r)) as [ -> |Hxr].
    - rewrite lookup_alter_eq, decide_True by set_solver.
      destruct (parentFrame f) as [p|] eqn:Hp.
      + rewrite lookup_alter_ne by (specialize (Hpr _ eq_refl); lia).
        by rewrite lookup_alter_eq, Hrk, Hr.
      + by rewrite lookup_alter_eq, Hrk, Hr.
    - rewrite lookup_alter_ne by done.
      assert (frame_store mk !! x
              = if decide (x ∈ Lc) then Frame_removed <$> h !! x else h !! x) as Hx.
      { rewrite Hst. unfold childrenRemovedStore.
        case_decide; [done|]. by rewrite decide_False. }
      destruct (parentFrame f) as [p|] eqn:Hp.
      + specialize (Hpr _ eq_refl). destruct (decide (x = p)) as [ -> |Hxp].
        * rewrite lookup_alter_eq, lookup_alter_ne by lia. rewrite Hx.
          rewrite decide_False by (intros ?%Habove; lia).
          rewrite decide_False
            by (rewrite elem_of_app, list_elem_of_singleton;
                intros [?%Habove|?]; lia).
          by rewrite decide_True.
        * rewrite !lookup_alter_ne by done. rewrite Hx.
          destruct (decide (x ∈ Lc)) as [HxL|HxL].
          -- by rewrite decide_True by set_solver.
          -- rewrite decide_False
               by (rewrite elem_of_app, list_elem_of_singleton; tauto).
             by rewrite decide_False by congruence.
      + rewrite lookup_alter_ne by done. rewrite Hx.
        destruct (decide (x ∈ Lc)) as [HxL|HxL].
        * by rewrite decide_True by set_solver.
        * rewrite decide_False
            by (rewrite elem_of_app, list_elem_of_singleton; tauto).
          by rewrite decide_False. }
  exists (emit (FrameDetached r)
            (set_frames (delete (_id f) (fm_frames m2)) m2)).
  split.
  - change (removeFramesRecursively (S fuel) r m) with
      (let* f := deref (frame_store m) r in
       let* m1 := forM (removeFramesRecursively fuel) (_childFrames f) m in
       let* m2 := Frame_detach r m1 in
       let* f2 := deref (frame_store m2) r in
       Ok (emit (FrameDetached r) (set_frames (delete (_id f2) (fm_frames m2)) m2))).
    unfold deref at 1. fold h. rewrite Hr. simpl. rewrite Ek. simpl.
    rewrite E2. simpl. unfold deref. rewrite Hfinal. unfold removedStore.
    rewrite decide_True by set_solver. by rewrite Hr.
  - fold h. rewrite (postorder_S _ _ _ _ Hr). fold Lc.
    unfold removal. split_and!.
    + simpl. by rewrite Hem2, Hem, fmap_app, app_assoc.
    + done.
    + intros k. simpl. rewrite removedIds_app. simpl. fold h. rewrite Hr. simpl.
      rewrite Hfr2. destruct (decide (k = _id f)) as [ -> |Hk].
      * rewrite lookup_delete_eq. by rewrite decide_True by set_solver.
      * rewrite lookup_delete_ne by done. rewrite Hidx.
        destruct (decide (k ∈ removedIds h Lc)) as [HkL|HkL].
        -- by rewrite decide_True by set_solver.
        -- by rewrite decide_False
             by (rewrite elem_of_app, list_elem_of_singleton; tauto).
    + apply (same_rest_trans _ mk); [done|].
      apply (same_rest_trans _ m2); [done|]. by repeat split.
Qed.

Lemma removedIds_elem_of h L k :
  k ∈ removedIds h L ↔ ∃ x, x ∈ L ∧ _id <$> h !! x = Some k.
Proof. unfold removedIds. apply list_elem_of_omap. Qed.

Lemma subtree_removed_from_index m m' L r x :
  index_ok m → removal m m' L r → x ∈ L → ∀ k, fm_frames m' !! k ≠ Some x.
Proof.
  intros Hi (_ & _ & Hidx & _) Hx k. rewrite Hidx.
  case_decide as Hk; [done|]. intros Hkx. apply Hk, removedIds_elem_of.
  exists x. split; [done|]. by apply Hi in Hkx.
Qed.

Lemma subtree_detached m m' L n r x :
  L = postorder n (frame_store m) r → removal m m' L r → x ∈ L →
  detached <$> frame_store m' !! x = Some true.
Proof.
  intros -> (_ & Hst & _) Hx. rewrite Hst. unfold removedStore.
  rewrite decide_True by done.
  destruct (postorder_live _ _ _ _ Hx) as [fx ->]. done.
Qed.

(** C2.  A [frameDetached] event with reason [remove] for a tracked frame
    removes the whole subtree of that frame: the handler returns, having
    emitted one [FrameDetached] event per frame of the subtree in post-order
    (the children of a frame, each after its own subtree, before the frame);
    every frame of the subtree is marked detached and no key of the index
    maps to it any more, and the index gains nothing.  With reason [swap] the
    handler emits [FrameSwapped] and leaves the index as it is. *)
Theorem frame_detached_removes_subtree :
  (∀ frameId m r,
     wf m → fm_frames m !! frameId = Some r →
     ∃ m', onFrameDetached frameId "remove" m = Ok m'
       ∧ emitted m' = emitted m ++ (FrameDetached <$> subtree m r)
       ∧ r ∈ subtree m r
       ∧ (∀ p fp c,
            p ∈ subtree m r → frame_store m !! p = Some fp → c ∈ _childFrames fp →
            ∃ l1 l2 l3, subtree m r = l1 ++ c :: l2 ++ p :: l3)
       ∧ (∀ x, x ∈ subtree m r →
            (∀ k, fm_frames m' !! k ≠ Some x)
            ∧ detached <$> frame_store m' !! x = Some true)
       ∧ (∀ k x, fm_frames m' !! k = Some x → fm_frames m !! k = Some x)
       ∧ (∀ k x, fm_frames m !! k = Some x →
            k ∉ removedIds (frame_store m) (subtree m r) →
            fm_frames m' !! k = Some x))
  ∧ (∀ frameId m,
       ∃ m', onFrameDetached frameId "swap" m = Ok m'
         ∧ emitted m' = emitted m ++ [FrameSwapped (fm_frames m !! frameId)]
         ∧ fm_frames m' = fm_frames m ∧ frame_store m' = frame_store m).
Proof.
  split.
  - intros frameId m r Hwf Hr.
    destruct (wf_indexed_live _ _ _ Hwf Hr) as (f & Hf & _).
    destruct Hwf as (Hi & Hch & (Hb & _) & _ & _ & _ & Hpa).
    destruct (removeFramesRecursively_spec (next_ref m) r m f) as (m' & E & Hrem);
      try done; [lia|].
    fold (subtree m r) in Hrem. exists m'. split_and!.
    + unfold onFrameDetached. rewrite Hr. by rewrite decide_True.
    + apply Hrem.
    + assert (r < next_ref m) as Hlt by (by eapply Hb).
      unfold subtree. destruct (next_ref m) as [|n]; [lia|].
      by eapply postorder_self.
    + intros p fp c Hp Hfp Hc.
      eapply (postorder_children_first (next_ref m)); try done. lia.
    + intros x Hx. split.
      * by eapply subtree_removed_from_index.
      * by eapply subtree_detached.
    + intros k x. destruct Hrem as (_ & _ & Hidx & _). rewrite Hidx.
      by case_decide.
    + intros k x Hk Hid. destruct Hrem as (_ & _ & Hidx & _). rewrite Hidx.
      by rewrite decide_False.
  - intros frameId m. exists (emit (FrameSwapped (fm_frames m !! frameId)) m).
    split; [|done]. unfold onFrameDetached.
    rewrite decide_False by done. by rewrite decide_True.
Qed.

Lemma frame_detached_removes_subtree_witness :
  ∃ m', onFrameDetached "F2" "remove"
          (state_of scenario_tree (FrameManager_new S1)) = Ok m'
    ∧ emitted m'
      = emitted (state_of scenario_tree (FrameManager_new S1))
        ++ [FrameDetached 6; FrameDetached 3]
    ∧ fm_frames m' !! "F3" = None ∧ fm_frames m' !! "F2" = None
    ∧ fm_frames m' !! "F4" = Some 9.
Proof.
  destruct frame_detached_removes_subtree as [Hremove _].
  destruct (Hremove "F2" (state_of scenario_tree (FrameManager_new S1)) 3)
    as (m' & E & Hem & _ & _ & Hgone & _ & Hkept).
  { apply (bool_decide_unpack _). vm_compute. reflexivity. }
  { vm_compute. reflexivity. }
  exists m'. split; [done|]. split; [rewrite Hem; vm_compute; reflexivity|].
  clear Hem Hgone Hkept. vm_compute in E. injection E as <-.
  vm_compute. done.
Defined.


(** ** Navigation of the main frame *)

Lemma remove_all_children m r f :
  children_ok (frame_store m) → parents_ok (frame_store m) →
  below (next_ref m) (frame_store m) → frame_store m !! r = Some f →
  ∃ mk, forM (removeFramesRecursively (next_ref m)) (_childFrames f) m = Ok mk
    ∧ childrenRemoval (next_ref m) m mk (_childFrames f) r
    ∧ frame_store mk !! r = Some (Frame_set_childFrames [] f).
Proof.
  intros Hch Hpa Hb Hr.
  destruct (remove_children_spec (next_ref m) r f m) with
    (done := _childFrames f) (rest := @nil nat)
    as (mk & Ek & Hrem & _); try done.
  - intros c mc fc ? ? ? ? ?. by eapply removeFramesRecursively_spec.
  - lia.
  - by rewrite app_nil_r.
  - exists mk. split_and!; [done|done|].
    destruct Hrem as (_ & Hst & _). rewrite Hst. unfold childrenRemovedStore.
    rewrite decide_False.
    + rewrite decide_True by done. rewrite Hr. simpl.
      by rewrite filter_not_elem_of_self.
    + intros Hin. eapply children_subtrees_above in Hin; [|done..]. lia.
Qed.

(** C1.  A [frameNavigated] event without a parent id that arrives while a
    main frame exists keeps the main frame object: [mainFrame()] returns the
    same reference before and after.  The handler returns; the object has
    lost its children, carries the id of the payload and the name and url
    of the navigation, and is otherwise as it was; the index maps the new id
    to it and no other key does, the old id in particular being gone when it
    differs from the new one. *)
Theorem main_frame_survives_navigation payload m r f :
  wf m → truthy (payload_parentId payload) = None →
  fm_mainFrame m = Some r → frame_store m !! r = Some f →
  ∃ m', onFrameNavigated payload m = Ok m'
    ∧ mainFrame m = Ok r ∧ mainFrame m' = Ok r
    ∧ frame_store m' !! r
      = Some (Frame_navigated payload
                (Frame_set_id (payload_id payload) (Frame_set_childFrames [] f)))
    ∧ _id <$> frame_store m' !! r = Some (payload_id payload)
    ∧ fm_frames m' !! payload_id payload = Some r
    ∧ (∀ k, fm_frames m' !! k = Some r → k = payload_id payload)
    ∧ (_id f ≠ payload_id payload → fm_frames m' !! _id f = None)
    ∧ emitted m'
      = emitted m
        ++ (FrameDetached <$> (_childFrames f ≫= subtree m))
        ++ [FrameNavigated r].
Proof.
  intros Hwf Hmain Hmf Hr.
  destruct Hwf as (Hi & Hch & (Hb & _) & _ & _ & _ & Hpa).
  destruct (remove_all_children m r f) as (mk & Ek & (Hem & Hst & Hidx & Hrest) & Hrk);
    try done.
  set (pid := payload_id payload).
  set (m' := emit (FrameNavigated r)
               (update_frame r (Frame_navigated payload)
                  (set_mainFrame (Some r)
                     (set_frames (<[pid := r]> (delete (_id f) (fm_frames mk)))
                        (update_frame r (Frame_set_id pid) mk))))).
  assert (onFrameNavigated payload m = Ok m') as E.
  { unfold onFrameNavigated. rewrite Hmain, bool_decide_eq_true_2 by done.
    rewrite Hmf. simpl. unfold deref at 1. rewrite Hr. simpl. rewrite Ek. simpl.
    unfold deref. rewrite Hrk. done. }
  exists m'. split_and!.
  - done.
  - unfold mainFrame. by rewrite Hmf.
  - done.
  - subst m'. simpl. by rewrite !lookup_alter_eq, Hrk.
  - subst m'. simpl. by rewrite !lookup_alter_eq, Hrk.
  - subst m'. simpl. apply lookup_insert_eq.
  - intros k Hk. subst m'. simpl in Hk.
    destruct (decide (k = pid)) as [|Hne]; [done|]. exfalso.
    rewrite lookup_insert_ne in Hk by done.
    destruct (decide (k = _id f)) as [ -> |Hne'].
    + by rewrite lookup_delete_eq in Hk.
    + rewrite lookup_delete_ne, Hidx in Hk by done.
      case_decide; [done|]. apply Hi in Hk. rewrite Hr in Hk. simpl in Hk.
      congruence.
  - intros Hne. subst m'. simpl.
    rewrite lookup_insert_ne by done. apply lookup_delete_eq.
  - subst m'. simpl. by rewrite Hem, <-app_assoc.
Qed.

Lemma main_frame_survives_navigation_witness :
  ∃ m', onFrameNavigated crossProcessPayload
          (state_of scenario_tree (FrameManager_new S1)) = Ok m'
    ∧ mainFrame (state_of scenario_tree (FrameManager_new S1)) = Ok 0
    ∧ mainFrame m' = Ok 0
    ∧ _id <$> frame_store m' !! 0 = Some "G1"
    ∧ fm_frames m' !! "G1" = Some 0
    ∧ fm_frames m' !! "F1" = None.
Proof.
  destruct (main_frame_survives_navigation crossProcessPayload
              (state_of scenario_tree (FrameManager_new S1)) 0 scenario_tree_main)
    as (m' & E & Hbefore & Hafter & _ & Hid & Hnew & _ & Hold & _).
  { apply (bool_decide_unpack _). vm_compute. reflexivity. }
  { reflexivity. }
  { vm_compute. reflexivity. }
  { vm_compute. reflexivity. }
  exists m'.
  split; [exact E|]. split; [exact Hbefore|]. split; [exact Hafter|].
  split; [exact Hid|]. split; [exact Hnew|].
  apply Hold. vm_compute. discriminate.
Defined.

(** ** Initialization *)

Lemma initialize_catch t client m :
  initialize t client m
  = match initialize_body t client m with
    | (Throw error, m') => (initialize_result error, m')
    | r => r
    end.
Proof.
  unfold initialize, try_catch, initialize_result.
  destruct (initialize_body t client m) as [[[]|error|] m']; try done.
  destruct error as [message|v]; simpl; [|done].
  by destruct (includes "Target closed" message || includes "Session closed" message).
Qed.




Lemma promise_all_head_ok {A} (p : Eff A) ps m a m1 :
  p m = (Ok a, m1) →
  promise_all (p :: ps) m
  = match promise_all ps m1 with
    | (Ok l, m2) => (Ok (a :: l), m2)
    | r => r
    end.
Proof. intros Hp. simpl. by rewrite Hp. Qed.

Lemma eff_bind_ok {A B} (c : Eff A) (k : A → Eff B) m a m1 :
  c m = (Ok a, m1) → eff_bind c k m = k a m1.
Proof. intros Hc. unfold eff_bind. by rewrite Hc. Qed.

Lemma initialize_body_first_ok t client m tree m1 :
  Page_enable t client = Fulfilled tt →
  Page_getFrameTree t client = Fulfilled tree →
  (client ≠ fm_client m → Target_setAutoAttach t client = Fulfilled tt) →
  handleFrameTree client tree m = (Ok tt, m1) →
  initialize_body t client m
  = eff_bind (promise_all
                (initialize_second t client (bool_decide (client = fm_client m))))
      (λ _, eff_ret tt) m1.
Proof.
  intros H1 H2 H3 Htree. unfold initialize_body. cbv beta zeta.
  assert (promise_all
            (initialize_first t client (bool_decide (client = fm_client m))) m
          = (Ok [None; Some tree; None], m)) as Hfirst.
  { unfold initialize_first. erewrite promise_all_head_ok; [|unfold eff_bind, await; by rewrite H1].
    erewrite promise_all_head_ok; [|unfold eff_bind, await; by rewrite H2].
    erewrite promise_all_head_ok; [done|].
    case_bool_decide as Hc; [done|]. unfold eff_bind, await. by rewrite H3. }
  rewrite (eff_bind_ok _ _ _ _ _ Hfirst). simpl.
  by rewrite (eff_bind_ok _ _ _ _ _ Htree).
Qed.



(** ** Navigation *)





(** * Well-formedness is invariant

    Every state the manager can reach is well formed, so the properties
    above that ask for a well-formed state hold of the running manager. *)

Lemma frames_related_alter R g r h :
  (∀ f, R f f) → (∀ f, R f (g f)) → frames_related R h (alter g r h).
Proof.
  intros Hrefl Hg x. destruct (decide (x = r)) as [ -> |Hne].
  - rewrite lookup_alter_eq. destruct (h !! r); constructor. apply Hg.
  - rewrite lookup_alter_ne by done. destruct (h !! x); constructor. apply Hrefl.
Qed.

Lemma frames_related_Some R h h' x f' :
  frames_related R h h' → h' !! x = Some f' → ∃ f, h !! x = Some f ∧ R f f'.
Proof.
  intros Hrel Hx. specialize (Hrel x). rewrite Hx in Hrel.
  inversion Hrel as [f ? HR Heq|]. eauto.
Qed.

Lemma frames_related_fmap {A} R (proj : Frame → A) h h' x :
  frames_related R h h' → (∀ f f', R f f' → proj f' = proj f) →
  proj <$> h' !! x = proj <$> h !! x.
Proof.
  intros Hrel Hproj. specialize (Hrel x).
  inversion Hrel as [f f' HR|]; simpl; [|done]. f_equal. by apply Hproj.
Qed.

Lemma children_ok_related h h' :
  frames_related same_links h h' → children_ok h → children_ok h'.
Proof.
  intros Hrel Hok p fp' Hp'.
  destruct (frames_related_Some _ _ _ _ _ Hrel Hp') as (fp & Hp & Hpar & Hch).
  destruct (Hok _ _ Hp) as [Hnd Hall]. rewrite Hch. split; [done|].
  eapply Forall_impl; [exact Hall|]. intros c [Hlt Hc]. split; [done|].
  rewrite <-Hc. apply (frames_related_fmap same_links); [done|]. by intros ? ? [? ?].
Qed.

Lemma parents_ok_related h h' :
  frames_related same_links h h' → parents_ok h → parents_ok h'.
Proof.
  intros Hrel Hok x fx' Hx'.
  destruct (frames_related_Some _ _ _ _ _ Hrel Hx') as (fx & Hx & Hpar & _).
  rewrite Hpar. by apply (Hok _ _ Hx).
Qed.

Lemma below_related R n h h' : frames_related R h h' → below n h → below n h'.
Proof.
  intros Hrel Hb x fx' Hx'.
  destruct (frames_related_Some _ _ _ _ _ Hrel Hx') as (fx & Hx & _). by eapply Hb.
Qed.

Lemma below_mono {A} n n' (h : gmap nat A) : n ≤ n' → below n h → below n' h.
Proof. intros Hle Hb x a Hx. specialize (Hb _ _ Hx). simpl in Hb. lia. Qed.

Lemma below_insert {A} n (h : gmap nat A) x a :
  x < n → below n h → below n (<[x := a]> h).
Proof. intros Hx Hb. by apply map_Forall_insert_2. Qed.

Lemma live_related R h h' x : frames_related R h h' → is_Some (h !! x) → is_Some (h' !! x).
Proof. intros Hrel [f Hf]. specialize (Hrel x). rewrite Hf in Hrel. inversion Hrel. eauto. Qed.

(** A change to a frame that keeps its links, id and worlds. *)
Lemma wf_update_frame r g m :
  (∀ f, same_links f (g f) ∧ same_id f (g f) ∧ same_worlds f (g f)) →
  wf m → wf (update_frame r g m).
Proof.
  intros Hg (Hi & Hch & (Hb1 & Hb2 & Hb3) & Hw & Hc & Hm & Hpa).
  assert (frames_related same_links (frame_store m) (alter g r (frame_store m))) as Hl
    by (apply frames_related_alter; [done|apply Hg]).
  assert (frames_related same_id (frame_store m) (alter g r (frame_store m))) as Hid
    by (apply frames_related_alter; [done|apply Hg]).
  assert (frames_related same_worlds (frame_store m) (alter g r (frame_store m))) as Hws
    by (apply frames_related_alter; [done|apply Hg]).
  split_and!; simpl.
  - intros k x Hk. simpl. rewrite <-(Hi _ _ Hk).
    by apply (frames_related_fmap same_id).
  - by eapply children_ok_related.
  - split_and!; simpl; [by eapply below_related|done|done].
  - intros x fx' Hx'. simpl in *.
    destruct (frames_related_Some _ _ _ _ _ Hws Hx') as (fx & Hx & -> & ->).
    by apply (Hw _ _ Hx).
  - done.
  - unfold main_ok in *. simpl. destruct (fm_mainFrame m); simpl in *; [|done].
    by eapply live_related.
  - by eapply parents_ok_related.
Qed.

Lemma wf_update_world w g m : wf m → wf (update_world w g m).
Proof.
  intros (Hi & Hch & (Hb1 & Hb2 & Hb3) & Hw & Hc & Hm & Hpa).
  split_and!; try done.
  - split_and!; simpl; [done| |done].
    intros x a Hx. simpl in Hx. apply lookup_alter_Some in Hx.
    destruct Hx as [(-> & a' & Ha & _)|[_ Ha]]; by eapply Hb2.
  - intros x fx Hx. simpl in *. destruct (Hw _ _ Hx).
    by rewrite !lookup_alter_is_Some.
Qed.

Lemma wf_new client : wf (FrameManager_new client).
Proof.
  unfold wf, index_ok, children_ok, refs_bounded, below, worlds_ok, contexts_ok,
    main_ok, parents_ok. simpl. split_and!; try apply map_Forall_empty. done.
Qed.

Lemma wf_emit e m : wf m → wf (emit e m).
Proof. done. Qed.

Lemma forM_preserves {A S} (P : S → Prop) (body : A → S → Outcome S) l :
  (∀ x s s', P s → body x s = Ok s' → P s') →
  ∀ s s', P s → forM body l s = Ok s' → P s'.
Proof.
  intros Hbody. induction l as [|x l IH]; intros s s' Hs E; simpl in E.
  - by injection E as <-.
  - destruct (body x s) as [s1| |] eqn:E1; try done. simpl in E.
    eapply IH; [|done]. by eapply Hbody.
Qed.

Lemma wf_createContext p session cl world m :
  wf m → wf (createContext p session cl world m).
Proof.
  intros Hwf. pose proof Hwf as (Hi & Hch & (Hb1 & Hb2 & Hb3) & Hw & Hc & Hm & Hpa).
  destruct (createContext_frames p session cl world m)
    as (Hfr & Hfs & Hmf & _ & _ & Hn).
  split_and!.
  - by apply createContext_index_ok.
  - by rewrite Hfs.
  - unfold refs_bounded. rewrite Hn, Hfs, createContext_world_store,
      createContext_context_store. split_and!.
    + by eapply below_mono; [|done]; lia.
    + apply (below_mono (next_ref m)); [lia|]. destruct world as [w|]; [|done].
      intros x a Hx. apply lookup_alter_Some in Hx.
      destruct Hx as [(-> & a' & Ha & _)|[_ Ha]]; by eapply Hb2.
    + apply below_insert; [lia|]. by eapply below_mono; [|done]; lia.
  - by apply createContext_worlds_ok.
  - unfold contexts_ok.
    rewrite createContext_index, createContext_context_store.
    apply map_Forall_insert_2.
    + rewrite lookup_insert_eq. eauto.
    + intros k c Hk. rewrite lookup_insert_is_Some. right.
      destruct (Hc _ _ Hk) as [ctx Hctx]. split; [|eauto].
      specialize (Hb3 _ _ Hctx). simpl in Hb3. lia.
  - unfold main_ok. by rewrite Hmf, Hfs.
  - by rewrite Hfs.
Qed.

Lemma wf_onExecutionContextCreated p session m m' :
  wf m → onExecutionContextCreated p session m = Ok m' → wf m'.
Proof.
  intros Hwf. unfold onExecutionContextCreated.
  destruct (contextFrame p m) as [r|].
  - destruct (deref (frame_store m) r) as [f| |]; simpl; try done.
    case_bool_decide; [by intros [= <-]|].
    destruct (contextWorld p f m) as [world| |]; simpl; try done.
    intros [= <-]. by apply wf_createContext.
  - intros [= <-]. by apply wf_createContext.
Qed.

Lemma wf_delete_context key m :
  wf m → wf (set_contextIdToContext (delete key (fm_contextIdToContext m)) m).
Proof.
  intros (Hi & Hch & Hb & Hw & Hc & Hm & Hpa). split_and!; try done.
  intros k c Hk. simpl in Hk. apply lookup_delete_Some in Hk as [_ Hk].
  by apply (Hc _ _ Hk).
Qed.

Lemma wf_onExecutionContextDestroyed contextId session m m' :
  wf m → onExecutionContextDestroyed contextId session m = Ok m' → wf m'.
Proof.
  intros Hwf. unfold onExecutionContextDestroyed.
  destruct (fm_contextIdToContext m !! _) as [c|]; [|by intros [= <-]].
  destruct (deref (context_store m) c) as [ctx| |]; simpl; try done.
  destruct (_world ctx); intros [= <-].
  - by apply wf_update_world, wf_delete_context.
  - by apply wf_delete_context.
Qed.

Lemma wf_clearContext session entry m m' :
  wf m → clearContext session entry m = Ok m' → wf m'.
Proof.
  intros Hwf. unfold clearContext.
  destruct (deref (context_store m) entry.2) as [ctx| |]; simpl; try done.
  case_bool_decide; [by intros [= <-]|].
  destruct (_world ctx); intros [= <-].
  - by apply (wf_delete_context _ (update_world _ _ _)), wf_update_world.
  - by apply wf_delete_context.
Qed.

Lemma wf_onExecutionContextsCleared session m m' :
  wf m → onExecutionContextsCleared session m = Ok m' → wf m'.
Proof. apply forM_preserves. intros x s s'. apply wf_clearContext. Qed.

Lemma wf_Frame_updateClient session r m : wf m → wf (Frame_updateClient session r m).
Proof.
  intros (Hi & Hch & (Hb1 & Hb2 & Hb3) & Hw & Hc & Hm & Hpa).
  set (g := Frame_set_binding session (next_ref m) (S (next_ref m))).
  assert (frames_related same_links (frame_store m) (alter g r (frame_store m))) as Hl
    by (by apply frames_related_alter).
  assert (frames_related same_id (frame_store m) (alter g r (frame_store m))) as Hid
    by (by apply frames_related_alter).
  split_and!; simpl.
  - intros k x Hk. simpl. rewrite <-(Hi _ _ Hk).
    by apply (frames_related_fmap same_id).
  - by eapply children_ok_related.
  - split_and!; simpl.
    + eapply below_related; [done|]. by eapply below_mono; [|done]; lia.
    + apply below_insert; [lia|]. apply below_insert; [lia|].
      by eapply below_mono; [|done]; lia.
    + by eapply below_mono; [|done]; lia.
  - intros x fx' Hx'. simpl in *.
    destruct (decide (x = r)) as [ -> |Hne].
    + rewrite lookup_alter_eq in Hx'.
      destruct (frame_store m !! r) as [fr|]; [|done]. injection Hx' as <-.
      simpl. split.
      * rewrite lookup_insert_ne, lookup_insert_eq by lia. eauto.
      * rewrite lookup_insert_eq. eauto.
    + rewrite lookup_alter_ne in Hx' by done. destruct (Hw _ _ Hx') as [H1 H2].
      split; rewrite !lookup_insert_is_Some'; eauto.
  - done.
  - unfold main_ok in *. simpl. destruct (fm_mainFrame m); simpl in *; [|done].
    by eapply live_related.
  - by eapply parents_ok_related.
Qed.

Lemma wf_onAttachedToTarget targetType targetId session m m' :
  wf m → onAttachedToTarget targetType targetId session m = Ok m' → wf m'.
Proof.
  intros Hwf. unfold onAttachedToTarget. case_decide; [|by intros [= <-]].
  destruct (fm_frames m !! targetId); intros [= <-]; [|done].
  by apply wf_Frame_updateClient.
Qed.

Lemma wf_frame_field_handlers m :
  wf m →
  (∀ frameId u m', onFrameNavigatedWithinDocument frameId u m = Ok m' → wf m')
  ∧ (∀ frameId loaderId name m',
       onLifecycleEvent frameId loaderId name m = Ok m' → wf m')
  ∧ (∀ frameId m', onFrameStartedLoading frameId m = Ok m' → wf m')
  ∧ (∀ frameId m', onFrameStoppedLoading frameId m = Ok m' → wf m').
Proof.
  intros Hwf. split_and!.
  - intros frameId u m'. unfold onFrameNavigatedWithinDocument.
    destruct (fm_frames m !! frameId); intros [= <-]; [|done].
    by apply wf_emit, wf_emit, wf_update_frame.
  - intros frameId loaderId name m'. unfold onLifecycleEvent.
    destruct (fm_frames m !! frameId); intros [= <-]; [|done].
    by apply wf_emit, wf_update_frame.
  - intros frameId m'. unfold onFrameStartedLoading.
    destruct (fm_frames m !! frameId); intros [= <-]; [|done].
    by apply wf_update_frame.
  - intros frameId m'. unfold onFrameStoppedLoading.
    destruct (fm_frames m !! frameId); intros [= <-]; [|done].
    by apply wf_emit, wf_update_frame.
Qed.

Lemma removedStore_related R L r h h' :
  (∀ f, R f f) → (∀ f, R f (Frame_removed f)) →
  (∀ f, R f (Frame_without_child r f)) →
  (∀ x, h' !! x = removedStore L r h x) → frames_related R h h'.
Proof.
  intros H1 H2 H3 Hst x. rewrite Hst. unfold removedStore.
  repeat case_decide; destruct (h !! x); constructor; auto.
Qed.

Lemma childrenRemovedStore_related R L done r h h' :
  (∀ f, R f f) → (∀ f, R f (Frame_removed f)) →
  (∀ f l, R f (Frame_set_childFrames l f)) →
  (∀ x, h' !! x = childrenRemovedStore L done r h x) → frames_related R h h'.
Proof.
  intros H1 H2 H3 Hst x. rewrite Hst. unfold childrenRemovedStore.
  repeat case_decide; destruct (h !! x); constructor; auto.
Qed.

Lemma dom_is_Some {A} (h h' : gmap nat A) x :
  dom h' = dom h → is_Some (h !! x) → is_Some (h' !! x).
Proof. intros Hdom Hx. apply elem_of_dom. rewrite Hdom. by apply elem_of_dom. Qed.

(** What a removal must keep for the state to stay well formed. *)
Lemma wf_after_removal m m' :
  wf m → same_rest m m' →
  children_ok (frame_store m') → parents_ok (frame_store m') →
  frames_related same_id (frame_store m) (frame_store m') →
  frames_related same_worlds (frame_store m) (frame_store m') →
  (∀ k x, fm_frames m' !! k = Some x → fm_frames m !! k = Some x) →
  wf m'.
Proof.
  intros (Hi & Hch & (Hb1 & Hb2 & Hb3) & Hw & Hc & Hm & Hpa)
    (Hmf & _ & Hci & Hcs & _ & Hn & Hdom) Hch' Hpa' Hid Hws Hidx.
  split_and!; try done.
  - intros k x Hk. simpl. apply Hidx in Hk. rewrite <-(Hi _ _ Hk).
    by apply (frames_related_fmap same_id).
  - unfold refs_bounded. rewrite Hn, Hcs. split_and!; [|simpl|done].
    + by eapply below_related.
    + intros x a Hx. simpl.
      destruct (dom_is_Some (world_store m') (world_store m) x) as [a' Ha'];
        [done|eauto|]. by eapply Hb2.
  - intros x fx' Hx'. simpl.
    destruct (frames_related_Some _ _ _ _ _ Hws Hx') as (fx & Hx & -> & ->).
    destruct (Hw _ _ Hx). split; by eapply dom_is_Some.
  - unfold contexts_ok. by rewrite Hci, Hcs.
  - unfold main_ok in *. rewrite Hmf. destruct (fm_mainFrame m); simpl in *; [|done].
    by eapply live_related.
Qed.

Lemma wf_removal m m' n r :
  wf m → removal m m' (postorder n (frame_store m) r) r → wf m'.
Proof.
  intros Hwf (_ & Hst & Hidx & Hrest).
  pose proof Hwf as (_ & Hch & _ & _ & _ & _ & Hpa).
  destruct (removedStore_tree _ _ _ _ Hch Hpa Hst) as (Hch' & Hpa' & _).
  eapply wf_after_removal; try done.
  - by eapply removedStore_related.
  - by eapply removedStore_related.
  - intros k x. rewrite Hidx. by case_decide.
Qed.

Lemma wf_removeFrames r m m' f :
  wf m → frame_store m !! r = Some f → removeFrames r m = Ok m' → wf m'.
Proof.
  intros Hwf Hr E. pose proof Hwf as (_ & Hch & (Hb & _) & _ & _ & _ & Hpa).
  destruct (removeFramesRecursively_spec (next_ref m) r m f) as (m1 & E1 & Hrem);
    try done; [lia|].
  unfold removeFrames in E. rewrite E1 in E. injection E as <-.
  by eapply wf_removal.
Qed.

Lemma wf_onFrameDetached frameId reason m m' :
  wf m → onFrameDetached frameId reason m = Ok m' → wf m'.
Proof.
  intros Hwf. unfold onFrameDetached. case_decide.
  - destruct (fm_frames m !! frameId) as [r|] eqn:Hr; [|by intros [= <-]].
    destruct (wf_indexed_live _ _ _ Hwf Hr) as (f & Hf & _).
    by apply (wf_removeFrames r m m' f).
  - case_decide; by intros [= <-].
Qed.

Lemma wf_onDetachedFromTarget targetId m m' :
  wf m → onDetachedFromTarget targetId m = Ok m' → wf m'.
Proof.
  intros Hwf. unfold onDetachedFromTarget.
  destruct (truthy targetId) as [tid|]; [|by intros [= <-]].
  destruct (fm_frames m !! tid) as [r|] eqn:Hr; [|by intros [= <-]].
  destruct (wf_indexed_live _ _ _ Hwf Hr) as (f & Hf & _).
  unfold deref. rewrite Hf. simpl. case_match; [|by intros [= <-]].
  by apply (wf_removeFrames r m m' f).
Qed.

Lemma wf_fresh m : wf m → frame_store m !! next_ref m = None.
Proof.
  intros Hwf. destruct (frame_store m !! next_ref m) as [f|] eqn:Hf; [|done].
  apply (wf_frame_bound _ _ _ Hwf) in Hf. lia.
Qed.

(** The frame store after [new Frame]. *)
Lemma Frame_new_store parent frameId session m x :
  wf m → from_option (λ p, is_Some (frame_store m !! p)) True parent →
  frame_store (Frame_new parent frameId session m).2 !! x
  = if decide (x = next_ref m) then
      Some (Frame_fresh parent frameId session (next_ref m))
    else if decide (parent = Some x) then
      (λ pf, Frame_set_childFrames (_childFrames pf ++ [next_ref m]) pf)
        <$> frame_store m !! x
    else frame_store m !! x.
Proof.
  intros Hwf Hp. pose proof (wf_fresh m Hwf) as Hfresh.
  destruct parent as [p|]; simpl in *.
  - destruct Hp as [pf Hpf].
    assert (p ≠ next_ref m) as Hpr by (intros ->; congruence).
    destruct (decide (x = next_ref m)) as [ -> |Hx].
    + rewrite lookup_alter_eq, lookup_alter_ne, lookup_insert_eq by done. done.
    + rewrite lookup_alter_ne by done.
      destruct (decide (Some p = Some x)) as [[= <-]|Hxp].
      * rewrite lookup_alter_eq, lookup_insert_ne, Hpf by done. simpl.
        unfold set_add. rewrite decide_False; [done|].
        intros Hin. pose proof Hwf as (_ & Hch & _).
        destruct (children_ok_child _ _ _ _ Hch Hpf Hin) as [_ Hc].
        by rewrite Hfresh in Hc.
      * rewrite lookup_alter_ne by congruence. by rewrite lookup_insert_ne.
  - destruct (decide (x = next_ref m)) as [ -> |Hx].
    + by rewrite lookup_alter_eq, lookup_insert_eq.
    + rewrite lookup_alter_ne, lookup_insert_ne by done. done.
Qed.

Lemma Frame_new_ref parent frameId session m :
  (Frame_new parent frameId session m).1 = next_ref m.
Proof. done. Qed.

Lemma wf_Frame_new parent frameId session m :
  wf m → from_option (λ p, is_Some (frame_store m !! p)) True parent →
  wf (set_frames (<[frameId := next_ref m]>
                   (fm_frames (Frame_new parent frameId session m).2))
        (Frame_new parent frameId session m).2).
Proof.
  intros Hwf Hp. pose proof Hwf as (Hi & Hch & (Hb1 & Hb2 & Hb3) & Hw & Hc & Hm & Hpa).
  pose proof (Frame_new_store parent frameId session m) as Hst.
  set (m1 := (Frame_new parent frameId session m).2) in *.
  set (r := next_ref m) in *.
  assert (fm_frames m1 = fm_frames m) as Hfr by (by destruct parent).
  assert (next_ref m1 = S (S (S r))) as Hn by (by destruct parent).
  assert (world_store m1
          = <[S (S r) := DOMWorld_new r]> (<[S r := DOMWorld_new r]> (world_store m)))
    as Hws by (by destruct parent).
  assert (context_store m1 = context_store m
          ∧ fm_contextIdToContext m1 = fm_contextIdToContext m
          ∧ fm_mainFrame m1 = fm_mainFrame m) as (Hcs & Hci & Hmf)
    by (by destruct parent).
  assert (∀ x f, frame_store m !! x = Some f → x ≠ r) as Hold.
  { intros x f Hx ->. apply (wf_frame_bound _ _ _ Hwf) in Hx. unfold r in Hx. lia. }
  assert (∀ x, x ≠ r → ∀ {A} (proj : Frame → A),
            (∀ l f, proj (Frame_set_childFrames l f) = proj f) →
            proj <$> frame_store m1 !! x = proj <$> frame_store m !! x) as Hproj.
  { intros x Hx A proj Hp'. rewrite Hst by done. rewrite decide_False by done.
    case_decide; [|done]. destruct (frame_store m !! x); simpl; [|done].
    by rewrite Hp'. }
  clearbody m1. split_and!.
  - intros k x Hk. simpl in *. rewrite Hfr in Hk.
    destruct (decide (k = frameId)) as [ -> |Hne].
    + rewrite lookup_insert_eq in Hk. injection Hk as <-.
      rewrite Hst by done. by rewrite decide_True.
    + rewrite lookup_insert_ne in Hk by done. specialize (Hi _ _ Hk). simpl in Hi.
      rewrite <-Hi. apply Hproj; [|done].
      destruct (frame_store m !! x) eqn:Hx; [by eapply Hold|done].
  - intros x fx' Hx'. simpl in *. rewrite Hst in Hx' by done.
    assert (∀ fx c, frame_store m !! x = Some fx → c ∈ _childFrames fx →
              x < c ∧ parentFrame <$> frame_store m1 !! c = Some (Some x)) as Hkeep.
    { intros fx c Hx Hcin.
      destruct (children_ok_child _ _ _ _ Hch Hx Hcin) as [Hlt Hc'].
      split; [done|]. rewrite <-Hc'. apply Hproj; [|done].
      destruct (frame_store m !! c) eqn:Hcl; [by eapply Hold|done]. }
    destruct (decide (x = r)) as [ -> |Hx].
    + injection Hx' as <-. simpl. split; [apply NoDup_nil_2|apply Forall_nil_2].
    + destruct (decide (parent = Some x)) as [ -> |Hpx].
      * destruct (frame_store m !! x) as [fx|] eqn:Hfx; [|done].
        injection Hx' as <-. simpl.
        destruct (Hch _ _ Hfx) as [Hnd _]. split.
        -- apply NoDup_app. split_and!; [done| |apply NoDup_singleton].
           intros c Hcin ->%list_elem_of_singleton.
           destruct (Hkeep _ _ eq_refl Hcin) as [_ Hc'].
           destruct (children_ok_child _ _ _ _ Hch Hfx Hcin) as [_ Hc''].
           destruct (frame_store m !! r) eqn:Hrl; [by eapply Hold|done].
        -- apply Forall_app. split.
           ++ apply Forall_forall. intros c Hcin. by eapply Hkeep.
           ++ apply Forall_singleton. split.
              ** apply (wf_frame_bound _ _ _ Hwf) in Hfx. unfold r. lia.
              ** rewrite Hst by done. by rewrite decide_True.
      * destruct (Hch _ _ Hx') as [Hnd _]. split; [done|].
        apply Forall_forall. intros c Hcin. by eapply Hkeep.
  - unfold refs_bounded. simpl. rewrite Hn, Hws, Hcs. split_and!.
    + intros x fx' Hx'. simpl. rewrite Hst in Hx' by done.
      destruct (decide (x = r)) as [ -> |Hx]; [lia|].
      assert (is_Some (frame_store m !! x)) as [fx Hfx].
      { case_decide; destruct (frame_store m !! x); eauto; done. }
      apply (wf_frame_bound _ _ _ Hwf) in Hfx. unfold r. lia.
    + apply below_insert; [lia|]. apply below_insert; [lia|].
      eapply below_mono; [|done]. unfold r. lia.
    + eapply below_mono; [|done]. unfold r. lia.
  - intros x fx' Hx'. simpl in *. rewrite Hws. rewrite Hst in Hx' by done.
    destruct (decide (x = r)) as [ -> |Hx].
    + injection Hx' as <-. simpl. split.
      * rewrite lookup_insert_ne, lookup_insert_eq by lia. eauto.
      * rewrite lookup_insert_eq. eauto.
    + assert (∃ fx, frame_store m !! x = Some fx
                    ∧ _mainWorld fx' = _mainWorld fx
                    ∧ _secondaryWorld fx' = _secondaryWorld fx)
        as (fx & Hfx & -> & ->).
      { case_decide; destruct (frame_store m !! x) as [fx|]; try done;
          injection Hx' as <-; eauto. }
      destruct (Hw _ _ Hfx). split; rewrite !lookup_insert_is_Some'; eauto.
  - unfold contexts_ok. simpl. by rewrite Hci, Hcs.
  - unfold main_ok in *. simpl. rewrite Hmf.
    destruct (fm_mainFrame m) as [x|]; simpl in *; [|done].
    destruct Hm as [fx Hfx]. rewrite Hst by done.
    rewrite decide_False by (by eapply Hold). case_decide; rewrite Hfx; eauto.
  - intros x fx' Hx'. simpl in *. rewrite Hst in Hx' by done.
    destruct (decide (x = r)) as [ -> |Hx].
    + injection Hx' as <-. simpl. destruct parent as [p|]; simpl in *; [|done].
      destruct Hp as [pf Hpf]. apply (wf_frame_bound _ _ _ Hwf) in Hpf.
      unfold r. lia.
    + assert (∃ fx, frame_store m !! x = Some fx ∧ parentFrame fx' = parentFrame fx)
        as (fx & Hfx & ->).
      { case_decide; destruct (frame_store m !! x) as [fx|]; try done;
          injection Hx' as <-; eauto. }
      by apply (Hpa _ _ Hfx).
Qed.

Lemma wf_onFrameAttached session frameId parentFrameId m m' :
  wf m → onFrameAttached session frameId parentFrameId m = Ok m' → wf m'.
Proof.
  intros Hwf. unfold onFrameAttached.
  destruct (fm_frames m !! frameId) as [r|] eqn:Hr.
  - destruct (deref (frame_store m) r) as [f| |]; simpl; try done.
    case_match; intros [= <-]; [|done]. by apply wf_Frame_updateClient.
  - destruct (truthy parentFrameId) as [pid|]; simpl; [|done].
    destruct (fm_frames m !! pid) as [p|] eqn:Hp; simpl; [|done].
    intros [= <-]. apply wf_emit.
    apply (wf_Frame_new (Some p) frameId session m Hwf). simpl.
    destruct (wf_indexed_live _ _ _ Hwf Hp) as (pf & Hpf & _). eauto.
Qed.

Lemma wf_children_removed m r f mk :
  wf m → frame_store m !! r = Some f →
  forM (removeFramesRecursively (next_ref m)) (_childFrames f) m = Ok mk →
  wf mk.
Proof.
  intros Hwf Hr E. pose proof Hwf as (_ & Hch & (Hb & _) & _ & _ & _ & Hpa).
  destruct (remove_children_spec (next_ref m) r f m) with
    (done := _childFrames f) (rest := @nil nat)
    as (mk' & Ek & (_ & Hst & Hidx & Hrest) & Hch' & Hpa' & _); try done.
  - intros c mc fc ? ? ? ? ?. by eapply removeFramesRecursively_spec.
  - lia.
  - by rewrite app_nil_r.
  - rewrite Ek in E. injection E as <-.
    eapply wf_after_removal; try done.
    + by eapply childrenRemovedStore_related.
    + by eapply childrenRemovedStore_related.
    + intros k x. rewrite Hidx. by case_decide.
Qed.

Lemma wf_set_mainFrame r m :
  wf m → is_Some (frame_store m !! r) → wf (set_mainFrame (Some r) m).
Proof. intros (Hi & Hch & Hb & Hw & Hc & Hm & Hpa) Hr. by split_and!. Qed.

(** The main frame under a new id. *)
Lemma wf_rekey r f pid m :
  wf m → frame_store m !! r = Some f →
  wf (set_frames (<[pid := r]> (delete (_id f) (fm_frames m)))
        (update_frame r (Frame_set_id pid) m)).
Proof.
  intros Hwf Hr. pose proof Hwf as (Hi & Hch & (Hb1 & Hb2 & Hb3) & Hw & Hc & Hm & Hpa).
  set (g := Frame_set_id pid).
  assert (frames_related same_links (frame_store m) (alter g r (frame_store m))) as Hl
    by (by apply frames_related_alter).
  assert (frames_related same_worlds (frame_store m) (alter g r (frame_store m))) as Hws
    by (by apply frames_related_alter).
  split_and!; simpl.
  - intros k x Hk. simpl in *. destruct (decide (k = pid)) as [ -> |Hne].
    + rewrite lookup_insert_eq in Hk. injection Hk as <-.
      by rewrite lookup_alter_eq, Hr.
    + rewrite lookup_insert_ne in Hk by done.
      apply lookup_delete_Some in Hk as [Hold Hk].
      specialize (Hi _ _ Hk). simpl in Hi.
      rewrite lookup_alter_ne; [done|]. intros ->. rewrite Hr in Hi.
      simpl in Hi. congruence.
  - by eapply children_ok_related.
  - split_and!; simpl; [by eapply below_related|done|done].
  - intros x fx' Hx'. simpl in *.
    destruct (frames_related_Some _ _ _ _ _ Hws Hx') as (fx & Hx & -> & ->).
    by apply (Hw _ _ Hx).
  - done.
  - unfold main_ok in *. simpl. destruct (fm_mainFrame m); simpl in *; [|done].
    by eapply live_related.
  - by eapply parents_ok_related.
Qed.

Lemma wf_onFrameNavigated payload m m' :
  wf m → onFrameNavigated payload m = Ok m' → wf m'.
Proof.
  intros Hwf. unfold onFrameNavigated.
  set (pid := payload_id payload).
  case_bool_decide as Hmain.
  - destruct (fm_mainFrame m) as [r|] eqn:Hmf; simpl.
    + pose proof Hwf as (_ & _ & _ & _ & _ & Hm & _).
      unfold main_ok in Hm. rewrite Hmf in Hm. destruct Hm as [f Hf].
      unfold deref at 1. rewrite Hf. simpl.
      destruct (forM _ (_childFrames f) m) as [mk| |] eqn:Ek; simpl; try done.
      pose proof (wf_children_removed _ _ _ _ Hwf Hf Ek) as Hwfk.
      destruct (deref (frame_store mk) r) as [fk| |] eqn:Hfk; simpl; try done.
      intros [= <-]. apply wf_emit, wf_update_frame; [done|].
      unfold deref in Hfk. destruct (frame_store mk !! r) eqn:Hrk; [|done].
      injection Hfk as ->.
      apply wf_set_mainFrame.
      * exact (wf_rekey r fk pid mk Hwfk Hrk).
      * simpl. rewrite lookup_alter_eq, Hrk. eauto.
    + intros [= <-]. apply wf_emit, wf_update_frame; [done|].
      apply wf_set_mainFrame.
      * by apply (wf_Frame_new None pid (fm_client m) m Hwf).
      * simpl. rewrite lookup_alter_eq, lookup_insert_eq. eauto.
  - destruct (fm_frames m !! pid) as [r|] eqn:Hr; simpl; [|done].
    destruct (wf_indexed_live _ _ _ Hwf Hr) as (f & Hf & _).
    unfold deref. rewrite Hf. simpl.
    destruct (forM _ (_childFrames f) m) as [mk| |] eqn:Ek; simpl; try done.
    intros [= <-]. apply wf_emit, wf_update_frame; [done|].
    by eapply wf_children_removed.
Qed.

Lemma wf_dispatch event m m' : wf m → dispatch event m = Ok m' → wf m'.
Proof.
  intros Hwf. destruct (wf_frame_field_handlers m Hwf) as (H1 & H2 & H3 & H4).
  destruct event; simpl.
  - by apply wf_onFrameAttached.
  - by apply wf_onFrameNavigated.
  - apply H1.
  - by apply wf_onFrameDetached.
  - apply H3.
  - apply H4.
  - by apply wf_onExecutionContextCreated.
  - by apply wf_onExecutionContextDestroyed.
  - by apply wf_onExecutionContextsCleared.
  - apply H2.
  - by apply wf_onAttachedToTarget.
  - by apply wf_onDetachedFromTarget.
Qed.

(** Every reachable state is well formed. *)
Theorem reachable_wf m : reachable m → wf m.
Proof.
  induction 1 as [client|event m m' _ IH E]; [apply wf_new|by eapply wf_dispatch].
Qed.

(** * Further properties of the handlers *)

Lemma attainable_deliver events : ∀ m m',
  attainable m → deliver events m = Ok m' → attainable m'.
Proof.
  induction events as [|event events IH]; intros m m' Hm; simpl.
  - by intros [= <-].
  - unfold deliver. simpl. destruct (dispatch event m) as [m1| |] eqn:E; simpl; try done.
    intros H. apply (IH m1); [by eapply attainable_dispatch|done].
Qed.

Lemma reaches_deliver events : ∀ m m', deliver events m = Ok m' → reaches m m'.
Proof.
  induction events as [|event events IH] using rev_ind; intros m m'.
  - intros [= <-]. constructor.
  - unfold deliver. rewrite forM_snoc.
    destruct (forM dispatch events m) as [m1| |] eqn:E; simpl; try done.
    intros H. eapply reaches_step; [by apply IH|done].
Qed.

(** ** Effects *)

Lemma catch_debugError_await (p : Settled unit) m :
  catch_debugError (await p) m = (Ok tt, m).
Proof. unfold catch_debugError, try_catch, await. by destruct p as [[]|e]. Qed.

Lemma promise_all_swallowed (ps : list (Eff unit)) :
  Forall (λ p, ∀ m, p m = (Ok tt, m)) ps →
  ∀ m, ∃ l, promise_all ps m = (Ok l, m).
Proof.
  induction 1 as [|p ps Hp _ IH]; intros m; simpl; [by eexists|].
  rewrite Hp. destruct (IH m) as [l ->]. by eexists.
Qed.

Lemma ensureIsolatedWorld_fresh t session name m :
  session_id session +:+ ":" +:+ name ∉ fm_isolatedWorlds m →
  _ensureIsolatedWorld t session name m
  = (match Page_addScriptToEvaluateOnNewDocument t session name with
     | Fulfilled _ => Ok tt
     | Rejected e => Throw e
     end,
     set_isolatedWorlds
       ({[session_id session +:+ ":" +:+ name]} ∪ fm_isolatedWorlds m) m).
Proof.
  intros Hkey. unfold _ensureIsolatedWorld. rewrite decide_False by done.
  unfold eff_bind at 1, await at 1.
  destruct (Page_addScriptToEvaluateOnNewDocument t session name) as [[]|e]; [|done].
  unfold eff_bind.
  edestruct (promise_all_swallowed) as [l ->]; [|done].
  apply Forall_fmap, Forall_forall. intros f _ m'. apply catch_debugError_await.
Qed.

(** ** Frame-tree snapshots *)

Lemma FrameTree_forall_ind (P : FrameTree → Prop) :
  (∀ frame, P (FrameTreeNode frame None)) →
  (∀ frame children, Forall P children → P (FrameTreeNode frame (Some children))) →
  ∀ frameTree, P frameTree.
Proof.
  intros Hleaf Hnode.
  refine (fix IH (t : FrameTree) : P t :=
            match t with
            | FrameTreeNode frame None => Hleaf frame
            | FrameTreeNode frame (Some children) =>
                Hnode frame children
                  ((fix go (l : list FrameTree) : Forall P l :=
                      match l with
                      | [] => Forall_nil_2 P
                      | c :: l' => Forall_cons_2 P c l' (IH c) (go l')
                      end) children)
            end).
Qed.

Lemma eff_bind_assoc {A B C} (c : Eff A) (k : A → Eff B) (k' : B → Eff C) m :
  eff_bind (eff_bind c k) k' m = eff_bind c (λ a, eff_bind (k a) k') m.
Proof. unfold eff_bind. by destruct (c m) as [[a|e|] m1]. Qed.

Lemma eff_bind_ext {A B} (c c' : Eff A) (k k' : A → Eff B) m :
  c m = c' m → (∀ a m', k a m' = k' a m') → eff_bind c k m = eff_bind c' k' m.
Proof.
  intros Hc Hk. unfold eff_bind. rewrite Hc.
  destruct (c' m) as [[a|e|] m1]; [apply Hk|done..].
Qed.

Lemma handle_all_app l1 l2 m :
  handle_all (l1 ++ l2) m = eff_bind (handle_all l1) (λ _, handle_all l2) m.
Proof.
  revert m. induction l1 as [|e l1 IH]; intros m; simpl; [done|].
  rewrite eff_bind_assoc. apply eff_bind_ext; [done|]. intros _ m'. apply IH.
Qed.

Lemma handleFrameTree_replay session frameTree :
  ∀ m, handleFrameTree session frameTree m = handle_all (tree_events session frameTree) m.
Proof.
  induction frameTree as [frame|frame children IH] using FrameTree_forall_ind; intros m.
  - simpl. destruct (truthy (payload_parentId frame)) as [pid|]; simpl.
    + apply eff_bind_ext; [done|]. intros _ m1.
      apply eff_bind_ext; done.
    + unfold eff_bind at 1. simpl. by apply eff_bind_ext.
  - assert (∀ m0,
      (fix loop (l : list FrameTree) : Eff unit :=
         match l with
         | [] => eff_ret tt
         | child :: l' => do _ ← handleFrameTree session child; loop l'
         end) children m0
      = handle_all
          ((fix go (l : list FrameTree) : list ProtocolEvent :=
              match l with
              | [] => []
              | child :: l' => tree_events session child ++ go l'
              end) children) m0) as Hloop.
    { induction IH as [|c cs Hc _ IHcs]; intros m0; [done|].
      rewrite handle_all_app. by apply eff_bind_ext. }
    simpl. destruct (truthy (payload_parentId frame)) as [pid|]; simpl.
    + apply eff_bind_ext; [done|]. intros _ m1.
      apply eff_bind_ext; [done|]. intros _ m2. apply Hloop.
    + unfold eff_bind at 1. simpl.
      apply eff_bind_ext; [done|]. intros _ m2. apply Hloop.
Qed.

Section preservation.
Variable P : FrameManager → Prop.
Hypothesis P_dispatch : ∀ event m m', P m → dispatch event m = Ok m' → P m'.
Hypothesis P_isolatedWorlds : ∀ g m, P m → P (set_isolatedWorlds g m).

Lemma handle_all_preserves events : ∀ m, P m → P (handle_all events m).2.
Proof.
  induction events as [|event events IH]; intros m Hm; simpl; [done|].
  unfold eff_bind, eff_handler.
  destruct (dispatch event m) as [m1|e|] eqn:E; simpl; [|done..].
  apply IH. by eapply P_dispatch.
Qed.

Lemma handleFrameTree_preserves session frameTree m :
  P m → P (handleFrameTree session frameTree m).2.
Proof. rewrite handleFrameTree_replay. apply handle_all_preserves. Qed.

Lemma eff_bind_preserves {A B} (c : Eff A) (k : A → Eff B) m :
  P (c m).2 → (∀ a m', P m' → P (k a m').2) → P (eff_bind c k m).2.
Proof.
  intros Hc Hk. unfold eff_bind. destruct (c m) as [[a|e|] m1]; simpl in *;
    [by apply Hk|done..].
Qed.

Lemma promise_all_preserves {A} (ps : list (Eff A)) :
  Forall (λ p, ∀ m, P m → P (p m).2) ps → ∀ m, P m → P (promise_all ps m).2.
Proof.
  induction 1 as [|p ps Hp _ IH]; intros m Hm; simpl; [done|].
  specialize (Hp m Hm). destruct (p m) as [[a|e|] m1]; simpl in *.
  - specialize (IH m1 Hp). by destruct (promise_all ps m1) as [[l|e|] m2].
  - by apply IH.
  - done.
Qed.

Lemma await_preserves {A} (p : Settled A) m : P m → P (await p m).2.
Proof. unfold await. by destruct p. Qed.

Lemma ensureIsolatedWorld_preserves t session name m :
  P m → P (_ensureIsolatedWorld t session name m).2.
Proof.
  intros Hm.
  destruct (decide (session_id session +:+ ":" +:+ name ∈ fm_isolatedWorlds m))
    as [Hk|Hk].
  - unfold _ensureIsolatedWorld. by rewrite decide_True.
  - rewrite ensureIsolatedWorld_fresh by done. by apply P_isolatedWorlds.
Qed.

Lemma initialize_body_preserves t client m :
  P m → P (initialize_body t client m).2.
Proof.
  intros Hm. unfold initialize_body. cbv beta zeta.
  apply eff_bind_preserves.
  - apply promise_all_preserves; [|done]. unfold initialize_first.
    repeat constructor; intros m0 Hm0.
    + apply eff_bind_preserves; [by apply await_preserves|done].
    + apply eff_bind_preserves; [by apply await_preserves|done].
    + destruct (bool_decide _); [done|].
      apply eff_bind_preserves; [by apply await_preserves|done].
  - intros result m1 Hm1. apply eff_bind_preserves.
    + destruct (result !! 1) as [[frameTree|]|]; [|done..].
      by apply handleFrameTree_preserves.
    + intros _ m2 Hm2. apply eff_bind_preserves; [|done].
      apply promise_all_preserves; [|done]. unfold initialize_second.
      repeat constructor; intros m0 Hm0.
      * by apply await_preserves.
      * apply eff_bind_preserves; [by apply await_preserves|].
        intros _ m3 Hm3. by apply ensureIsolatedWorld_preserves.
      * destruct (bool_decide _); [by apply await_preserves|done].
Qed.

Lemma initialize_preserves t client m : P m → P (initialize t client m).2.
Proof.
  intros Hm. rewrite initialize_catch.
  pose proof (initialize_body_preserves t client m Hm) as H.
  destruct (initialize_body t client m) as [[[]|e|] m1]; done.
Qed.
End preservation.

Lemma wf_set_isolatedWorlds g m : wf m → wf (set_isolatedWorlds g m).
Proof. by intros (? & ? & (? & ? & ?) & ? & ? & ? & ?). Qed.

(** Every state of a manager that handles events and is initialized is well
    formed. *)
Lemma attainable_wf m : attainable m → wf m.
Proof.
  induction 1 as [client|event m m' _ IH E|t client m _ IH|t session name m _ IH].
  - apply wf_new.
  - by eapply wf_dispatch.
  - apply initialize_preserves; [apply wf_dispatch|apply wf_set_isolatedWorlds|done].
  - apply ensureIsolatedWorld_preserves; [apply wf_set_isolatedWorlds|done].
Qed.

(** ** The frame index *)

Lemma index_ok_inj m k1 k2 r :
  index_ok m → fm_frames m !! k1 = Some r → fm_frames m !! k2 = Some r → k1 = k2.
Proof.
  intros Hidx H1 H2. pose proof (Hidx _ _ H1) as E1. pose proof (Hidx _ _ H2) as E2.
  simpl in *. congruence.
Qed.

(** X1.  In every state of a manager that handles events and is
    initialized, [frame(id)] is a frame whose [_id] is [id], no frame is
    indexed under two ids, and [frames()] lists no frame twice. *)
Theorem frame_index_is_by_id m :
  attainable m →
  (∀ frameId r, frame frameId m = Some r →
     ∃ f, frame_store m !! r = Some f ∧ _id f = frameId)
  ∧ (∀ k1 k2 r, frame k1 m = Some r → frame k2 m = Some r → k1 = k2)
  ∧ NoDup (frames m).
Proof.
  intros Hwf%attainable_wf. split_and!.
  - intros k r Hk. by apply wf_indexed_live.
  - intros k1 k2 r. apply index_ok_inj, Hwf.
  - unfold frames. apply NoDup_fmap_2_strong; [|apply NoDup_map_to_list].
    intros [k1 r1] [k2 r2] H1%elem_of_map_to_list H2%elem_of_map_to_list; simpl.
    intros <-. f_equal. eapply index_ok_inj; [apply Hwf|done..].
Qed.

Lemma frame_index_is_by_id_witness :
  NoDup (frames (state_of scenario_tree (FrameManager_new S1)))
  ∧ ∃ f, frame_store (state_of scenario_tree (FrameManager_new S1)) !! 6 = Some f
         ∧ _id f = "F3".
Proof.
  destruct (frame_index_is_by_id (state_of scenario_tree (FrameManager_new S1)))
    as (Hid & _ & Hnodup).
  - apply (attainable_deliver
             [ Page_frameNavigated (navigatedTo "F1" None "https://a.test");
               Page_frameAttached S1 "F2" (Some "F1");
               Page_frameAttached S1 "F3" (Some "F2");
               Page_frameAttached S1 "F4" (Some "F1") ] (FrameManager_new S1));
      [apply attainable_new|vm_compute; reflexivity].
  - split; [exact Hnodup|]. apply Hid. vm_compute. reflexivity.
Defined.

(** ** The main frame *)

Lemma Frame_detach_mainFrame r m m' :
  Frame_detach r m = Ok m' → fm_mainFrame m' = fm_mainFrame m.
Proof.
  unfold Frame_detach, deref. destruct (frame_store m !! r) as [f|]; simpl; [|done].
  intros [= <-]. by destruct (parentFrame f).
Qed.

Lemma removeFramesRecursively_mainFrame fuel : ∀ r m m',
  removeFramesRecursively fuel r m = Ok m' → fm_mainFrame m' = fm_mainFrame m.
Proof.
  induction fuel as [|fuel IH]; intros r m m'; simpl; [done|].
  unfold deref at 1. destruct (frame_store m !! r) as [f|]; simpl; [|done].
  destruct (forM _ (_childFrames f) m) as [m1| |] eqn:E1; simpl; try done.
  destruct (Frame_detach r m1) as [m2| |] eqn:E2; simpl; try done.
  unfold deref. destruct (frame_store m2 !! r) as [f2|]; simpl; [|done].
  intros [= <-]. simpl. rewrite (Frame_detach_mainFrame _ _ _ E2).
  revert E1. apply (forM_preserves (λ s, fm_mainFrame s = fm_mainFrame m)); [|done].
  intros c s s' Hs Hc. by rewrite (IH _ _ _ Hc).
Qed.

Lemma Frame_updateClient_mainFrame session r m :
  fm_mainFrame (Frame_updateClient session r m) = fm_mainFrame m.
Proof. done. Qed.

Lemma Frame_new_mainFrame parent frameId session m :
  fm_mainFrame (Frame_new parent frameId session m).2 = fm_mainFrame m.
Proof. unfold Frame_new. by destruct parent. Qed.

Lemma dispatch_mainFrame event m m' r :
  dispatch event m = Ok m' → fm_mainFrame m = Some r → fm_mainFrame m' = Some r.
Proof.
  intros E Hmain.
  destruct event as [session frameId parentFrameId|payload|frameId u|frameId reason
                    |frameId|frameId|context session|contextId session|session
                    |frameId loaderId name|targetType targetId session|targetId];
    simpl in E.
  - unfold onFrameAttached in E. destruct (fm_frames m !! frameId) as [x|].
    + unfold deref in E. destruct (frame_store m !! x) as [f|]; simpl in E; [|done].
      destruct (Frame_isOOPFrame m f); by injection E as <-.
    + destruct (assert (truthy parentFrameId) _) as [pid| |]; simpl in E; try done.
      destruct (assert (fm_frames m !! pid) _) as [p| |]; simpl in E; try done.
      by injection E as <-.
  - unfold onFrameNavigated in E. rewrite Hmain in E.
    destruct (bool_decide (truthy (payload_parentId payload) = None)); simpl in E.
    + unfold deref at 1 in E. destruct (frame_store m !! r) as [f|]; simpl in E; [|done].
      destruct (forM _ (_childFrames f) m) as [m1| |] eqn:E1; simpl in E; try done.
      unfold deref in E. destruct (frame_store m1 !! r) as [f1|]; simpl in E; [|done].
      by injection E as <-.
    + destruct (fm_frames m !! payload_id payload) as [x|]; simpl in E; [|done].
      unfold deref in E. destruct (frame_store m !! x) as [f|]; simpl in E; [|done].
      destruct (forM _ (_childFrames f) m) as [m1| |] eqn:E1; simpl in E; try done.
      injection E as <-. simpl. rewrite <- Hmain. revert E1.
      apply (forM_preserves (λ s, fm_mainFrame s = fm_mainFrame m)); [|done].
      intros c s s' Hs Hc. by rewrite (removeFramesRecursively_mainFrame _ _ _ _ Hc).
  - unfold onFrameNavigatedWithinDocument in E.
    destruct (fm_frames m !! frameId); by injection E as <-.
  - unfold onFrameDetached in E. repeat case_decide.
    + destruct (fm_frames m !! frameId) as [x|]; [|by injection E as <-].
      by rewrite (removeFramesRecursively_mainFrame _ _ _ _ E).
    + by injection E as <-.
    + by injection E as <-.
  - unfold onFrameStartedLoading in E.
    destruct (fm_frames m !! frameId); by injection E as <-.
  - unfold onFrameStoppedLoading in E.
    destruct (fm_frames m !! frameId); by injection E as <-.
  - unfold onExecutionContextCreated in E.
    destruct (contextFrame context m) as [x|].
    + unfold deref in E. destruct (frame_store m !! x) as [f|]; simpl in E; [|done].
      destruct (bool_decide (frame_client f ≠ session)); [by injection E as <-|].
      destruct (contextWorld context f m) as [world| |]; simpl in E; try done.
      injection E as <-. by rewrite (proj1 (proj2 (proj2 (createContext_frames _ _ _ _ _)))).
    + injection E as <-. by rewrite (proj1 (proj2 (proj2 (createContext_frames _ _ _ _ _)))).
  - unfold onExecutionContextDestroyed in E.
    destruct (fm_contextIdToContext m !! _) as [c|]; [|by injection E as <-].
    unfold deref in E. destruct (context_store m !! c) as [ctx|]; simpl in E; [|done].
    destruct (_world ctx); by injection E as <-.
  - revert E. unfold onExecutionContextsCleared.
    intros E. rewrite <- Hmain. revert E.
    apply (forM_preserves (λ s, fm_mainFrame s = fm_mainFrame m)); [|done].
    intros entry s s' Hs. unfold clearContext, deref.
    destruct (context_store s !! entry.2) as [ctx|]; simpl; [|done].
    destruct (bool_decide (_client ctx ≠ session)); [by intros [= <-]|].
    intros [= <-]. by destruct (_world ctx).
  - unfold onLifecycleEvent in E.
    destruct (fm_frames m !! frameId); by injection E as <-.
  - unfold onAttachedToTarget in E. case_decide; [|by injection E as <-].
    destruct (fm_frames m !! targetId); by injection E as <-.
  - unfold onDetachedFromTarget in E.
    destruct (truthy targetId) as [tid|]; [|by injection E as <-].
    destruct (fm_frames m !! tid) as [x|]; [|by injection E as <-].
    unfold deref in E. destruct (frame_store m !! x) as [f|]; simpl in E; [|done].
    destruct (Frame_isOOPFrame m f); [|by injection E as <-].
    by rewrite (removeFramesRecursively_mainFrame _ _ _ _ E).
Qed.

(** X2.  Once a main frame is recorded it is never replaced or cleared:
    whatever events are handled afterwards, and whatever session the manager
    is initialized for, [mainFrame()] returns the same frame object. *)
Theorem main_frame_is_never_replaced m m' r :
  reaches m m' → mainFrame m = Ok r → mainFrame m' = Ok r.
Proof.
  unfold mainFrame. intros Hreach Hmain.
  assert (fm_mainFrame m = Some r) as H.
  { destruct (fm_mainFrame m); simpl in Hmain; [by injection Hmain as ->|done]. }
  clear Hmain.
  assert (fm_mainFrame m' = Some r) as ->; [|done].
  induction Hreach as [|event m1 m2 _ IH E|t client m1 _ IH|t session name m1 _ IH].
  - done.
  - by eapply dispatch_mainFrame.
  - apply (initialize_preserves (λ s, fm_mainFrame s = Some r)); [|done..].
    intros event s s' Hs E. by eapply dispatch_mainFrame.
  - by apply (ensureIsolatedWorld_preserves (λ s, fm_mainFrame s = Some r)).
Qed.

Lemma main_frame_is_never_replaced_witness :
  mainFrame
    (state_of
       (deliver [ Page_frameAttached S1 "F2" (Some "F1");
                  Page_frameNavigated crossProcessPayload;
                  Page_frameDetached "G1" "remove" ]
          (state_of scenario_main (FrameManager_new S1)))
       (FrameManager_new S1))
  = Ok 0.
Proof.
  apply (main_frame_is_never_replaced (state_of scenario_main (FrameManager_new S1))).
  - apply (reaches_deliver [ Page_frameAttached S1 "F2" (Some "F1");
                             Page_frameNavigated crossProcessPayload;
                             Page_frameDetached "G1" "remove" ]).
    vm_compute. reflexivity.
  - vm_compute. reflexivity.
Defined.

(** ** Navigation of a frame *)

Lemma onFrameNavigated_main payload m r f :
  wf m → truthy (payload_parentId payload) = None →
  fm_mainFrame m = Some r → frame_store m !! r = Some f →
  ∃ mk, forM (removeFramesRecursively (next_ref m)) (_childFrames f) m = Ok mk
    ∧ childrenRemoval (next_ref m) m mk (_childFrames f) r
    ∧ frame_store mk !! r = Some (Frame_set_childFrames [] f)
    ∧ onFrameNavigated payload m
      = Ok (emit (FrameNavigated r)
              (update_frame r (Frame_navigated payload)
                 (set_mainFrame (Some r)
                    (set_frames (<[payload_id payload := r]>
                                   (delete (_id f) (fm_frames mk)))
                       (update_frame r (Frame_set_id (payload_id payload)) mk))))).
Proof.
  intros Hwf Hmain Hmf Hr.
  destruct Hwf as (Hi & Hch & (Hb & _) & _ & _ & _ & Hpa).
  destruct (remove_all_children m r f) as (mk & Ek & Hrem & Hrk); try done.
  exists mk. split_and!; try done.
  unfold onFrameNavigated. rewrite Hmain, bool_decide_eq_true_2 by done.
  rewrite Hmf. simpl. unfold deref at 1. rewrite Hr. simpl. rewrite Ek. simpl.
  unfold deref. by rewrite Hrk.
Qed.

Lemma onFrameNavigated_child payload m r f :
  wf m → is_Some (truthy (payload_parentId payload)) →
  fm_frames m !! payload_id payload = Some r → frame_store m !! r = Some f →
  ∃ mk, forM (removeFramesRecursively (next_ref m)) (_childFrames f) m = Ok mk
    ∧ childrenRemoval (next_ref m) m mk (_childFrames f) r
    ∧ frame_store mk !! r = Some (Frame_set_childFrames [] f)
    ∧ onFrameNavigated payload m
      = Ok (emit (FrameNavigated r) (update_frame r (Frame_navigated payload) mk)).
Proof.
  intros Hwf [pid Hpid] Hk Hr.
  destruct Hwf as (Hi & Hch & (Hb & _) & _ & _ & _ & Hpa).
  destruct (remove_all_children m r f) as (mk & Ek & Hrem & Hrk); try done.
  exists mk. split_and!; try done.
  unfold onFrameNavigated. rewrite Hpid, bool_decide_eq_false_2 by done.
  rewrite Hk. simpl. unfold deref at 1. rewrite Hr. simpl. by rewrite Ek.
Qed.

Lemma onFrameNavigated_first payload m :
  truthy (payload_parentId payload) = None → fm_mainFrame m = None →
  onFrameNavigated payload m
  = let m1 := (Frame_new None (payload_id payload) (fm_client m) m).2 in
    Ok (emit (FrameNavigated (next_ref m))
          (update_frame (next_ref m) (Frame_navigated payload)
             (set_mainFrame (Some (next_ref m))
                (set_frames (<[payload_id payload := next_ref m]> (fm_frames m1)) m1)))).
Proof.
  intros Hmain Hmf. unfold onFrameNavigated.
  rewrite Hmain, bool_decide_eq_true_2 by done. by rewrite Hmf.
Qed.

Lemma onFrameNavigated_untracked payload m :
  is_Some (truthy (payload_parentId payload)) →
  fm_frames m !! payload_id payload = None →
  onFrameNavigated payload m
  = Throw (JsError
      "We either navigate top level or have old version of the navigated frame").
Proof.
  intros [pid Hpid] Hk. unfold onFrameNavigated.
  rewrite Hpid, bool_decide_eq_false_2 by done. by rewrite Hk.
Qed.

Lemma removeFrames_spec m r f :
  wf m → frame_store m !! r = Some f →
  ∃ m', removeFrames r m = Ok m' ∧ removal m m' (subtree m r) r ∧ wf m'
        ∧ r ∈ subtree m r.
Proof.
  intros Hwf Hr. pose proof Hwf as (Hi & Hch & (Hb & _) & _ & _ & _ & Hpa).
  destruct (removeFramesRecursively_spec (next_ref m) r m f) as (m' & E & Hrem);
    try done; [lia|].
  exists m'. split_and!; [done|done|by eapply wf_removal|].
  unfold subtree. pose proof (wf_frame_bound _ _ _ Hwf Hr).
  destruct (next_ref m) as [|n]; [lia|]. by eapply postorder_self.
Qed.

(** ** Which events make a handler throw *)












(** ** The context index *)

Lemma executionContextById_lookup contextId session m m' :
  fm_contextIdToContext m' !! contextKey session contextId
  = fm_contextIdToContext m !! contextKey session contextId →
  executionContextById contextId session m' = executionContextById contextId session m.
Proof. unfold executionContextById. by intros ->. Qed.

Lemma contextKey_ne s1 s2 i1 i2 :
  (s1, i1) ≠ (s2, i2) → contextKey s1 i1 ≠ contextKey s2 i2.
Proof. intros Hne [-> ->]%contextKey_inj. done. Qed.




Lemma destroyed_context_lemma contextId session m c ctx :
  fm_contextIdToContext m !! contextKey session contextId = Some c →
  context_store m !! c = Some ctx →
  ∃ m', onExecutionContextDestroyed contextId session m = Ok m'
    ∧ fm_contextIdToContext m'
      = delete (contextKey session contextId) (fm_contextIdToContext m)
    ∧ (∀ w, _world ctx = Some w →
         world_store m' !! w = DOMWorld_setContext None <$> world_store m !! w)
    ∧ (∀ w, _world ctx ≠ Some w → world_store m' !! w = world_store m !! w)
    ∧ fm_frames m' = fm_frames m ∧ frame_store m' = frame_store m
    ∧ context_store m' = context_store m ∧ emitted m' = emitted m.
Proof.
  intros Hk Hc. unfold onExecutionContextDestroyed. rewrite Hk.
  unfold deref. rewrite Hc. simpl.
  destruct (_world ctx) as [w0|] eqn:Hw; eexists; (split; [done|]); simpl;
    split_and!; try done.
  - intros w [= <-]. by rewrite lookup_alter_eq.
  - intros w Hne. rewrite lookup_alter_ne; [done|]. by intros <-.
Qed.

(** X6.  An [executionContextDestroyed] event for a pair of session and id
    that is not in the index changes nothing.  For an indexed pair the
    handler removes that entry alone: every other pair resolves as before,
    the world the context was constructed with has its binding cleared,
    every other world and every frame is left as it was, and nothing is
    emitted. *)
Theorem destroyed_context_is_forgotten contextId session m :
  (fm_contextIdToContext m !! contextKey session contextId = None →
   onExecutionContextDestroyed contextId session m = Ok m)
  ∧ (∀ c ctx,
       fm_contextIdToContext m !! contextKey session contextId = Some c →
       context_store m !! c = Some ctx →
       ∃ m', onExecutionContextDestroyed contextId session m = Ok m'
         ∧ fm_contextIdToContext m'
           = delete (contextKey session contextId) (fm_contextIdToContext m)
         ∧ (∀ i s, (s, i) ≠ (session, contextId) →
              executionContextById i s m' = executionContextById i s m)
         ∧ (∀ w, _world ctx = Some w →
              world_store m' !! w = DOMWorld_setContext None <$> world_store m !! w)
         ∧ (∀ w, _world ctx ≠ Some w → world_store m' !! w = world_store m !! w)
         ∧ fm_frames m' = fm_frames m ∧ frame_store m' = frame_store m
         ∧ context_store m' = context_store m ∧ emitted m' = emitted m).
Proof.
  split.
  - intros Hk. unfold onExecutionContextDestroyed. by rewrite Hk.
  - intros c ctx Hk Hc.
    destruct (destroyed_context_lemma contextId session m c ctx Hk Hc)
      as (m' & E & Hidx & Hw1 & Hw2 & ? & ? & ? & ?).
    exists m'. split_and!; try done.
    intros i s Hne. apply executionContextById_lookup. rewrite Hidx.
    apply lookup_delete_ne. apply not_eq_sym. by apply contextKey_ne.
Qed.

Lemma destroyed_context_is_forgotten_witness :
  onExecutionContextDestroyed 4 S1 (state_of scenario_two_sessions (FrameManager_new S1))
  = Ok (state_of scenario_two_sessions (FrameManager_new S1))
  ∧ ∃ m', onExecutionContextDestroyed 1 S1
            (state_of scenario_two_sessions (FrameManager_new S1)) = Ok m'
          ∧ executionContextById 1 S2 m' = Ok 9
          ∧ world_context <$> world_store m' !! 1 = Some None.
Proof.
  destruct (destroyed_context_is_forgotten 4 S1
              (state_of scenario_two_sessions (FrameManager_new S1))) as (Hnone & _).
  destruct (destroyed_context_is_forgotten 1 S1
              (state_of scenario_two_sessions (FrameManager_new S1))) as (_ & Hsome).
  split; [apply Hnone; vm_compute; reflexivity|].
  destruct (Hsome 3 {| _client := S1;
                       _contextPayload := contextFor 1 "" (Some "F1") true;
                       _world := Some 1 |})
    as (m' & E & _ & Hother & Hw & _); [vm_compute; reflexivity..|].
  exists m'. split; [exact E|]. split.
  - rewrite (Hother 1%Z S2); [vm_compute; reflexivity|discriminate].
  - rewrite (Hw 1 eq_refl). vm_compute. reflexivity.
Defined.

Lemma DOMWorld_setContext_twice c c' w :
  DOMWorld_setContext c' (DOMWorld_setContext c w) = DOMWorld_setContext c' w.
Proof. done. Qed.



(** X8.  A context whose event names no tracked frame is constructed with
    the client of the manager, whichever session delivers the event, and
    with no world.  An [executionContextsCleared] event for the delivering
    session, when that is another session than the manager's, therefore
    leaves the context in the index, and one for the manager's own session
    removes it. *)
Theorem frameless_context_has_primary_client p session m :
  wf m → contextFrame p m = None →
  ∃ m1 c ctx,
    onExecutionContextCreated p session m = Ok m1
    ∧ executionContextById (ctx_id p) session m1 = Ok c
    ∧ context_store m1 !! c = Some ctx
    ∧ _client ctx = fm_client m ∧ _world ctx = None
    ∧ (session ≠ fm_client m →
       ∃ m2, onExecutionContextsCleared session m1 = Ok m2
             ∧ executionContextById (ctx_id p) session m2 = Ok c)
    ∧ ∃ m3, onExecutionContextsCleared (fm_client m) m1 = Ok m3
            ∧ executionContextById (ctx_id p) session m3
              = Throw (missing_context (ctx_id p)).
Proof.
  intros Hwf Hfr.
  set (m1 := createContext p session (fm_client m) None m).
  set (ctx := {| _client := fm_client m; _contextPayload := p; _world := None |}).
  assert (onExecutionContextCreated p session m = Ok m1) as E
    by (unfold onExecutionContextCreated; by rewrite Hfr).
  assert (wf m1) as Hwf1 by (by apply wf_createContext).
  assert (fm_contextIdToContext m1 !! contextKey session (ctx_id p) = Some (next_ref m))
    as Hk by (subst m1; rewrite createContext_index; apply lookup_insert_eq).
  assert (context_store m1 !! next_ref m = Some ctx) as Hc
    by (subst m1; rewrite createContext_context_store; apply lookup_insert_eq).
  assert (∀ s, ∃ m', onExecutionContextsCleared s m1 = Ok m'
            ∧ ∀ k, fm_contextIdToContext m' !! k
                   = if decide (k ∈ clearedKeys s (context_store m1)
                                      (map_to_list (fm_contextIdToContext m1)))
                     then None else fm_contextIdToContext m1 !! k) as Hclear.
  { intros s.
    destruct (clearContext_loop s (map_to_list (fm_contextIdToContext m1)) m1)
      as (m' & E' & _ & _ & _ & _ & _ & Hidx & _); [|by eauto].
    pose proof Hwf1 as (_ & _ & _ & _ & Hco & _).
    apply Forall_forall. intros [k c] Hin%elem_of_map_to_list. by eapply Hco. }
  exists m1, (next_ref m), ctx. split_and!; try done.
  - by apply executionContextById_Some.
  - intros Hne. destruct (Hclear session) as (m2 & E2 & Hidx). exists m2.
    split; [done|]. apply executionContextById_Some. rewrite Hidx.
    rewrite decide_False; [done|].
    intros (c & Hin%elem_of_map_to_list & Hown)%elem_of_clearedKeys.
    rewrite Hk in Hin. injection Hin as <-.
    unfold ownedBy in Hown. cbn [snd] in Hown. rewrite Hc in Hown.
    injection Hown as Hown. by apply Hne.
  - destruct (Hclear (fm_client m)) as (m3 & E3 & Hidx). exists m3.
    split; [done|]. apply executionContextById_None. rewrite Hidx.
    rewrite decide_True; [done|].
    apply elem_of_clearedKeys. exists (next_ref m).
    split; [by apply elem_of_map_to_list|].
    unfold ownedBy. cbn [snd]. by rewrite Hc.
Qed.

Lemma frameless_context_has_primary_client_witness :
  ∃ m1 c,
    onExecutionContextCreated (contextFor 5 "worker" None false) S2
      (state_of scenario_main (FrameManager_new S1)) = Ok m1
    ∧ executionContextById 5 S2 m1 = Ok c
    ∧ _client <$> context_store m1 !! c = Some S1
    ∧ (∃ m2, onExecutionContextsCleared S2 m1 = Ok m2
             ∧ executionContextById 5 S2 m2 = Ok c)
    ∧ ∃ m3, onExecutionContextsCleared S1 m1 = Ok m3
            ∧ executionContextById 5 S2 m3 = Throw (missing_context 5).
Proof.
  destruct (frameless_context_has_primary_client (contextFor 5 "worker" None false) S2
              (state_of scenario_main (FrameManager_new S1)))
    as (m1 & c & ctx & E & Hc & Hctx & Hcl & _ & Hsec & Hprim).
  { apply (bool_decide_unpack _). vm_compute. reflexivity. }
  { reflexivity. }
  exists m1, c. split; [exact E|]. split; [exact Hc|]. split.
  { rewrite Hctx. simpl. rewrite Hcl. reflexivity. }
  split; [apply Hsec; discriminate|exact Hprim].
Defined.

(** ** Rebinding a frame to a session *)

(** X9.  A [Target.attachedToTarget] event for an iframe target whose id is
    a tracked frame binds that frame to the session of the target: the frame
    gets that session as its client and two new worlds without a context,
    while every other frame, every world there was, and the context index are
    left alone; a target of another type changes nothing.  From then on a
    default-context event for the frame is dropped when any other session
    delivers it, and is accepted from the new session, whose context is
    indexed and bound to the new main world. *)
Theorem attached_target_rebinds_frame targetId session p aux m r f :
  wf m → fm_frames m !! targetId = Some r → frame_store m !! r = Some f →
  ctx_auxData p = Some aux → aux_frameId aux = Some targetId →
  aux_isDefault aux = true →
  (∀ targetType, targetType ≠ "iframe" →
     onAttachedToTarget targetType targetId session m = Ok m)
  ∧ ∃ m1,
      onAttachedToTarget "iframe" targetId session m = Ok m1
      ∧ frame_store m1
        = <[r := Frame_set_binding session (next_ref m) (S (next_ref m)) f]>
            (frame_store m)
      ∧ world_store m1 !! next_ref m = Some (DOMWorld_new r)
      ∧ world_store m1 !! S (next_ref m) = Some (DOMWorld_new r)
      ∧ (∀ w wd, world_store m !! w = Some wd → world_store m1 !! w = Some wd)
      ∧ fm_frames m1 = fm_frames m
      ∧ fm_contextIdToContext m1 = fm_contextIdToContext m
      ∧ context_store m1 = context_store m
      ∧ emitted m1 = emitted m
      ∧ (∀ s, s ≠ session → onExecutionContextCreated p s m1 = Ok m1)
      ∧ ∃ m2 c,
          onExecutionContextCreated p session m1 = Ok m2
          ∧ executionContextById (ctx_id p) session m2 = Ok c
          ∧ context_store m2 !! c
            = Some {| _client := session; _contextPayload := p;
                      _world := Some (next_ref m) |}
          ∧ world_context <$> world_store m2 !! next_ref m = Some (Some c).
Proof.
  intros Hwf Hk Hr Haux Hid Hdef. split.
  { intros targetType Hne. unfold onAttachedToTarget. by rewrite decide_False. }
  pose proof Hwf as (_ & _ & (_ & Hbw & _) & _).
  set (f1 := Frame_set_binding session (next_ref m) (S (next_ref m)) f).
  set (m1 := Frame_updateClient session r m).
  assert (frame_store m1 !! r = Some f1) as Hr1.
  { subst m1. simpl. by rewrite lookup_alter_eq, Hr. }
  assert (contextFrame p m1 = Some r) as Hcf.
  { unfold contextFrame. rewrite Haux. simpl. rewrite Hid. done. }
  exists m1. split_and!.
  - unfold onAttachedToTarget. rewrite decide_True by done. by rewrite Hk.
  - subst m1. simpl. apply map_eq. intros x.
    destruct (decide (x = r)) as [ -> |Hne].
    + by rewrite lookup_alter_eq, lookup_insert_eq, Hr.
    + by rewrite lookup_alter_ne, lookup_insert_ne.
  - subst m1. simpl. rewrite lookup_insert_ne by lia. apply lookup_insert_eq.
  - subst m1. simpl. apply lookup_insert_eq.
  - intros w wd Hw. pose proof (Hbw _ _ Hw) as Hlt. simpl in Hlt.
    subst m1. simpl. rewrite !lookup_insert_ne by lia. done.
  - done.
  - done.
  - done.
  - done.
  - intros s Hne. unfold onExecutionContextCreated. rewrite Hcf.
    unfold deref. rewrite Hr1. simpl. by rewrite bool_decide_eq_true_2.
  - eexists _, (next_ref m1). split_and!.
    + unfold onExecutionContextCreated. rewrite Hcf.
      unfold deref. rewrite Hr1. simpl. rewrite bool_decide_eq_false_2 by (by intros ?).
      unfold contextWorld. rewrite Haux. simpl. rewrite Hdef.
      rewrite bool_decide_eq_true_2 by done. simpl. done.
    + apply executionContextById_Some. rewrite createContext_index.
      apply lookup_insert_eq.
    + rewrite createContext_context_store. apply lookup_insert_eq.
    + rewrite createContext_world_store. rewrite lookup_alter_eq.
      subst m1. simpl. rewrite lookup_insert_ne by lia.
      by rewrite lookup_insert_eq.
Qed.

Lemma attached_target_rebinds_frame_witness :
  ∃ m1 m2 c,
    onAttachedToTarget "iframe" "F2" S2 (state_of scenario_tree (FrameManager_new S1))
    = Ok m1
    ∧ onExecutionContextCreated (contextFor 1 "" (Some "F2") true) S1 m1 = Ok m1
    ∧ onExecutionContextCreated (contextFor 1 "" (Some "F2") true) S2 m1 = Ok m2
    ∧ executionContextById 1 S2 m2 = Ok c
    ∧ world_context <$> world_store m2 !! 12 = Some (Some c).
Proof.
  destruct (attached_target_rebinds_frame "F2" S2 (contextFor 1 "" (Some "F2") true)
              {| aux_frameId := Some "F2"; aux_isDefault := true |}
              (state_of scenario_tree (FrameManager_new S1)) 3
              {| parentFrame := Some 0; url := ""; detached := false;
                 frame_client := S1; _id := "F2"; _loaderId := ""; _name := None;
                 _hasStartedLoading := false; _lifecycleEvents := [];
                 _mainWorld := 4; _secondaryWorld := 5; _childFrames := [6] |})
    as (_ & m1 & E1 & _ & _ & _ & _ & _ & _ & _ & _ & Hdrop & m2 & c & E2 & Hc & _ & Hw).
  { apply (bool_decide_unpack _). vm_compute. reflexivity. }
  { vm_compute. reflexivity. }
  { vm_compute. reflexivity. }
  { reflexivity. }
  { reflexivity. }
  { reflexivity. }
  exists m1, m2, c. split; [exact E1|]. split; [apply Hdrop; discriminate|].
  split; [exact E2|]. split; [exact Hc|exact Hw].
Defined.

(** ** Isolated worlds *)

(** X10.  [_ensureIsolatedWorld] records the pair of session and name before
    it sends anything, and changes nothing else of the manager.  A call for
    a recorded pair returns at once, whatever the channel would answer; so a
    second call does nothing, also when the first one failed: a failed
    installation is not tried again. *)
Theorem ensureIsolatedWorld_runs_once t session name m :
  (session_id session +:+ ":" +:+ name ∈ fm_isolatedWorlds m →
   ∀ t', _ensureIsolatedWorld t' session name m = (Ok tt, m))
  ∧ (session_id session +:+ ":" +:+ name ∉ fm_isolatedWorlds m →
     (_ensureIsolatedWorld t session name m).2
     = set_isolatedWorlds
         ({[session_id session +:+ ":" +:+ name]} ∪ fm_isolatedWorlds m) m)
  ∧ ∀ t', _ensureIsolatedWorld t' session name
            (_ensureIsolatedWorld t session name m).2
          = (Ok tt, (_ensureIsolatedWorld t session name m).2).
Proof.
  assert (∀ m0, session_id session +:+ ":" +:+ name ∈ fm_isolatedWorlds m0 →
            ∀ t', _ensureIsolatedWorld t' session name m0 = (Ok tt, m0)) as Hin.
  { intros m0 Hk t'. unfold _ensureIsolatedWorld. by rewrite decide_True. }
  split_and!.
  - apply Hin.
  - intros Hk. by rewrite ensureIsolatedWorld_fresh.
  - intros t'. apply Hin.
    destruct (decide (session_id session +:+ ":" +:+ name ∈ fm_isolatedWorlds m))
      as [Hk|Hk].
    + by rewrite Hin.
    + rewrite ensureIsolatedWorld_fresh by done. simpl. set_solver.
Qed.

Lemma ensureIsolatedWorld_runs_once_witness :
  _ensureIsolatedWorld quietTransport S1 UTILITY_WORLD_NAME
    (_ensureIsolatedWorld (failingTransport otherError) S1 UTILITY_WORLD_NAME
       (state_of scenario_main (FrameManager_new S1))).2
  = (Ok tt,
     set_isolatedWorlds
       ({[session_id S1 +:+ ":" +:+ UTILITY_WORLD_NAME]}
        ∪ fm_isolatedWorlds (state_of scenario_main (FrameManager_new S1)))
       (state_of scenario_main (FrameManager_new S1))).
Proof.
  destruct (ensureIsolatedWorld_runs_once (failingTransport otherError) S1
              UTILITY_WORLD_NAME (state_of scenario_main (FrameManager_new S1)))
    as (_ & Hfirst & Hsecond).
  refine (eq_trans (Hsecond quietTransport) (f_equal (pair (Ok tt)) (Hfirst _))).
  apply (bool_decide_unpack _). vm_compute. reflexivity.
Defined.

(** X11.  A call of [_ensureIsolatedWorld] for a pair that is not recorded
    fails exactly when [Page.addScriptToEvaluateOnNewDocument] is rejected,
    and then with that rejection.  The answers to [Page.createIsolatedWorld]
    for the frames of the session have no influence: a rejection there is
    logged and dropped. *)
Theorem ensureIsolatedWorld_fails_with_addScript t session name m :
  session_id session +:+ ":" +:+ name ∉ fm_isolatedWorlds m →
  (∀ e, (_ensureIsolatedWorld t session name m).1 = Throw e
        ↔ Page_addScriptToEvaluateOnNewDocument t session name = Rejected e)
  ∧ ((_ensureIsolatedWorld t session name m).1 = Ok tt
     ↔ Page_addScriptToEvaluateOnNewDocument t session name = Fulfilled tt)
  ∧ ∀ t', Page_addScriptToEvaluateOnNewDocument t' session name
          = Page_addScriptToEvaluateOnNewDocument t session name →
          _ensureIsolatedWorld t' session name m = _ensureIsolatedWorld t session name m.
Proof.
  intros Hk. split_and!.
  - intros e. rewrite ensureIsolatedWorld_fresh by done. simpl.
    destruct (Page_addScriptToEvaluateOnNewDocument t session name) as [[]|e'];
      split; intros H; try done; by injection H as ->.
  - rewrite ensureIsolatedWorld_fresh by done. simpl.
    by destruct (Page_addScriptToEvaluateOnNewDocument t session name) as [[]|e'].
  - intros t' Ht. rewrite !ensureIsolatedWorld_fresh by done. by rewrite Ht.
Qed.

Lemma ensureIsolatedWorld_fails_with_addScript_witness :
  (_ensureIsolatedWorld (noWorldsTransport otherError) S1 UTILITY_WORLD_NAME
     (state_of scenario_tree (FrameManager_new S1))).1 = Ok tt.
Proof.
  apply (ensureIsolatedWorld_fails_with_addScript (noWorldsTransport otherError) S1
           UTILITY_WORLD_NAME (state_of scenario_tree (FrameManager_new S1))).
  - apply (bool_decide_unpack _). vm_compute. reflexivity.
  - reflexivity.
Defined.

(** ** Removal of frames *)

(** X12.  A [Target.detachedFromTarget] event removes a frame only when its
    target id names a tracked frame that is out-of-process: then it does what
    a [frameDetached] event with reason [remove] does, the subtree of the
    frame being removed in post-order.  With no target id, for an untracked
    id, and for a frame bound to the manager's own session, it changes
    nothing. *)
Theorem detached_target_removes_oop_frame targetId m :
  wf m →
  (truthy targetId = None → onDetachedFromTarget targetId m = Ok m)
  ∧ (∀ tid, truthy targetId = Some tid → frame tid m = None →
       onDetachedFromTarget targetId m = Ok m)
  ∧ (∀ tid r f,
       truthy targetId = Some tid → frame tid m = Some r →
       frame_store m !! r = Some f →
       (frame_client f = fm_client m → onDetachedFromTarget targetId m = Ok m)
       ∧ (frame_client f ≠ fm_client m →
          onDetachedFromTarget targetId m = onFrameDetached tid "remove" m
          ∧ ∃ m', onDetachedFromTarget targetId m = Ok m'
              ∧ emitted m' = emitted m ++ (FrameDetached <$> subtree m r)
              ∧ ∀ x, x ∈ subtree m r →
                  (∀ k, frame k m' ≠ Some x)
                  ∧ detached <$> frame_store m' !! x = Some true)).
Proof.
  intros Hwf. unfold frame. split_and!.
  - intros Ht. unfold onDetachedFromTarget. by rewrite Ht.
  - intros tid Ht Hk. unfold onDetachedFromTarget. by rewrite Ht, Hk.
  - intros tid r f Ht Hk Hr. unfold onDetachedFromTarget. rewrite Ht, Hk.
    unfold deref. rewrite Hr. simpl. unfold Frame_isOOPFrame. split.
    + intros Hc. by rewrite bool_decide_eq_false_2 by (by intros ?).
    + intros Hc. rewrite bool_decide_eq_true_2 by done. split.
      * unfold onFrameDetached. rewrite decide_True by done. by rewrite Hk.
      * destruct (removeFrames_spec m r f Hwf Hr) as (m' & E & Hrem & _ & _).
        exists m'. split; [done|]. split; [apply Hrem|].
        intros x Hx. split.
        -- eapply subtree_removed_from_index; [apply Hwf|done..].
        -- by eapply subtree_detached.
Qed.

Lemma detached_target_removes_oop_frame_witness :
  onDetachedFromTarget (Some "F1") (state_of scenario_oop (FrameManager_new S1))
  = Ok (state_of scenario_oop (FrameManager_new S1))
  ∧ ∃ m', onDetachedFromTarget (Some "F2") (state_of scenario_oop (FrameManager_new S1))
          = Ok m'
          ∧ emitted m'
            = emitted (state_of scenario_oop (FrameManager_new S1))
              ++ [FrameDetached 3].
Proof.
  destruct (detached_target_removes_oop_frame (Some "F1")
              (state_of scenario_oop (FrameManager_new S1))) as (_ & _ & H1).
  { apply (bool_decide_unpack _). vm_compute. reflexivity. }
  destruct (detached_target_removes_oop_frame (Some "F2")
              (state_of scenario_oop (FrameManager_new S1))) as (_ & _ & H2).
  { apply (bool_decide_unpack _). vm_compute. reflexivity. }
  split.
  - destruct (H1 "F1" 0
                {| parentFrame := None; url := "https://a.test"; detached := false;
                   frame_client := S1; _id := "F1"; _loaderId := ""; _name := None;
                   _hasStartedLoading := false; _lifecycleEvents := [];
                   _mainWorld := 1; _secondaryWorld := 2; _childFrames := [3] |})
      as (Hsame & _); [vm_compute; reflexivity..|].
    apply Hsame. reflexivity.
  - destruct (H2 "F2" 3 scenario_oop_child) as (_ & Hoop);
      [vm_compute; reflexivity..|].
    destruct Hoop as (_ & m' & E & Hem & _); [discriminate|].
    exists m'. split; [exact E|exact Hem].
Defined.

(** X13.  After a [frameDetached] event with reason [remove], the manager no
    longer reacts to the id of any frame of the removed subtree: a lifecycle
    event, a loading-started or loading-stopped event, a
    navigated-within-document event and a second removal for such an id all
    return with the manager unchanged and emit nothing, and a
    [frameNavigated] event that carries a parent id throws the assertion. *)
Theorem events_for_removed_frames_are_ignored frameId m r x fx :
  wf m → fm_frames m !! frameId = Some r →
  x ∈ subtree m r → frame_store m !! x = Some fx →
  ∃ m', onFrameDetached frameId "remove" m = Ok m'
    ∧ frame (_id fx) m' = None
    ∧ (∀ loaderId name, onLifecycleEvent (_id fx) loaderId name m' = Ok m')
    ∧ onFrameStartedLoading (_id fx) m' = Ok m'
    ∧ onFrameStoppedLoading (_id fx) m' = Ok m'
    ∧ (∀ u, onFrameNavigatedWithinDocument (_id fx) u m' = Ok m')
    ∧ onFrameDetached (_id fx) "remove" m' = Ok m'
    ∧ onDetachedFromTarget (Some (_id fx)) m' = Ok m'
    ∧ (∀ payload,
         payload_id payload = _id fx →
         is_Some (truthy (payload_parentId payload)) →
         onFrameNavigated payload m'
         = Throw (JsError
             "We either navigate top level or have old version of the navigated frame")).
Proof.
  intros Hwf Hk Hx Hfx.
  destruct (wf_indexed_live _ _ _ Hwf Hk) as (f & Hr & _).
  destruct (removeFrames_spec m r f Hwf Hr) as (m' & E & Hrem & _ & _).
  assert (fm_frames m' !! _id fx = None) as Hgone.
  { destruct Hrem as (_ & _ & Hidx & _). rewrite Hidx, decide_True; [done|].
    apply removedIds_elem_of. exists x. split; [done|]. by rewrite Hfx. }
  exists m'. split_and!.
  - unfold onFrameDetached. rewrite decide_True by done. by rewrite Hk.
  - done.
  - intros loaderId name. unfold onLifecycleEvent. by rewrite Hgone.
  - unfold onFrameStartedLoading. by rewrite Hgone.
  - unfold onFrameStoppedLoading. by rewrite Hgone.
  - intros u. unfold onFrameNavigatedWithinDocument. by rewrite Hgone.
  - unfold onFrameDetached. rewrite decide_True by done. by rewrite Hgone.
  - unfold onDetachedFromTarget, truthy. case_decide; [done|]. by rewrite Hgone.
  - intros payload Hid Hp. apply onFrameNavigated_untracked; [done|].
    by rewrite Hid.
Qed.

Lemma events_for_removed_frames_are_ignored_witness :
  ∃ m', onFrameDetached "F2" "remove" (state_of scenario_tree (FrameManager_new S1))
        = Ok m'
    ∧ onLifecycleEvent "F3" "L1" "load" m' = Ok m'
    ∧ onFrameNavigated (navigatedTo "F3" (Some "F2") "https://c.test") m'
      = Throw (JsError
          "We either navigate top level or have old version of the navigated frame").
Proof.
  destruct (events_for_removed_frames_are_ignored "F2"
              (state_of scenario_tree (FrameManager_new S1)) 3 6
              {| parentFrame := Some 3; url := ""; detached := false;
                 frame_client := S1; _id := "F3"; _loaderId := ""; _name := None;
                 _hasStartedLoading := false; _lifecycleEvents := [];
                 _mainWorld := 7; _secondaryWorld := 8; _childFrames := [] |})
    as (m' & E & _ & Hl & _ & _ & _ & _ & _ & Hn).
  { apply (bool_decide_unpack _). vm_compute. reflexivity. }
  { vm_compute. reflexivity. }
  { apply (bool_decide_unpack _). vm_compute. reflexivity. }
  { vm_compute. reflexivity. }
  exists m'. split; [exact E|]. split; [exact (Hl "L1" "load")|].
  apply Hn; [reflexivity|]. vm_compute. eauto.
Defined.

(** ** Lifecycle of a frame *)

Lemma elem_of_names_add x n l : n ∈ names_add x l ↔ n = x ∨ n ∈ l.
Proof.
  unfold names_add. case_decide; [|set_solver].
  split; [by right|]. by intros [ -> |].
Qed.

Lemma names_add_idemp x l : names_add x (names_add x l) = names_add x l.
Proof.
  unfold names_add at 1. rewrite decide_True; [done|].
  apply elem_of_names_add. by left.
Qed.

(** X14.  A lifecycle event for a tracked frame is recorded in that frame
    alone and announced by one [LifecycleEvent]: the name of the event is in
    the frame's set afterwards; [init] empties the set first and stores the
    loader id, any other name keeps the loader id and every name already
    recorded.  Delivering the same event a second time leaves the frames as
    they are after the first.  For an untracked frame id nothing changes. *)
Theorem lifecycle_events_are_recorded frameId loaderId name m :
  (frame frameId m = None → onLifecycleEvent frameId loaderId name m = Ok m)
  ∧ ∀ r f,
      frame frameId m = Some r → frame_store m !! r = Some f →
      ∃ m' f',
        onLifecycleEvent frameId loaderId name m = Ok m'
        ∧ frame_store m' = <[r := f']> (frame_store m)
        ∧ name ∈ _lifecycleEvents f'
        ∧ (name = "init" → _lifecycleEvents f' = ["init"] ∧ _loaderId f' = loaderId)
        ∧ (name ≠ "init" →
           _loaderId f' = _loaderId f
           ∧ ∀ n, n ∈ _lifecycleEvents f' ↔ n = name ∨ n ∈ _lifecycleEvents f)
        ∧ emitted m' = emitted m ++ [LifecycleEvent r]
        ∧ fm_frames m' = fm_frames m ∧ world_store m' = world_store m
        ∧ ∃ m'', onLifecycleEvent frameId loaderId name m' = Ok m''
                 ∧ frame_store m'' = frame_store m'.
Proof.
  unfold frame. split.
  - intros Hk. unfold onLifecycleEvent. by rewrite Hk.
  - intros r f Hk Hr.
    set (f' := Frame_onLifecycleEvent loaderId name f).
    assert (alter (Frame_onLifecycleEvent loaderId name) r (frame_store m)
            = <[r := f']> (frame_store m)) as Halter.
    { apply map_eq. intros x. destruct (decide (x = r)) as [ -> |Hne].
      - by rewrite lookup_alter_eq, lookup_insert_eq, Hr.
      - by rewrite lookup_alter_ne, lookup_insert_ne. }
    eexists _, f'. split_and!.
    + unfold onLifecycleEvent. by rewrite Hk.
    + done.
    + subst f'. simpl. apply elem_of_names_add. by left.
    + intros ->. split; reflexivity.
    + intros Hne. subst f'. simpl. rewrite bool_decide_eq_false_2 by done.
      split; [done|]. intros n. apply elem_of_names_add.
    + done.
    + done.
    + done.
    + eexists. split; [unfold onLifecycleEvent; simpl; by rewrite Hk|].
      simpl. rewrite Halter. apply map_eq. intros x.
      destruct (decide (x = r)) as [ -> |Hne].
      * rewrite lookup_alter_eq, !lookup_insert_eq. simpl. f_equal.
        subst f'. unfold Frame_onLifecycleEvent. simpl.
        case_bool_decide; simpl; [done|]. by rewrite names_add_idemp.
      * by rewrite lookup_alter_ne.
Qed.

Lemma lifecycle_events_are_recorded_witness :
  ∃ m' f',
    onLifecycleEvent "F1" "L1" "load" (state_of scenario_main (FrameManager_new S1)) = Ok m'
    ∧ frame_store m' !! 0 = Some f'
    ∧ "load" ∈ _lifecycleEvents f'
    ∧ emitted m' = emitted (state_of scenario_main (FrameManager_new S1)) ++ [LifecycleEvent 0].
Proof.
  destruct (lifecycle_events_are_recorded "F1" "L1" "load" (state_of scenario_main (FrameManager_new S1))) as (_ & H).
  destruct (H 0 scenario_main_frame) as (m' & f' & E & Hst & Hin & _ & _ & Hem & _);
    [vm_compute; reflexivity..|].
  exists m', f'. split; [exact E|]. split; [|split; [exact Hin|exact Hem]].
  rewrite Hst. apply lookup_insert_eq.
Defined.

(** X15.  A [frameStoppedLoading] event for a tracked frame records
    [DOMContentLoaded] and [load] for that frame, keeps every name already
    recorded, and is announced by one [LifecycleEvent]; a
    [frameStartedLoading] event sets the frame's started-loading flag and
    emits nothing.  Neither touches another frame or the index, and for an
    untracked frame id both change nothing. *)
Theorem loading_events_are_recorded frameId m :
  (frame frameId m = None →
   onFrameStoppedLoading frameId m = Ok m ∧ onFrameStartedLoading frameId m = Ok m)
  ∧ ∀ r f,
      frame frameId m = Some r → frame_store m !! r = Some f →
      (∃ m' f',
         onFrameStoppedLoading frameId m = Ok m'
         ∧ frame_store m' = <[r := f']> (frame_store m)
         ∧ (∀ n, n ∈ _lifecycleEvents f'
                 ↔ n = "DOMContentLoaded" ∨ n = "load" ∨ n ∈ _lifecycleEvents f)
         ∧ _loaderId f' = _loaderId f ∧ _hasStartedLoading f' = _hasStartedLoading f
         ∧ emitted m' = emitted m ++ [LifecycleEvent r]
         ∧ fm_frames m' = fm_frames m)
      ∧ (∃ m' f',
           onFrameStartedLoading frameId m = Ok m'
           ∧ frame_store m' = <[r := f']> (frame_store m)
           ∧ _hasStartedLoading f' = true
           ∧ _lifecycleEvents f' = _lifecycleEvents f
           ∧ emitted m' = emitted m
           ∧ fm_frames m' = fm_frames m).
Proof.
  unfold frame. split.
  - intros Hk. unfold onFrameStoppedLoading, onFrameStartedLoading. by rewrite Hk.
  - intros r f Hk Hr.
    assert (∀ g, alter g r (frame_store m) = <[r := g f]> (frame_store m)) as Halter.
    { intros g. apply map_eq. intros x. destruct (decide (x = r)) as [ -> |Hne].
      - by rewrite lookup_alter_eq, lookup_insert_eq, Hr.
      - by rewrite lookup_alter_ne, lookup_insert_ne. }
    split.
    + eexists _, (Frame_onLoadingStopped f). split_and!.
      * unfold onFrameStoppedLoading. by rewrite Hk.
      * simpl. apply Halter.
      * intros n. simpl. rewrite !elem_of_names_add. naive_solver.
      * done.
      * done.
      * done.
      * done.
    + eexists _, (Frame_onLoadingStarted f). split_and!.
      * unfold onFrameStartedLoading. by rewrite Hk.
      * simpl. apply Halter.
      * done.
      * done.
      * done.
      * done.
Qed.

Lemma loading_events_are_recorded_witness :
  ∃ m' f',
    onFrameStoppedLoading "F1" (state_of scenario_main (FrameManager_new S1)) = Ok m'
    ∧ frame_store m' !! 0 = Some f'
    ∧ "load" ∈ _lifecycleEvents f'
    ∧ emitted m' = emitted (state_of scenario_main (FrameManager_new S1)) ++ [LifecycleEvent 0].
Proof.
  destruct (loading_events_are_recorded "F1" (state_of scenario_main (FrameManager_new S1))) as (_ & H).
  destruct (H 0 scenario_main_frame) as ((m' & f' & E & Hst & Hin & _ & _ & Hem & _) & _);
    [vm_compute; reflexivity..|].
  exists m', f'. split; [exact E|]. split; [|split; [|exact Hem]].
  - rewrite Hst. apply lookup_insert_eq.
  - apply Hin. right. left. reflexivity.
Defined.

(** ** Initialization and frame-tree snapshots *)

Lemma handle_all_Ok events : ∀ m m',
  handle_all events m = (Ok tt, m') ↔ deliver events m = Ok m'.
Proof.
  unfold deliver. induction events as [|event events IH]; intros m m'; simpl.
  - unfold eff_ret. split; [by intros [= <-]|by intros [= <-]].
  - unfold eff_bind, eff_handler. destruct (dispatch event m) as [m1|e|]; simpl.
    + apply IH.
    + split; intros H; discriminate.
    + split; intros H; discriminate.
Qed.

(** X16.  A frame-tree snapshot is handled exactly as the sequence of
    [frameAttached] and [frameNavigated] events it stands for, the frames
    taken parent first and children in their order, up to the first handler
    that throws; it is handled without an exception exactly when all those
    events are. *)
Theorem frame_tree_is_replayed session frameTree m :
  handleFrameTree session frameTree m = handle_all (tree_events session frameTree) m
  ∧ ∀ m', handleFrameTree session frameTree m = (Ok tt, m')
          ↔ deliver (tree_events session frameTree) m = Ok m'.
Proof.
  split; [apply handleFrameTree_replay|].
  intros m'. rewrite handleFrameTree_replay. apply handle_all_Ok.
Qed.

Lemma set_isolatedWorlds_id m : set_isolatedWorlds (fm_isolatedWorlds m) m = m.
Proof. by destruct m. Qed.

Lemma ensureIsolatedWorld_Ok t session name m :
  Page_addScriptToEvaluateOnNewDocument t session name = Fulfilled tt →
  _ensureIsolatedWorld t session name m
  = (Ok tt,
     set_isolatedWorlds
       ({[session_id session +:+ ":" +:+ name]} ∪ fm_isolatedWorlds m) m).
Proof.
  intros Hs.
  destruct (decide (session_id session +:+ ":" +:+ name ∈ fm_isolatedWorlds m))
    as [Hk|Hk].
  - unfold _ensureIsolatedWorld. rewrite decide_True by done.
    replace ({[session_id session +:+ ":" +:+ name]} ∪ fm_isolatedWorlds m)
      with (fm_isolatedWorlds m) by set_solver.
    by rewrite set_isolatedWorlds_id.
  - rewrite ensureIsolatedWorld_fresh by done. by rewrite Hs.
Qed.

(** X17.  When every command of [initialize] succeeds and the events of the
    frame tree are handled without an exception, [initialize] returns, and
    the manager is then as those events leave it, with the utility world
    recorded for the session in addition. *)
Theorem initialize_succeeds t client tree m m1 :
  Page_enable t client = Fulfilled tt →
  Page_getFrameTree t client = Fulfilled tree →
  (client ≠ fm_client m → Target_setAutoAttach t client = Fulfilled tt) →
  Page_setLifecycleEventsEnabled t client = Fulfilled tt →
  Runtime_enable t client = Fulfilled tt →
  Page_addScriptToEvaluateOnNewDocument t client UTILITY_WORLD_NAME = Fulfilled tt →
  (client = fm_client m → NetworkManager_initialize t = Fulfilled tt) →
  deliver (tree_events client tree) m = Ok m1 →
  initialize t client m
  = (Ok tt,
     set_isolatedWorlds
       ({[session_id client +:+ ":" +:+ UTILITY_WORLD_NAME]} ∪ fm_isolatedWorlds m1)
       m1).
Proof.
  intros H1 H2 H3 H4 H5 H6 H7 Htree.
  apply handle_all_Ok in Htree. rewrite <-handleFrameTree_replay in Htree.
  rewrite initialize_catch.
  rewrite (initialize_body_first_ok t client m tree m1) by done.
  unfold initialize_second.
  erewrite eff_bind_ok; [done|].
  erewrite promise_all_head_ok; [|unfold await; by rewrite H4].
  erewrite promise_all_head_ok;
    [|unfold eff_bind at 1, await at 1; rewrite H5; by apply ensureIsolatedWorld_Ok].
  erewrite promise_all_head_ok; [done|].
  case_bool_decide as Hc; [|done]. unfold await. by rewrite H7.
Qed.

Lemma initialize_succeeds_witness :
  initialize quietTransport S1 (FrameManager_new S1)
  = (Ok tt,
     set_isolatedWorlds {[ "S1:__puppeteer_utility_world__" ]}
       (state_of scenario_main (FrameManager_new S1))).
Proof.
  rewrite (initialize_succeeds quietTransport S1
             (FrameTreeNode (navigatedTo "F1" None "https://a.test") None)
             (FrameManager_new S1) (state_of scenario_main (FrameManager_new S1)));
    reflexivity.
Defined.

(** X18.  When one of the commands [initialize] sends first ([Page.enable],
    [Page.getFrameTree], and [Target.setAutoAttach] for a session other than
    the manager's) is rejected, the manager is left exactly as it was: no
    frame is created and nothing is recorded.  [Target.setAutoAttach] is not
    sent for the manager's own session, and [NetworkManager.initialize] is
    not awaited for any other: their outcome has no influence there. *)
Theorem initialize_first_commands t client m :
  ((∃ e, Page_enable t client = Rejected e)
   ∨ (∃ e, Page_getFrameTree t client = Rejected e)
   ∨ (client ≠ fm_client m ∧ ∃ e, Target_setAutoAttach t client = Rejected e) →
   (initialize t client m).2 = m)
  ∧ (client = fm_client m →
     ∀ answer, initialize (with_setAutoAttach answer t) client m = initialize t client m)
  ∧ (client ≠ fm_client m →
     ∀ outcome, initialize (with_networkManager outcome t) client m
                = initialize t client m).
Proof.
  split_and!.
  - intros Hrej. rewrite initialize_catch.
    assert (∃ e, initialize_body t client m = (Throw e, m)) as [e ->].
    { unfold initialize_body, initialize_first. cbv beta zeta.
      unfold eff_bind at 1. simpl.
      unfold eff_bind, await, eff_ret.
      destruct Hrej as [[e H]|[[e H]|[Hne [e H]]]].
      - rewrite H. destruct (Page_getFrameTree t client) as [tree|e'];
          case_bool_decide; try destruct (Target_setAutoAttach t client) as [[]|e''];
          eauto.
      - rewrite H. destruct (Page_enable t client) as [[]|e'];
          case_bool_decide; try destruct (Target_setAutoAttach t client) as [[]|e''];
          eauto.
      - rewrite H, bool_decide_eq_false_2 by done.
        destruct (Page_enable t client) as [[]|e'];
          destruct (Page_getFrameTree t client) as [tree|e'']; eauto. }
    by destruct (initialize_result e).
  - intros Hc answer. unfold initialize, try_catch, initialize_body.
    cbv beta zeta. rewrite !bool_decide_eq_true_2 by done. reflexivity.
  - intros Hc outcome. unfold initialize, try_catch, initialize_body.
    cbv beta zeta. rewrite !bool_decide_eq_false_2 by done. reflexivity.
Qed.

Lemma initialize_first_commands_witness :
  (initialize (with_setAutoAttach (λ _, Rejected otherError) quietTransport) S2
     (state_of scenario_main (FrameManager_new S1))).2
  = (state_of scenario_main (FrameManager_new S1)).
Proof.
  apply (initialize_first_commands
           (with_setAutoAttach (λ _, Rejected otherError) quietTransport) S2 (state_of scenario_main (FrameManager_new S1))).
  right. right. split; [discriminate|]. exists otherError. reflexivity.
Defined.

(** ** The tree of tracked frames *)

Lemma tracked_indexed m k x : index_ok m → fm_frames m !! k = Some x → tracked m x.
Proof.
  intros Hi Hk. pose proof (Hi _ _ Hk) as H. simpl in H.
  destruct (frame_store m !! x) as [fx|] eqn:Hx; [|done].
  injection H as <-. by exists fx.
Qed.

Lemma tracked_same_tree m m' x : same_tree m m' → tracked m x → tracked m' x.
Proof.
  intros (Hidx & _ & Hrel) (fx & Hx & Hk). specialize (Hrel x). rewrite Hx in Hrel.
  inversion Hrel as [? fx' [_ Hid] E1 E2|]. exists fx'. split; [done|].
  by rewrite Hid, Hidx.
Qed.

Lemma tree_ok_same_tree m m' : same_tree m m' → tree_ok m → tree_ok m'.
Proof.
  intros Hsame (H1 & H2 & H3 & H4). pose proof Hsame as (Hidx & Hmf & Hrel).
  assert (∀ x fx', frame_store m' !! x = Some fx' →
            ∃ fx, frame_store m !! x = Some fx ∧ same_links fx fx' ∧ same_id fx fx')
    as Hback.
  { intros x fx' Hx. specialize (Hrel x). rewrite Hx in Hrel.
    inversion Hrel as [fx ? HR E1 E2|]. eauto. }
  split_and!.
  - intros p fp' c Hp Hc. destruct (Hback _ _ Hp) as (fp & Hp0 & [_ Hch] & _).
    rewrite Hch in Hc. eapply tracked_same_tree; [done|]. by eapply H1.
  - intros c fc' p Hc Hp. destruct (Hback _ _ Hc) as (fc & Hc0 & [Hpa _] & _).
    rewrite Hpa in Hp. destruct (H2 _ _ _ Hc0 Hp) as (fp & Hp0 & Hin).
    specialize (Hrel p). rewrite Hp0 in Hrel.
    inversion Hrel as [? fp' [[_ Hch] _] E1 E2|]. exists fp'. by rewrite Hch.
  - intros k x fx' Hk Hx. destruct (Hback _ _ Hx) as (fx & Hx0 & [Hpa _] & _).
    rewrite Hidx in Hk. destruct (H3 _ _ _ Hk Hx0) as [Hm|(p & Hp & Ht)].
    + left. by rewrite Hmf.
    + right. exists p. rewrite Hpa. split; [done|]. by eapply tracked_same_tree.
  - intros p fp' Hp Hne. destruct (Hback _ _ Hp) as (fp & Hp0 & [_ Hch] & _).
    rewrite Hch in Hne. eapply tracked_same_tree; [done|]. by eapply H4.
Qed.

(** A tracked frame hangs under the main frame: when the main frame has no
    children, or there is none, no other frame is tracked. *)
Lemma tracked_is_main m :
  wf m → tree_ok m →
  (∀ r fr, fm_mainFrame m = Some r → frame_store m !! r = Some fr →
           _childFrames fr = []) →
  ∀ x, tracked m x → fm_mainFrame m = Some x.
Proof.
  intros Hwf (H1 & H2 & H3 & H4) Hmain x.
  pose proof Hwf as (_ & _ & _ & _ & _ & _ & Hpa).
  induction (lt_wf x) as [x _ IH]. intros (fx & Hx & Hk).
  destruct (H3 _ _ _ Hk Hx) as [Hm|(p & Hp & Ht)]; [done|]. exfalso.
  destruct (H2 _ _ _ Hx Hp) as (fp & Hfp & Hin).
  pose proof (Hpa _ _ Hx) as Hlt. simpl in Hlt. rewrite Hp in Hlt. simpl in Hlt.
  pose proof (IH p Hlt Ht) as Hmp.
  rewrite (Hmain _ _ Hmp Hfp) in Hin. by apply elem_of_nil in Hin.
Qed.

Lemma pruned_tree_ok L m m' :
  wf m → tree_ok m →
  (∀ x, x ∈ L → tracked m x) →
  (∀ p fp c, p ∈ L → frame_store m !! p = Some fp → c ∈ _childFrames fp → c ∈ L) →
  pruned L m m' → tree_ok m'.
Proof.
  intros Hwf (H1 & H2 & H3 & H4) HL Hclosed (Hmf & Hidx & Hin & Hout).
  pose proof Hwf as (Hi & _).
  assert (∀ x, tracked m x → x ∉ L → tracked m' x) as G1.
  { intros x (fx & Hx & Hk) Hx'. pose proof (Hout x Hx') as Hrel. rewrite Hx in Hrel.
    inversion Hrel as [? fx' (Hid & _) E1 E2|]. exists fx'. split; [done|].
    rewrite Hid, Hidx, decide_False; [done|].
    intros (y & Hy & Hyid)%removedIds_elem_of.
    destruct (HL y Hy) as (fy & Hfy & Hky). rewrite Hfy in Hyid. injection Hyid as Hyid.
    rewrite Hyid, Hk in Hky. injection Hky as ->. done. }
  assert (∀ k x, fm_frames m' !! k = Some x → fm_frames m !! k = Some x ∧ x ∉ L) as G2.
  { intros k x Hk. rewrite Hidx in Hk. case_decide as Hrem; [done|]. split; [done|].
    intros Hx. apply Hrem, removedIds_elem_of. exists x. split; [done|].
    by apply Hi. }
  assert (∀ x fx', x ∈ L → frame_store m' !! x = Some fx' →
            parentFrame fx' = None ∧ _childFrames fx' = []) as G0.
  { intros x fx' Hx Hfx'. rewrite (Hin x Hx) in Hfx'.
    destruct (frame_store m !! x); [|done]. by injection Hfx' as <-. }
  split_and!.
  - intros p fp' c Hp Hc. destruct (decide (p ∈ L)) as [HpL|HpL].
    + destruct (G0 _ _ HpL Hp) as [_ Hnil]. rewrite Hnil in Hc. by apply elem_of_nil in Hc.
    + pose proof (Hout p HpL) as Hrel. rewrite Hp in Hrel.
      inversion Hrel as [fp ? (_ & _ & Hch) E1 E2|]. symmetry in E1.
      apply Hch in Hc as [Hc HcL]. apply G1; [by eapply H1|done].
  - intros c fc' p Hc Hp. destruct (decide (c ∈ L)) as [HcL|HcL].
    + destruct (G0 _ _ HcL Hc) as [Hnone _]. by rewrite Hnone in Hp.
    + pose proof (Hout c HcL) as Hrel. rewrite Hc in Hrel.
      inversion Hrel as [fc ? (_ & Hpa & _) E1 E2|]. symmetry in E1.
      rewrite Hpa in Hp. destruct (H2 _ _ _ E1 Hp) as (fp & Hfp & Hin').
      assert (p ∉ L) as HpL by (intros HpL; apply HcL; by eapply Hclosed).
      pose proof (Hout p HpL) as Hrel'. rewrite Hfp in Hrel'.
      inversion Hrel' as [? fp' (_ & _ & Hch) E3 E4|]. exists fp'.
      split; [done|]. by apply Hch.
  - intros k x fx' Hk Hx. destruct (G2 _ _ Hk) as [Hk0 HxL].
    pose proof (Hout x HxL) as Hrel. rewrite Hx in Hrel.
    inversion Hrel as [fx ? (_ & Hpa & _) E1 E2|]. symmetry in E1.
    destruct (H3 _ _ _ Hk0 E1) as [Hm|(p & Hp & Ht)].
    + left. by rewrite Hmf.
    + right. exists p. rewrite Hpa. split; [done|]. apply G1; [done|].
      destruct (H2 _ _ _ E1 Hp) as (fp & Hfp & Hin').
      intros HpL; apply HxL; by eapply Hclosed.
  - intros p fp' Hp Hne. destruct (decide (p ∈ L)) as [HpL|HpL].
    + destruct (G0 _ _ HpL Hp) as [_ Hnil]. done.
    + pose proof (Hout p HpL) as Hrel. rewrite Hp in Hrel.
      inversion Hrel as [fp ? (_ & _ & Hch) E1 E2|]. symmetry in E1.
      apply G1; [|done]. eapply H4; [done|].
      destruct (_childFrames fp') as [|c l] eqn:Hl; [done|].
      assert (c ∈ _childFrames fp) as Hc by (apply Hch; left).
      intros Hnil. rewrite Hnil in Hc. by apply elem_of_nil in Hc.
Qed.

Lemma postorder_closed bound n h r p fp c :
  children_ok h → below bound h → bound ≤ r + n →
  p ∈ postorder n h r → h !! p = Some fp → c ∈ _childFrames fp →
  c ∈ postorder n h r.
Proof.
  intros Hch Hb Hn Hp Hfp Hc.
  destruct (postorder_children_first bound n h r p fp c) as (l1 & l2 & l3 & ->);
    try done.
  set_solver.
Qed.

Lemma subtree_self m r f : wf m → frame_store m !! r = Some f → r ∈ subtree m r.
Proof.
  intros Hwf Hr. unfold subtree. pose proof (wf_frame_bound _ _ _ Hwf Hr).
  destruct (next_ref m) as [|n]; [lia|]. by eapply postorder_self.
Qed.

Lemma subtree_closed m r p fp c :
  wf m → p ∈ subtree m r → frame_store m !! p = Some fp → c ∈ _childFrames fp →
  c ∈ subtree m r.
Proof.
  intros (_ & Hch & (Hb & _) & _) Hp Hfp Hc.
  eapply (postorder_closed (next_ref m)); try done. lia.
Qed.

Lemma subtree_tracked m r x :
  children_tracked m → tracked m r → x ∈ subtree m r → tracked m x.
Proof.
  intros H1 Hr Hx. destruct (decide (x = r)) as [ -> |Hne]; [done|].
  destruct (postorder_parent _ _ _ _ Hx Hne) as (p & fp & Hp & Hc & _). by eapply H1.
Qed.

Lemma child_live h p fp c :
  children_ok h → h !! p = Some fp → c ∈ _childFrames fp → is_Some (h !! c).
Proof.
  intros Hch Hp Hc. destruct (children_ok_child _ _ _ _ Hch Hp Hc) as [_ H].
  destruct (h !! c); [eauto|done].
Qed.

(** A child of a frame outside a subtree is in the subtree only as its
    root. *)
Lemma child_in_subtree m r x fx c :
  wf m → frame_store m !! x = Some fx → c ∈ _childFrames fx →
  x ∉ subtree m r → c ∈ subtree m r → c = r.
Proof.
  intros (_ & Hch & _) Hx Hc HxL HcL.
  destruct (decide (c = r)) as [|Hne]; [done|]. exfalso.
  destruct (postorder_parent _ _ _ _ HcL Hne) as (p & fp & Hp & Hcp & HpL).
  by rewrite (children_ok_parent_unique _ _ _ _ _ _ Hch Hx Hp Hc Hcp) in HxL.
Qed.

Lemma removal_pruned m m' r f :
  wf m → frame_store m !! r = Some f →
  removal m m' (subtree m r) r → pruned (subtree m r) m m'.
Proof.
  intros Hwf Hr (_ & Hst & Hidx & Hrest). pose proof Hwf as (_ & Hch & _).
  pose proof (subtree_self _ _ _ Hwf Hr) as Hself.
  split_and!.
  - by destruct Hrest as (-> & _).
  - done.
  - intros x Hx. rewrite Hst. unfold removedStore. by rewrite decide_True.
  - intros x Hx. rewrite Hst. unfold removedStore. rewrite decide_False by done.
    destruct (frame_store m !! x) as [fx|] eqn:Hfx; [|case_decide; constructor].
    case_decide as Hpar; simpl; constructor; (split; [done|split; [done|]]); intros c.
    + unfold Frame_without_child, set_delete. simpl. rewrite list_elem_of_filter.
      split.
      * intros [Hne Hc]. split; [done|]. intros HcL. apply Hne.
        by eapply child_in_subtree.
      * intros [Hc HcL]. split; [|done]. by intros ->.
    + split; [|by intros [? _]]. intros Hc. split; [done|]. intros HcL.
      apply Hpar. rewrite <-(child_in_subtree _ _ _ _ _ Hwf Hfx Hc Hx HcL).
      destruct (children_ok_child _ _ _ _ Hch Hfx Hc) as [_ Hp].
      unfold parentOf. destruct (frame_store m !! c) as [fc|]; [|done].
      simpl in *. by injection Hp as ->.
Qed.

Lemma childrenRemoval_pruned m mk r f :
  wf m → frame_store m !! r = Some f →
  childrenRemoval (next_ref m) m mk (_childFrames f) r →
  pruned (_childFrames f ≫= subtree m) m mk.
Proof.
  intros Hwf Hr (_ & Hst & Hidx & Hrest). pose proof Hwf as (_ & Hch & _).
  fold (subtree m) in Hst, Hidx.
  assert (∀ d, d ∈ _childFrames f → d ∈ _childFrames f ≫= subtree m) as Hroots.
  { intros d Hd. apply list_elem_of_bind. exists d. split; [|done].
    destruct (child_live _ _ _ _ Hch Hr Hd) as [fd Hfd]. by eapply subtree_self. }
  assert (r ∉ _childFrames f ≫= subtree m) as HrL.
  { intros Hin. eapply children_subtrees_above in Hin; [|done..]. lia. }
  split_and!.
  - by destruct Hrest as (-> & _).
  - done.
  - intros x Hx. rewrite Hst. unfold childrenRemovedStore. by rewrite decide_True.
  - intros x Hx. rewrite Hst. unfold childrenRemovedStore. rewrite decide_False by done.
    destruct (frame_store m !! x) as [fx|] eqn:Hfx; [|case_decide; constructor].
    case_decide as Hxr; simpl; constructor; (split; [done|split; [done|]]); intros c.
    + subst x. rewrite Hr in Hfx. injection Hfx as <-. simpl.
      rewrite list_elem_of_filter. split; [by intros [? ?]|].
      intros [Hc HcL]. exfalso. by apply HcL, Hroots.
    + split; [|by intros [? _]]. intros Hc. split; [done|].
      intros (d & HcL & Hd)%list_elem_of_bind.
      assert (x ∉ subtree m d) as HxL.
      { intros Hin. apply Hx, list_elem_of_bind. eauto. }
      pose proof (child_in_subtree _ _ _ _ _ Hwf Hfx Hc HxL HcL) as ->.
      by rewrite (children_ok_parent_unique _ _ _ _ _ _ Hch Hr Hfx Hd Hc) in Hxr.
Qed.

Lemma same_tree_refl m : same_tree m m.
Proof.
  split_and!; [done..|]. intros x. destruct (frame_store m !! x); by constructor.
Qed.

Lemma same_tree_trans m1 m2 m3 : same_tree m1 m2 → same_tree m2 m3 → same_tree m1 m3.
Proof.
  intros (Hi1 & Hm1 & Hr1) (Hi2 & Hm2 & Hr2). split_and!; [congruence..|].
  intros x. specialize (Hr1 x). specialize (Hr2 x).
  destruct Hr1 as [f1 f2 ([Hp1 Hc1] & Hid1)|]; inversion Hr2 as [? f3 ([Hp2 Hc2] & Hid2)|];
    constructor. unfold same_links, same_id in *. split_and!; congruence.
Qed.

Lemma same_tree_untouched m m' :
  fm_frames m' = fm_frames m → fm_mainFrame m' = fm_mainFrame m →
  frame_store m' = frame_store m → same_tree m m'.
Proof.
  intros H1 H2 H3. split_and!; [done..|]. rewrite H3.
  intros x. destruct (frame_store m !! x); by constructor.
Qed.

Lemma same_tree_alter r g m m' :
  fm_frames m' = fm_frames m → fm_mainFrame m' = fm_mainFrame m →
  frame_store m' = alter g r (frame_store m) →
  (∀ f, same_links f (g f) ∧ same_id f (g f)) → same_tree m m'.
Proof.
  intros H1 H2 H3 Hg. split_and!; [done..|]. rewrite H3.
  apply frames_related_alter; [|done]. intros f. by split.
Qed.

Lemma same_tree_Frame_updateClient session r m :
  same_tree m (Frame_updateClient session r m).
Proof.
  split_and!; [done..|]. simpl. apply frames_related_alter; intros f; by split.
Qed.

Lemma same_tree_createContext p session cl world m :
  same_tree m (createContext p session cl world m).
Proof.
  pose proof (createContext_frames p session cl world m) as (H1 & H2 & H3 & _).
  by apply same_tree_untouched.
Qed.

Lemma same_tree_clearContext session entry m m' :
  clearContext session entry m = Ok m' → same_tree m m'.
Proof.
  unfold clearContext, deref. destruct (context_store m !! entry.2) as [ctx|]; simpl; [|done].
  destruct (bool_decide (_client ctx ≠ session)); [intros [= <-]; apply same_tree_refl|].
  intros [= <-]. destruct (_world ctx); by apply same_tree_untouched.
Qed.

(** The handlers that leave the tree of frames alone. *)
Lemma same_tree_handlers m m' :
  (∀ frameId u, onFrameNavigatedWithinDocument frameId u m = Ok m' → same_tree m m')
  ∧ (∀ frameId loaderId name,
       onLifecycleEvent frameId loaderId name m = Ok m' → same_tree m m')
  ∧ (∀ frameId, onFrameStartedLoading frameId m = Ok m' → same_tree m m')
  ∧ (∀ frameId, onFrameStoppedLoading frameId m = Ok m' → same_tree m m')
  ∧ (∀ p session, onExecutionContextCreated p session m = Ok m' → same_tree m m')
  ∧ (∀ contextId session,
       onExecutionContextDestroyed contextId session m = Ok m' → same_tree m m')
  ∧ (∀ session, onExecutionContextsCleared session m = Ok m' → same_tree m m')
  ∧ (∀ targetType targetId session,
       onAttachedToTarget targetType targetId session m = Ok m' → same_tree m m').
Proof.
  split_and!.
  - intros frameId u. unfold onFrameNavigatedWithinDocument.
    destruct (fm_frames m !! frameId) as [r|]; intros [= <-]; [|apply same_tree_refl].
    by eapply (same_tree_alter r).
  - intros frameId loaderId name. unfold onLifecycleEvent.
    destruct (fm_frames m !! frameId) as [r|]; intros [= <-]; [|apply same_tree_refl].
    by eapply (same_tree_alter r).
  - intros frameId. unfold onFrameStartedLoading.
    destruct (fm_frames m !! frameId) as [r|]; intros [= <-]; [|apply same_tree_refl].
    by eapply (same_tree_alter r).
  - intros frameId. unfold onFrameStoppedLoading.
    destruct (fm_frames m !! frameId) as [r|]; intros [= <-]; [|apply same_tree_refl].
    by eapply (same_tree_alter r).
  - intros p session. unfold onExecutionContextCreated.
    destruct (contextFrame p m) as [x|].
    + unfold deref. destruct (frame_store m !! x) as [f|]; simpl; [|done].
      destruct (bool_decide (frame_client f ≠ session));
        [intros [= <-]; apply same_tree_refl|].
      destruct (contextWorld p f m) as [world| |]; simpl; try done.
      intros [= <-]. apply same_tree_createContext.
    + intros [= <-]. apply same_tree_createContext.
  - intros contextId session. unfold onExecutionContextDestroyed.
    destruct (fm_contextIdToContext m !! _) as [c|]; [|intros [= <-]; apply same_tree_refl].
    unfold deref. destruct (context_store m !! c) as [ctx|]; simpl; [|done].
    destruct (_world ctx); intros [= <-]; by apply same_tree_untouched.
  - intros session. unfold onExecutionContextsCleared.
    apply (forM_preserves (same_tree m)); [|apply same_tree_refl].
    intros entry s s' Hs E. eapply same_tree_trans; [done|].
    by eapply same_tree_clearContext.
  - intros targetType targetId session. unfold onAttachedToTarget.
    case_decide; [|intros [= <-]; apply same_tree_refl].
    destruct (fm_frames m !! targetId) as [r|]; intros [= <-]; [|apply same_tree_refl].
    apply same_tree_Frame_updateClient.
Qed.

Lemma Frame_new_frames parent frameId session m :
  fm_frames (Frame_new parent frameId session m).2 = fm_frames m.
Proof. unfold Frame_new. by destruct parent. Qed.

Lemma tree_ok_attach session frameId p m :
  wf m → tree_ok m → fm_frames m !! frameId = None → tracked m p →
  tree_ok (set_frames (<[frameId := next_ref m]>
                         (fm_frames (Frame_new (Some p) frameId session m).2))
             (Frame_new (Some p) frameId session m).2).
Proof.
  intros Hwf (H1 & H2 & H3 & H4) Hnew Hp.
  set (n := next_ref m).
  set (m' := set_frames _ _).
  assert (fm_mainFrame m' = fm_mainFrame m) as Hmf
    by apply Frame_new_mainFrame.
  assert (fm_frames m' = <[frameId := n]> (fm_frames m)) as Hidx
    by (subst m'; rewrite Frame_new_frames; reflexivity).
  assert (∀ x, frame_store m' !! x
               = if decide (x = n) then Some (Frame_fresh (Some p) frameId session n)
                 else if decide (x = p) then
                   (λ pf, Frame_set_childFrames (_childFrames pf ++ [n]) pf)
                     <$> frame_store m !! x
                 else frame_store m !! x) as Hst.
  { intros x.
    change (frame_store m' !! x)
      with (frame_store (Frame_new (Some p) frameId session m).2 !! x).
    rewrite Frame_new_store; [|done|].
    - repeat case_decide; try done; congruence.
    - destruct Hp as (fp & Hfp & _). simpl. eauto. }
  clearbody m'.
  assert (frame_store m !! n = None) as Hfresh by (by apply wf_fresh).
  assert (∀ x, tracked m x → tracked m' x) as Hkeep.
  { intros x (fx & Hx & Hk).
    assert (x ≠ n) as Hxn by (intros ->; congruence).
    assert (_id fx ≠ frameId) as Hid by (intros E; rewrite E in Hk; congruence).
    specialize (Hst x). rewrite decide_False in Hst by done.
    case_decide; rewrite Hx in Hst; simpl in Hst; eexists; (split; [done|]); simpl;
      by rewrite Hidx, lookup_insert_ne. }
  assert (tracked m' n) as Hn.
  { eexists. split; [by rewrite Hst, decide_True|]. simpl. rewrite Hidx.
    apply lookup_insert_eq. }
  assert (∀ x fx', frame_store m' !! x = Some fx' → x ≠ n →
            ∃ fx, frame_store m !! x = Some fx ∧ parentFrame fx' = parentFrame fx
                  ∧ (x ≠ p → _childFrames fx' = _childFrames fx)
                  ∧ (x = p → _childFrames fx' = _childFrames fx ++ [n])) as Hold.
  { intros x fx' Hx Hxn. rewrite Hst, decide_False in Hx by done.
    case_decide; destruct (frame_store m !! x) as [fx|]; simpl in Hx; try done;
      injection Hx as <-; eexists; split_and!; done. }
  split_and!.
  - intros q fq' c Hq Hc. destruct (decide (q = n)) as [ -> |Hqn].
    + rewrite Hst, decide_True in Hq by done. injection Hq as <-.
      by apply elem_of_nil in Hc.
    + destruct (Hold _ _ Hq Hqn) as (fq & Hfq & _ & Hne & Heq).
      destruct (decide (q = p)) as [ -> |Hqp].
      * rewrite (Heq eq_refl) in Hc. apply elem_of_app in Hc as [Hc|Hc].
        -- apply Hkeep. by eapply H1.
        -- apply list_elem_of_singleton in Hc as ->. done.
      * rewrite (Hne Hqp) in Hc. apply Hkeep. by eapply H1.
  - intros c fc' q Hc Hq. destruct (decide (c = n)) as [ -> |Hcn].
    + rewrite Hst, decide_True in Hc by done. injection Hc as <-. simpl in Hq.
      injection Hq as <-. destruct Hp as (fp & Hfp & _).
      eexists. split.
      * rewrite Hst, decide_False, decide_True, Hfp by (done || congruence). done.
      * simpl. set_solver.
    + destruct (Hold _ _ Hc Hcn) as (fc & Hfc & Hpa & _). rewrite Hpa in Hq.
      destruct (H2 _ _ _ Hfc Hq) as (fq & Hfq & Hin).
      assert (q ≠ n) as Hqn by (intros ->; congruence).
      rewrite Hst, decide_False by done. case_decide.
      * rewrite Hfq. simpl. eexists. split; [done|]. simpl. set_solver.
      * eauto.
  - intros k x fx' Hk Hx. rewrite Hidx in Hk.
    destruct (decide (k = frameId)) as [ -> |Hne].
    + rewrite lookup_insert_eq in Hk. injection Hk as <-.
      rewrite Hst, decide_True in Hx by done. injection Hx as <-.
      right. exists p. split; [done|]. by apply Hkeep.
    + rewrite lookup_insert_ne in Hk by done.
      assert (x ≠ n) as Hxn.
      { intros ->. destruct (wf_indexed_live _ _ _ Hwf Hk) as (? & ? & _). congruence. }
      destruct (Hold _ _ Hx Hxn) as (fx & Hfx & Hpa & _).
      destruct (H3 _ _ _ Hk Hfx) as [Hm|(q & Hq & Ht)].
      * left. by rewrite Hmf.
      * right. exists q. rewrite Hpa. split; [done|]. by apply Hkeep.
  - intros q fq' Hq Hne. destruct (decide (q = n)) as [ -> |Hqn]; [done|].
    destruct (decide (q = p)) as [ -> |Hqp]; [by apply Hkeep|].
    destruct (Hold _ _ Hq Hqn) as (fq & Hfq & _ & Hsame & _).
    rewrite (Hsame Hqp) in Hne. apply Hkeep. by eapply H4.
Qed.

(** A manager whose only tracked frame is the main frame, no frame having a
    parent or a child. *)
Lemma lone_main_tree_ok m r fr :
  fm_mainFrame m = Some r → frame_store m !! r = Some fr →
  fm_frames m !! _id fr = Some r →
  (∀ k x, fm_frames m !! k = Some x → x = r) →
  (∀ x fx, frame_store m !! x = Some fx →
           _childFrames fx = [] ∧ parentFrame fx = None) →
  tree_ok m.
Proof.
  intros Hmf Hr Hk Honly Hnone. split_and!.
  - intros p fp c Hp Hc. destruct (Hnone _ _ Hp) as [Hnil _]. rewrite Hnil in Hc.
    by apply elem_of_nil in Hc.
  - intros c fc p Hc Hp. destruct (Hnone _ _ Hc) as [_ Hpa]. by rewrite Hpa in Hp.
  - intros k x fx Hkx Hx. left. by rewrite (Honly _ _ Hkx).
  - intros p fp Hp Hne. by destruct (Hnone _ _ Hp) as [Hnil _].
Qed.

Lemma no_links m :
  wf m → tree_ok m →
  (∀ r fr, fm_mainFrame m = Some r → frame_store m !! r = Some fr →
           _childFrames fr = []) →
  (∀ k x, fm_frames m !! k = Some x → fm_mainFrame m = Some x)
  ∧ (∀ x fx, frame_store m !! x = Some fx →
             _childFrames fx = [] ∧ parentFrame fx = None).
Proof.
  intros Hwf Hok Hmain. pose proof (tracked_is_main m Hwf Hok Hmain) as Hlone.
  pose proof Hok as (H1 & H2 & H3 & H4). pose proof Hwf as (Hi & _).
  assert (∀ x fx, frame_store m !! x = Some fx → _childFrames fx = []) as Hnil.
  { intros x fx Hx. destruct (decide (_childFrames fx = [])) as [|Hne]; [done|].
    eapply Hmain; [|done]. apply Hlone. by eapply H4. }
  split.
  - intros k x Hk. apply Hlone. by eapply tracked_indexed.
  - intros x fx Hx. split; [by eapply Hnil|].
    destruct (parentFrame fx) as [p|] eqn:Hp; [|done]. exfalso.
    destruct (H2 _ _ _ Hx Hp) as (fp & Hfp & Hin).
    rewrite (Hnil _ _ Hfp) in Hin. by apply elem_of_nil in Hin.
Qed.

Lemma tree_ok_onFrameNavigated payload m m' :
  wf m → tree_ok m → onFrameNavigated payload m = Ok m' → tree_ok m'.
Proof.
  intros Hwf Hok E. pose proof Hok as (H1 & H2 & H3 & H4).
  destruct (truthy (payload_parentId payload)) as [parentId|] eqn:Hpid.
  - (* a child frame *)
    destruct (fm_frames m !! payload_id payload) as [r|] eqn:Hk.
    + destruct (wf_indexed_live _ _ _ Hwf Hk) as (f & Hr & _).
      destruct (onFrameNavigated_child payload m r f Hwf) as (mk & Ek & Hrem & _ & E');
        [rewrite Hpid; eauto|done..|].
      rewrite E' in E. injection E as <-.
      assert (tree_ok mk) as Hokk.
      { eapply (pruned_tree_ok (_childFrames f ≫= subtree m) m); try done.
        - intros x (d & Hx & Hd)%list_elem_of_bind.
          eapply subtree_tracked; [done| |done]. by eapply H1.
        - intros p fp c (d & Hp & Hd)%list_elem_of_bind Hfp Hc.
          apply list_elem_of_bind. exists d. split; [|done]. by eapply subtree_closed.
        - by eapply childrenRemoval_pruned. }
      eapply tree_ok_same_tree; [|done]. by eapply (same_tree_alter r).
    + rewrite onFrameNavigated_untracked in E; [done|rewrite Hpid; eauto|done].
  - destruct (fm_mainFrame m) as [r|] eqn:Hmf.
    + (* the main frame, again *)
      pose proof Hwf as (_ & _ & _ & _ & _ & Hm & _).
      unfold main_ok in Hm. rewrite Hmf in Hm. destruct Hm as [f Hr].
      destruct (onFrameNavigated_main payload m r f Hwf) as (mk & Ek & Hrem & Hrk & E');
        [done..|].
      rewrite E' in E. injection E as <-.
      assert (wf mk) as Hwfk by (by eapply wf_children_removed).
      assert (tree_ok mk) as Hokk.
      { eapply (pruned_tree_ok (_childFrames f ≫= subtree m) m); try done.
        - intros x (d & Hx & Hd)%list_elem_of_bind.
          eapply subtree_tracked; [done| |done]. by eapply H1.
        - intros p fp c (d & Hp & Hd)%list_elem_of_bind Hfp Hc.
          apply list_elem_of_bind. exists d. split; [|done]. by eapply subtree_closed.
        - by eapply childrenRemoval_pruned. }
      assert (fm_mainFrame mk = Some r) as Hmfk.
      { destruct Hrem as (_ & _ & _ & Hrest). destruct Hrest as (-> & _). done. }
      destruct (no_links mk Hwfk Hokk) as [Honly Hnone].
      { intros r' fr' Hr' Hfr'. rewrite Hmfk in Hr'. injection Hr' as <-.
        rewrite Hrk in Hfr'. by injection Hfr' as <-. }
      eapply (lone_main_tree_ok _ r).
      * done.
      * simpl. by rewrite !lookup_alter_eq, Hrk.
      * simpl. apply lookup_insert_eq.
      * intros k x. simpl. intros Hkx.
        destruct (decide (k = payload_id payload)) as [ -> |Hne].
        -- rewrite lookup_insert_eq in Hkx. by injection Hkx as <-.
        -- rewrite lookup_insert_ne in Hkx by done.
           apply lookup_delete_Some in Hkx as [_ Hkx].
           apply Honly in Hkx. rewrite Hmfk in Hkx. by injection Hkx as <-.
      * intros x fx. simpl. intros Hx.
        destruct (decide (x = r)) as [ -> |Hne].
        -- rewrite !lookup_alter_eq, Hrk in Hx. destruct (Hnone _ _ Hrk) as [_ Hp].
           by injection Hx as <-.
        -- rewrite !lookup_alter_ne in Hx by done. by eapply Hnone.
    + (* the main frame, for the first time *)
      rewrite onFrameNavigated_first in E by done. cbv zeta in E. injection E as <-.
      destruct (no_links m Hwf Hok) as [Honly Hnone]; [by rewrite Hmf|].
      assert (∀ x, frame_store (Frame_new None (payload_id payload) (fm_client m) m).2 !! x
                   = if decide (x = next_ref m) then
                       Some (Frame_fresh None (payload_id payload) (fm_client m) (next_ref m))
                     else frame_store m !! x) as Hst.
      { intros x. rewrite Frame_new_store by done. by repeat case_decide. }
      eapply (lone_main_tree_ok _ (next_ref m)).
      * done.
      * cbn [frame_store emit update_frame set_frame_store set_mainFrame set_frames].
        by rewrite lookup_alter_eq, Hst, decide_True.
      * simpl. apply lookup_insert_eq.
      * intros k x. simpl. intros Hkx.
        destruct (decide (k = payload_id payload)) as [ -> |Hne].
        -- rewrite lookup_insert_eq in Hkx. by injection Hkx as <-.
        -- rewrite lookup_insert_ne in Hkx by done.
           apply Honly in Hkx. by rewrite Hmf in Hkx.
      * intros x fx.
        cbn [frame_store emit update_frame set_frame_store set_mainFrame set_frames].
        intros Hx. destruct (decide (x = next_ref m)) as [ -> |Hne].
        -- rewrite lookup_alter_eq, Hst, decide_True in Hx by done. by injection Hx as <-.
        -- rewrite lookup_alter_ne, Hst, decide_False in Hx by done. by eapply Hnone.
Qed.

Lemma tree_ok_onFrameAttached session frameId parentFrameId m m' :
  wf m → tree_ok m → onFrameAttached session frameId parentFrameId m = Ok m' →
  tree_ok m'.
Proof.
  intros Hwf Hok. unfold onFrameAttached.
  destruct (fm_frames m !! frameId) as [r|] eqn:Hk.
  - unfold deref. destruct (frame_store m !! r) as [f|]; simpl; [|done].
    destruct (Frame_isOOPFrame m f); intros [= <-]; [|done].
    eapply tree_ok_same_tree; [apply same_tree_Frame_updateClient|done].
  - destruct (truthy parentFrameId) as [pid|]; [|done]. cbn [assert bind].
    destruct (fm_frames m !! pid) as [p|] eqn:Hp; [|done]. cbn [assert bind].
    pose proof (tree_ok_attach session frameId p m Hwf Hok Hk) as H.
    pose proof (Frame_new_ref (Some p) frameId session m) as Hr.
    destruct (Frame_new (Some p) frameId session m) as [r m1].
    simpl in Hr. subst r. intros [= <-].
    eapply tree_ok_same_tree; [|apply H].
    + by apply same_tree_untouched.
    + eapply tracked_indexed; [apply Hwf|done].
Qed.

Lemma tree_ok_removeFrames r m m' :
  wf m → tree_ok m → tracked m r → removeFrames r m = Ok m' → tree_ok m'.
Proof.
  intros Hwf Hok Hr E. pose proof Hr as (f & Hf & _).
  destruct (removeFrames_spec m r f Hwf Hf) as (m1 & E1 & Hrem & _ & _).
  rewrite E1 in E. injection E as <-. destruct Hok as (H1 & ?).
  eapply (pruned_tree_ok (subtree m r) m); try done.
  - intros x Hx. by eapply subtree_tracked.
  - intros p fp c Hp Hfp Hc. by eapply subtree_closed.
  - by eapply removal_pruned.
Qed.

Lemma tree_ok_dispatch event m m' :
  wf m → tree_ok m → dispatch event m = Ok m' → tree_ok m'.
Proof.
  intros Hwf Hok.
  destruct (same_tree_handlers m m') as (S1 & S2 & S3 & S4 & S5 & S6 & S7 & S8).
  destruct event as [session frameId parentFrameId|payload|frameId u|frameId reason
                    |frameId|frameId|context session|contextId session|session
                    |frameId loaderId name|targetType targetId session|targetId];
    simpl; intros E.
  - by eapply tree_ok_onFrameAttached.
  - by eapply tree_ok_onFrameNavigated.
  - eapply tree_ok_same_tree; [by eapply S1|done].
  - revert E. unfold onFrameDetached. repeat case_decide.
    + destruct (fm_frames m !! frameId) as [r|] eqn:Hk; [|by intros [= <-]].
      apply tree_ok_removeFrames; [done..|]. eapply tracked_indexed; [apply Hwf|done].
    + intros [= <-]. eapply tree_ok_same_tree; [|done]. by apply same_tree_untouched.
    + by intros [= <-].
  - eapply tree_ok_same_tree; [by eapply S3|done].
  - eapply tree_ok_same_tree; [by eapply S4|done].
  - eapply tree_ok_same_tree; [by eapply S5|done].
  - eapply tree_ok_same_tree; [by eapply S6|done].
  - eapply tree_ok_same_tree; [by eapply S7|done].
  - eapply tree_ok_same_tree; [by eapply S2|done].
  - eapply tree_ok_same_tree; [by eapply S8|done].
  - revert E. unfold onDetachedFromTarget.
    destruct (truthy targetId) as [tid|]; [|by intros [= <-]].
    destruct (fm_frames m !! tid) as [r|] eqn:Hk; [|by intros [= <-]].
    unfold deref. destruct (frame_store m !! r) as [f|]; simpl; [|done].
    destruct (Frame_isOOPFrame m f); [|by intros [= <-]].
    apply tree_ok_removeFrames; [done..|]. eapply tracked_indexed; [apply Hwf|done].
Qed.

Lemma tree_ok_new client : tree_ok (FrameManager_new client).
Proof. split_and!; intros ?; intros; simpl in *; by simplify_map_eq. Qed.

(** Every state of a manager that handles events and is initialized has a
    well-formed tree of tracked frames. *)
Lemma attainable_tree_ok m : attainable m → wf m ∧ tree_ok m.
Proof.
  assert (∀ g s, wf s ∧ tree_ok s →
            wf (set_isolatedWorlds g s) ∧ tree_ok (set_isolatedWorlds g s)) as Hset.
  { intros g s [Hwf Hok]. split; [by apply wf_set_isolatedWorlds|].
    eapply tree_ok_same_tree; [|done]. by apply same_tree_untouched. }
  assert (∀ event s s', wf s ∧ tree_ok s → dispatch event s = Ok s' →
            wf s' ∧ tree_ok s') as Hstep.
  { intros event s s' [Hwf Hok] E. split; [by eapply wf_dispatch|].
    by eapply tree_ok_dispatch. }
  induction 1 as [client|event m m' _ IH E|t client m _ IH|t session name m _ IH].
  - split; [apply wf_new|apply tree_ok_new].
  - by eapply Hstep.
  - by apply (initialize_preserves (λ s, wf s ∧ tree_ok s)).
  - by apply (ensureIsolatedWorld_preserves (λ s, wf s ∧ tree_ok s)).
Qed.

Lemma pruned_index L m m' k x :
  index_ok m → (∀ y, y ∈ L → tracked m y) → pruned L m m' →
  fm_frames m' !! k = Some x ↔ fm_frames m !! k = Some x ∧ x ∉ L.
Proof.
  intros Hi HL (_ & Hidx & _). rewrite Hidx. split.
  - case_decide as Hrem; [done|]. intros Hk. split; [done|].
    intros Hx. apply Hrem, removedIds_elem_of. exists x. split; [done|]. by apply Hi.
  - intros [Hk Hx]. rewrite decide_False; [done|].
    intros (y & Hy & Hyid)%removedIds_elem_of.
    destruct (HL y Hy) as (fy & Hfy & Hky). rewrite Hfy in Hyid. injection Hyid as Hyid.
    rewrite Hyid, Hk in Hky. by injection Hky as ->.
Qed.

(** Every tracked frame is in the subtree of the main frame. *)
Lemma tracked_in_main_subtree m :
  wf m → tree_ok m →
  ∀ x, tracked m x →
       ∃ r, fm_mainFrame m = Some r ∧ tracked m r ∧ x ∈ subtree m r.
Proof.
  intros Hwf (H1 & H2 & H3 & H4) x.
  pose proof Hwf as (_ & _ & _ & _ & _ & _ & Hpa).
  induction (lt_wf x) as [x _ IH]. intros Hx. pose proof Hx as (fx & Hfx & Hk).
  destruct (H3 _ _ _ Hk Hfx) as [Hm|(p & Hp & Ht)].
  - exists x. split_and!; [done..|]. by eapply subtree_self.
  - destruct (H2 _ _ _ Hfx Hp) as (fp & Hfp & Hin).
    pose proof (Hpa _ _ Hfx) as Hlt. simpl in Hlt. rewrite Hp in Hlt. simpl in Hlt.
    destruct (IH p Hlt Ht) as (r & Hr & Htr & Hsub).
    exists r. split_and!; [done..|]. by eapply subtree_closed.
Qed.

(** ** The shape of the frame tree *)

(** X19.  In every state of a manager that handles events and is
    initialized, child sets and parent links agree: a frame in the child set
    of a frame has that frame as its parent and is tracked under its own id,
    and a frame that has a parent is in the child set of that parent.  No
    frame is listed twice in a child set, and no frame is among its own
    descendants. *)
Theorem children_and_parents_agree m :
  attainable m →
  (∀ p fp c, frame_store m !! p = Some fp → c ∈ _childFrames fp →
     ∃ fc, frame_store m !! c = Some fc ∧ parentFrame fc = Some p
           ∧ frame (_id fc) m = Some c)
  ∧ (∀ c fc p, frame_store m !! c = Some fc → parentFrame fc = Some p →
       ∃ fp, frame_store m !! p = Some fp ∧ c ∈ _childFrames fp)
  ∧ (∀ p fp, frame_store m !! p = Some fp →
       NoDup (_childFrames fp) ∧ p ∉ _childFrames fp ≫= subtree m).
Proof.
  intros [Hwf (H1 & H2 & H3 & H4)]%attainable_tree_ok.
  pose proof Hwf as (_ & Hch & _). split_and!.
  - intros p fp c Hp Hc. destruct (H1 _ _ _ Hp Hc) as (fc & Hfc & Hk).
    exists fc. split_and!; [done| |done].
    destruct (children_ok_child _ _ _ _ Hch Hp Hc) as [_ Hpa].
    rewrite Hfc in Hpa. by injection Hpa.
  - done.
  - intros p fp Hp. split; [by destruct (Hch _ _ Hp)|].
    intros Hin. eapply children_subtrees_above in Hin; [|done..]. lia.
Qed.

Lemma scenario_tree_attainable : attainable (state_of scenario_tree (FrameManager_new S1)).
Proof.
  apply (attainable_deliver
           [ Page_frameNavigated (navigatedTo "F1" None "https://a.test");
             Page_frameAttached S1 "F2" (Some "F1");
             Page_frameAttached S1 "F3" (Some "F2");
             Page_frameAttached S1 "F4" (Some "F1") ] (FrameManager_new S1));
    [apply attainable_new|vm_compute; reflexivity].
Qed.

Lemma children_and_parents_agree_witness :
  ∃ fc, frame_store (state_of scenario_tree (FrameManager_new S1)) !! 6 = Some fc
        ∧ parentFrame fc = Some 3
        ∧ frame (_id fc) (state_of scenario_tree (FrameManager_new S1)) = Some 6.
Proof.
  destruct (children_and_parents_agree (state_of scenario_tree (FrameManager_new S1))
              scenario_tree_attainable) as (Hchild & _).
  apply (Hchild 3 {| parentFrame := Some 0; url := ""; detached := false;
                     frame_client := S1; _id := "F2"; _loaderId := ""; _name := None;
                     _hasStartedLoading := false; _lifecycleEvents := [];
                     _mainWorld := 4; _secondaryWorld := 5; _childFrames := [6] |}).
  - vm_compute. reflexivity.
  - apply list_elem_of_singleton. reflexivity.
Defined.

(** X20.  In every state of a manager that handles events and is
    initialized, the tracked frames are exactly the frames of the main
    frame's subtree, as long as the main frame is tracked itself; when it is
    not (there is none yet, or it has been removed) no frame is tracked at
    all. *)
Theorem tracked_frames_are_the_main_subtree m :
  attainable m →
  (∀ frameId x, frame frameId m = Some x →
     ∃ r fr, fm_mainFrame m = Some r ∧ frame_store m !! r = Some fr
             ∧ frame (_id fr) m = Some r ∧ x ∈ subtree m r)
  ∧ (∀ r fr x fx,
       fm_mainFrame m = Some r → frame_store m !! r = Some fr →
       frame (_id fr) m = Some r →
       x ∈ subtree m r → frame_store m !! x = Some fx →
       frame (_id fx) m = Some x).
Proof.
  intros [Hwf Hok]%attainable_tree_ok. pose proof Hok as (H1 & _).
  pose proof Hwf as (Hi & _). split.
  - intros k x Hk.
    destruct (tracked_in_main_subtree m Hwf Hok x) as (r & Hr & (fr & Hfr & Hkr) & Hsub);
      [by eapply tracked_indexed|].
    by exists r, fr.
  - intros r fr x fx Hr Hfr Hkr Hx Hfx.
    destruct (subtree_tracked m r x H1) as (fx' & Hfx' & Hkx); [by exists fr|done|].
    rewrite Hfx in Hfx'. by injection Hfx' as <-.
Qed.

Lemma tracked_frames_are_the_main_subtree_witness :
  ∃ r, fm_mainFrame (state_of scenario_tree (FrameManager_new S1)) = Some r
       ∧ 6 ∈ subtree (state_of scenario_tree (FrameManager_new S1)) r.
Proof.
  destruct (tracked_frames_are_the_main_subtree
              (state_of scenario_tree (FrameManager_new S1))
              scenario_tree_attainable) as (Hsub & _).
  destruct (Hsub "F3" 6) as (r & fr & Hr & _ & _ & Hin); [vm_compute; reflexivity|].
  exists r. split; [exact Hr|exact Hin].
Defined.

Lemma children_subtrees_tracked m r f x :
  children_tracked m → frame_store m !! r = Some f →
  x ∈ _childFrames f ≫= subtree m → tracked m x.
Proof.
  intros H1 Hr (d & Hx & Hd)%list_elem_of_bind.
  eapply subtree_tracked; [done| |done]. by eapply H1.
Qed.

(** X21.  A [frameNavigated] event that carries a parent id and names a
    tracked frame keeps that frame: it stays in the index under its id, with
    its parent, takes the name and the url of the payload and loses its
    children.  Exactly the frames below it leave the index; each of them is
    marked detached and announced by [FrameDetached], children before
    parents, before [FrameNavigated] is emitted for the frame itself.  No
    other frame changes, and the main frame stays what it was. *)
Theorem child_frame_navigation payload m r f :
  attainable m → is_Some (truthy (payload_parentId payload)) →
  frame (payload_id payload) m = Some r → frame_store m !! r = Some f →
  ∃ m', onFrameNavigated payload m = Ok m'
    ∧ frame_store m' !! r
      = Some (Frame_navigated payload (Frame_set_childFrames [] f))
    ∧ frame (payload_id payload) m' = Some r
    ∧ (∀ k x, frame k m' = Some x
              ↔ frame k m = Some x ∧ x ∉ _childFrames f ≫= subtree m)
    ∧ (∀ x, x ∈ _childFrames f ≫= subtree m →
            detached <$> frame_store m' !! x = Some true)
    ∧ (∀ x, x ≠ r → x ∉ _childFrames f ≫= subtree m →
            frame_store m' !! x = frame_store m !! x)
    ∧ mainFrame m' = mainFrame m
    ∧ emitted m'
      = emitted m ++ (FrameDetached <$> (_childFrames f ≫= subtree m))
        ++ [FrameNavigated r].
Proof.
  intros [Hwf Hok]%attainable_tree_ok Hpid Hk Hr. unfold frame in *.
  pose proof Hok as (H1 & _). pose proof Hwf as (Hi & Hch & _).
  destruct (onFrameNavigated_child payload m r f Hwf) as (mk & Ek & Hrem & Hrk & E);
    [done..|].
  pose proof (childrenRemoval_pruned m mk r f Hwf Hr Hrem) as Hpr.
  pose proof Hrem as (Hem & Hst & _ & Hrest). fold (subtree m) in Hem, Hst.
  assert (r ∉ _childFrames f ≫= subtree m) as HrL.
  { intros Hin. eapply children_subtrees_above in Hin; [|done..]. lia. }
  assert (∀ k x, fm_frames mk !! k = Some x
                 ↔ fm_frames m !! k = Some x ∧ x ∉ _childFrames f ≫= subtree m) as Hidx.
  { intros k x. apply pruned_index; [done| |done].
    intros y Hy. by eapply children_subtrees_tracked. }
  eexists. split; [exact E|]. simpl. split_and!.
  - by rewrite lookup_alter_eq, Hrk.
  - by apply Hidx.
  - done.
  - intros x Hx. rewrite lookup_alter_ne by (by intros ->).
    rewrite Hst. unfold childrenRemovedStore. rewrite decide_True by done.
    destruct (children_subtrees_tracked m r f x H1 Hr Hx) as (fx & -> & _). done.
  - intros x Hne Hx. rewrite lookup_alter_ne by done.
    rewrite Hst. unfold childrenRemovedStore. by rewrite !decide_False.
  - unfold mainFrame. simpl. by destruct Hrest as (-> & _).
  - by rewrite Hem, <-app_assoc.
Qed.

Lemma child_frame_navigation_witness :
  ∃ m', onFrameNavigated (navigatedTo "F2" (Some "F1") "https://c.test")
          (state_of scenario_tree (FrameManager_new S1)) = Ok m'
    ∧ frame "F2" m' = Some 3
    ∧ emitted m'
      = emitted (state_of scenario_tree (FrameManager_new S1))
        ++ [FrameDetached 6; FrameNavigated 3].
Proof.
  destruct (child_frame_navigation (navigatedTo "F2" (Some "F1") "https://c.test")
              (state_of scenario_tree (FrameManager_new S1)) 3
              {| parentFrame := Some 0; url := ""; detached := false;
                 frame_client := S1; _id := "F2"; _loaderId := ""; _name := None;
                 _hasStartedLoading := false; _lifecycleEvents := [];
                 _mainWorld := 4; _secondaryWorld := 5; _childFrames := [6] |})
    as (m' & E & _ & Hk & _ & _ & _ & _ & Hem).
  { apply scenario_tree_attainable. }
  { vm_compute. eauto. }
  { vm_compute. reflexivity. }
  { vm_compute. reflexivity. }
  exists m'. split; [exact E|]. split; [exact Hk|exact Hem].
Defined.

(** X22.  A [frameDetached] event with reason [remove] takes exactly the
    frames of the subtree out of the index and out of the tree: a key
    resolves afterwards as before unless it resolved to a frame of the
    subtree, every frame of the subtree is left detached with no parent and
    no children, the parent of the removed frame loses that one child, and
    every other frame is untouched. *)
Theorem frame_detached_removes_exactly_the_subtree frameId m r :
  attainable m → frame frameId m = Some r →
  ∃ m', onFrameDetached frameId "remove" m = Ok m'
    ∧ (∀ k x, frame k m' = Some x ↔ frame k m = Some x ∧ x ∉ subtree m r)
    ∧ (∀ x fx, x ∈ subtree m r → frame_store m !! x = Some fx →
         frame_store m' !! x = Some (Frame_removed fx))
    ∧ (∀ p fp, parentOf (frame_store m) r = Some p → frame_store m !! p = Some fp →
         frame_store m' !! p = Some (Frame_without_child r fp))
    ∧ (∀ x, x ∉ subtree m r → parentOf (frame_store m) r ≠ Some x →
         frame_store m' !! x = frame_store m !! x)
    ∧ attainable m'.
Proof.
  intros Hatt Hk. pose proof (attainable_tree_ok m Hatt) as [Hwf Hok].
  unfold frame in *. pose proof Hok as (H1 & _). pose proof Hwf as (Hi & Hch & _).
  destruct (wf_indexed_live _ _ _ Hwf Hk) as (f & Hr & _).
  destruct (removeFrames_spec m r f Hwf Hr) as (m' & E & Hrem & _ & Hself).
  pose proof (removal_pruned m m' r f Hwf Hr Hrem) as Hpr.
  pose proof Hrem as (_ & Hst & _).
  assert (onFrameDetached frameId "remove" m = Ok m') as E'.
  { unfold onFrameDetached. rewrite decide_True by done. by rewrite Hk. }
  exists m'. split_and!.
  - done.
  - intros k x. apply pruned_index; [done| |done].
    intros y Hy. eapply subtree_tracked; [done| |done]. by eapply tracked_indexed.
  - intros x fx Hx Hfx. rewrite Hst. unfold removedStore.
    by rewrite decide_True, Hfx by done.
  - intros p fp Hp Hfp. rewrite Hst. unfold removedStore.
    rewrite decide_False, decide_True, Hfp; [done..|].
    intros Hin. pose proof (postorder_ge _ _ _ _ Hch Hin) as Hge.
    unfold parentOf in Hp. rewrite Hr in Hp. simpl in Hp.
    pose proof Hwf as (_ & _ & _ & _ & _ & _ & Hpa).
    pose proof (Hpa _ _ Hr) as Hlt. simpl in Hlt. rewrite Hp in Hlt. simpl in Hlt. lia.
  - intros x Hx Hp. rewrite Hst. unfold removedStore. by rewrite !decide_False.
  - by eapply (attainable_dispatch (Page_frameDetached frameId "remove")).
Qed.

Lemma frame_detached_removes_exactly_the_subtree_witness :
  ∃ m', onFrameDetached "F2" "remove"
          (state_of scenario_tree (FrameManager_new S1)) = Ok m'
    ∧ frame "F4" m' = Some 9 ∧ frame "F1" m' = Some 0.
Proof.
  destruct (frame_detached_removes_exactly_the_subtree "F2"
              (state_of scenario_tree (FrameManager_new S1)) 3)
    as (m' & E & Hidx & _).
  { apply scenario_tree_attainable. }
  { vm_compute. reflexivity. }
  exists m'. split; [exact E|].
  split; apply Hidx;
    (split; [vm_compute; reflexivity|apply (bool_decide_unpack _); vm_compute; reflexivity]).
Defined.

Lemma main_frame_after_navigation payload m m' r :
  onFrameNavigated payload m = Ok m' → fm_mainFrame m = Some r → mainFrame m' = Ok r.
Proof.
  intros E Hmf. unfold mainFrame.
  by rewrite (dispatch_mainFrame (Page_frameNavigated payload) m m' r E Hmf).
Qed.

Lemma top_level_navigation payload m :
  wf m → tree_ok m → truthy (payload_parentId payload) = None →
  ∃ m' r, onFrameNavigated payload m = Ok m'
    ∧ mainFrame m' = Ok r
    ∧ fm_frames m' = {[payload_id payload := r]}
    ∧ frames m' = [r]
    ∧ (∀ x fx, frame_store m' !! x = Some fx →
         _childFrames fx = [] ∧ parentFrame fx = None).
Proof.
  intros Hwf Hok Hpid.
  assert (∀ m' r, fm_frames m' = {[payload_id payload := r]} → frames m' = [r])
    as Hframes.
  { intros m' r Hidx. unfold frames. rewrite Hidx. by rewrite map_to_list_singleton. }
  destruct (fm_mainFrame m) as [r|] eqn:Hmf.
  - pose proof Hwf as (_ & _ & _ & _ & _ & Hm & _).
    unfold main_ok in Hm. rewrite Hmf in Hm. destruct Hm as [f Hr].
    destruct (onFrameNavigated_main payload m r f Hwf) as (mk & Ek & Hrem & Hrk & E);
      [done..|].
    assert (wf mk) as Hwfk by (by eapply wf_children_removed).
    assert (tree_ok mk) as Hokk.
    { pose proof Hok as (H1 & _).
      eapply (pruned_tree_ok (_childFrames f ≫= subtree m) m); try done.
      - intros x Hx. by eapply children_subtrees_tracked.
      - intros p fp c (d & Hp & Hd)%list_elem_of_bind Hfp Hc.
        apply list_elem_of_bind. exists d. split; [|done]. by eapply subtree_closed.
      - by eapply childrenRemoval_pruned. }
    assert (fm_mainFrame mk = Some r) as Hmfk.
    { destruct Hrem as (_ & _ & _ & Hrest). destruct Hrest as (-> & _). done. }
    destruct (no_links mk Hwfk Hokk) as [Honly Hnone].
    { intros r' fr' Hr' Hfr'. rewrite Hmfk in Hr'. injection Hr' as <-.
      rewrite Hrk in Hfr'. by injection Hfr' as <-. }
    assert (<[payload_id payload := r]> (delete (_id f) (fm_frames mk))
            = {[payload_id payload := r]}) as Hidx.
    { apply map_eq. intros k. destruct (decide (k = payload_id payload)) as [ -> |Hne].
      - by rewrite lookup_insert_eq, lookup_singleton_eq.
      - rewrite lookup_insert_ne, lookup_singleton_ne by done.
        destruct (decide (k = _id f)) as [ -> |Hne']; [apply lookup_delete_eq|].
        rewrite lookup_delete_ne by done.
        destruct (fm_frames mk !! k) as [x|] eqn:Hk; [|done]. exfalso.
        pose proof (Honly _ _ Hk) as Hx. rewrite Hmfk in Hx. injection Hx as <-.
        pose proof Hwfk as (Hik & _). apply Hik in Hk. simpl in Hk.
        rewrite Hrk in Hk. simpl in Hk. by injection Hk. }
    eexists _, r. split; [exact E|]. simpl. split_and!.
    + done.
    + done.
    + by apply Hframes.
    + intros x fx Hx. destruct (decide (x = r)) as [ -> |Hne].
      * rewrite !lookup_alter_eq, Hrk in Hx. destruct (Hnone _ _ Hrk) as [_ Hp].
        by injection Hx as <-.
      * rewrite !lookup_alter_ne in Hx by done. by eapply Hnone.
  - destruct (no_links m Hwf Hok) as [Honly Hnone]; [by rewrite Hmf|].
    assert (<[payload_id payload := next_ref m]> (fm_frames m)
            = {[payload_id payload := next_ref m]}) as Hidx.
    { apply map_eq. intros k. destruct (decide (k = payload_id payload)) as [ -> |Hne].
      - by rewrite lookup_insert_eq, lookup_singleton_eq.
      - rewrite lookup_insert_ne, lookup_singleton_ne by done.
        destruct (fm_frames m !! k) as [x|] eqn:Hk; [|done].
        apply Honly in Hk. by rewrite Hmf in Hk. }
    assert (∀ x, frame_store (Frame_new None (payload_id payload) (fm_client m) m).2 !! x
                 = if decide (x = next_ref m) then
                     Some (Frame_fresh None (payload_id payload) (fm_client m) (next_ref m))
                   else frame_store m !! x) as Hst.
    { intros x. rewrite Frame_new_store by done. by repeat case_decide. }
    eexists _, (next_ref m). split; [by apply onFrameNavigated_first|].
    cbv zeta.
    cbn [mainFrame fm_mainFrame fm_frames frame_store emit update_frame set_frame_store
         set_mainFrame set_frames assert].
    rewrite Frame_new_frames. split_and!.
    + done.
    + done.
    + apply Hframes. exact Hidx.
    + intros x fx Hx. destruct (decide (x = next_ref m)) as [ -> |Hne].
      * rewrite lookup_alter_eq, Hst, decide_True in Hx by done. by injection Hx as <-.
      * rewrite lookup_alter_ne, Hst, decide_False in Hx by done. by eapply Hnone.
Qed.

(** X23.  After a [frameNavigated] event without a parent id the index holds
    the main frame, under the id of the payload, and nothing else: every
    frame that was tracked before has been removed, [frames()] is the main
    frame alone, and no frame object is left with a parent or a child. *)
Theorem top_level_navigation_leaves_main_alone payload m :
  attainable m → truthy (payload_parentId payload) = None →
  ∃ m' r, onFrameNavigated payload m = Ok m'
    ∧ mainFrame m' = Ok r
    ∧ fm_frames m' = {[payload_id payload := r]}
    ∧ frames m' = [r]
    ∧ (∀ x fx, frame_store m' !! x = Some fx →
         _childFrames fx = [] ∧ parentFrame fx = None).
Proof. intros [Hwf Hok]%attainable_tree_ok. by apply top_level_navigation. Qed.

Lemma top_level_navigation_leaves_main_alone_witness :
  ∃ m', onFrameNavigated crossProcessPayload
          (state_of scenario_tree (FrameManager_new S1)) = Ok m'
    ∧ frames m' = [0].
Proof.
  destruct (top_level_navigation_leaves_main_alone crossProcessPayload
              (state_of scenario_tree (FrameManager_new S1)))
    as (m' & r & E & Hmain & _ & Hframes & _).
  { apply scenario_tree_attainable. }
  { reflexivity. }
  exists m'. split; [exact E|].
  assert (r = 0) as ->; [|exact Hframes].
  revert Hmain. rewrite (main_frame_after_navigation _ _ _ 0 E); [by intros [= <-]|].
  vm_compute. reflexivity.
Defined.

(** X3.  A [frameDetached] event with reason [remove] for the main frame
    empties the index but does not clear [#mainFrame]: [mainFrame()] goes on
    returning the removed frame, which is marked detached.  The next
    top-level navigation puts that same object back into the index, alone,
    under the id of the payload, and it stays marked detached. *)
Theorem removed_main_frame_stays_main frameId payload m r :
  attainable m → fm_mainFrame m = Some r → frame frameId m = Some r →
  truthy (payload_parentId payload) = None →
  ∃ m1 m2,
    onFrameDetached frameId "remove" m = Ok m1
    ∧ mainFrame m1 = Ok r
    ∧ detached <$> frame_store m1 !! r = Some true
    ∧ fm_frames m1 = ∅
    ∧ onFrameNavigated payload m1 = Ok m2
    ∧ mainFrame m2 = Ok r
    ∧ fm_frames m2 = {[payload_id payload := r]}
    ∧ detached <$> frame_store m2 !! r = Some true.
Proof.
  intros [Hwf Hok]%attainable_tree_ok Hmf Hk Hmain. unfold frame in Hk.
  pose proof Hok as (H1 & _). pose proof Hwf as (Hi & _).
  destruct (wf_indexed_live _ _ _ Hwf Hk) as (f & Hr & _).
  destruct (removeFrames_spec m r f Hwf Hr) as (m1 & E1 & Hrem & Hwf1 & Hin).
  pose proof (removal_pruned m m1 r f Hwf Hr Hrem) as Hpr.
  assert (∀ y, y ∈ subtree m r → tracked m y) as HL.
  { intros y Hy. eapply subtree_tracked; [done| |done]. by eapply tracked_indexed. }
  assert (tree_ok m1) as Hok1.
  { eapply (pruned_tree_ok (subtree m r) m); try done.
    intros p fp c Hp Hfp Hc. by eapply subtree_closed. }
  pose proof Hrem as (_ & Hst & _ & Hrest).
  assert (fm_mainFrame m1 = Some r) as Hmf1 by (by destruct Hrest as (-> & _)).
  assert (frame_store m1 !! r = Some (Frame_removed f)) as Hr1.
  { rewrite Hst. unfold removedStore. rewrite decide_True by done. by rewrite Hr. }
  destruct (top_level_navigation payload m1 Hwf1 Hok1 Hmain)
    as (m2 & r2 & E2 & Hmain2 & Hidx2 & _).
  assert (r2 = r) as ->.
  { rewrite (main_frame_after_navigation _ _ _ r E2 Hmf1) in Hmain2.
    by injection Hmain2. }
  exists m1, m2. split_and!.
  - unfold onFrameDetached. rewrite decide_True by done. by rewrite Hk.
  - unfold mainFrame. by rewrite Hmf1.
  - by rewrite Hr1.
  - apply map_eq. intros k. rewrite lookup_empty.
    destruct (fm_frames m1 !! k) as [x|] eqn:Hx; [|done]. exfalso.
    apply (pruned_index (subtree m r) m m1 k x Hi HL Hpr) in Hx as [Hx HxL].
    destruct (tracked_in_main_subtree m Hwf Hok x) as (r' & Hr' & _ & Hsub);
      [by eapply tracked_indexed|].
    rewrite Hmf in Hr'. by injection Hr' as <-.
  - done.
  - done.
  - done.
  - revert E2. destruct (onFrameNavigated_main payload m1 r (Frame_removed f) Hwf1)
      as (mk & _ & _ & Hrk & E2'); [done..|].
    rewrite E2'. intros [= <-]. simpl. by rewrite !lookup_alter_eq, Hrk.
Qed.

Lemma removed_main_frame_stays_main_witness :
  ∃ m1 m2,
    onFrameDetached "F1" "remove" (state_of scenario_tree (FrameManager_new S1)) = Ok m1
    ∧ mainFrame m1 = Ok 0
    ∧ fm_frames m1 = ∅
    ∧ onFrameNavigated crossProcessPayload m1 = Ok m2
    ∧ frame "G1" m2 = Some 0
    ∧ detached <$> frame_store m2 !! 0 = Some true.
Proof.
  destruct (removed_main_frame_stays_main "F1" crossProcessPayload
              (state_of scenario_tree (FrameManager_new S1)) 0)
    as (m1 & m2 & E1 & H1 & _ & Hempty & E2 & _ & H2 & H3).
  { apply scenario_tree_attainable. }
  { vm_compute. reflexivity. }
  { vm_compute. reflexivity. }
  { reflexivity. }
  exists m1, m2. split; [exact E1|]. split; [exact H1|]. split; [exact Hempty|].
  split; [exact E2|]. split; [|exact H3].
  unfold frame. rewrite H2. apply lookup_singleton_eq.
Defined.

(** ** Materializing a snapshot *)

Lemma tree_events_frames session frameTree :
  tree_events session frameTree = tree_frames frameTree ≫= frame_events session.
Proof.
  induction frameTree as [frame|frame children IH] using FrameTree_forall_ind.
  - simpl. unfold frame_events. by rewrite app_nil_r.
  - simpl. unfold frame_events at 1. rewrite <-app_assoc. f_equal. simpl. f_equal.
    induction IH as [|c cs Hc _ IHcs]; [done|].
    rewrite bind_app. by rewrite Hc, IHcs.
Qed.

Lemma deliver_app l1 l2 m :
  deliver (l1 ++ l2) m = let* m1 := deliver l1 m in deliver l2 m1.
Proof.
  unfold deliver. revert m. induction l1 as [|e l1 IH]; intros m; simpl; [done|].
  destruct (dispatch e m); simpl; [apply IH|done..].
Qed.

Lemma onFrameAttached_new session frameId parentFrameId pid p m :
  fm_frames m !! frameId = None → truthy parentFrameId = Some pid →
  fm_frames m !! pid = Some p →
  onFrameAttached session frameId parentFrameId m
  = Ok (emit (FrameAttached (next_ref m))
          (set_frames (<[frameId := next_ref m]> (fm_frames m))
             (Frame_new (Some p) frameId session m).2)).
Proof.
  intros Hk Hpid Hp. unfold onFrameAttached. rewrite Hk, Hpid. cbn [assert bind].
  rewrite Hp. cbn [assert bind].
  pose proof (Frame_new_ref (Some p) frameId session m) as Hr.
  pose proof (Frame_new_frames (Some p) frameId session m) as Hf.
  destruct (Frame_new (Some p) frameId session m) as [r m1]. simpl in Hr, Hf.
  by rewrite Hr, Hf.
Qed.

(** A frame of a snapshot that is not tracked yet, under a tracked parent:
    its two events add it to the index and touch no other frame but its
    parent, which gets it as a child. *)
Lemma attach_and_navigate session q pid rp m :
  wf m → truthy (payload_parentId q) = Some pid →
  fm_frames m !! pid = Some rp → fm_frames m !! payload_id q = None →
  ∃ m', deliver (frame_events session q) m = Ok m'
    ∧ fm_frames m' = <[payload_id q := next_ref m]> (fm_frames m)
    ∧ fm_mainFrame m' = fm_mainFrame m
    ∧ frame_store m' !! next_ref m
      = Some (Frame_navigated q
                (Frame_fresh (Some rp) (payload_id q) session (next_ref m)))
    ∧ (∀ x fx, frame_store m !! x = Some fx →
         ∃ fx', frame_store m' !! x = Some fx' ∧ url fx' = url fx
                ∧ _name fx' = _name fx ∧ parentFrame fx' = parentFrame fx
                ∧ frame_client fx' = frame_client fx).
Proof.
  intros Hwf Hpid Hp Hk.
  destruct (wf_indexed_live _ _ _ Hwf Hp) as (fp & Hfp & _).
  set (n := next_ref m).
  set (m1 := emit (FrameAttached n)
               (set_frames (<[payload_id q := n]> (fm_frames m))
                  (Frame_new (Some rp) (payload_id q) session m).2)).
  assert (onFrameAttached session (payload_id q) (Some pid) m = Ok m1) as E1.
  { apply onFrameAttached_new with (pid := pid); [done| |done].
    unfold truthy in *. destruct (payload_parentId q) as [s|]; [|done].
    case_decide; [done|]. injection Hpid as <-. by rewrite decide_False. }
  assert (∀ x, frame_store m1 !! x
               = if decide (x = n) then
                   Some (Frame_fresh (Some rp) (payload_id q) session n)
                 else if decide (x = rp) then
                   (λ pf, Frame_set_childFrames (_childFrames pf ++ [n]) pf)
                     <$> frame_store m !! x
                 else frame_store m !! x) as Hst.
  { intros x.
    change (frame_store m1 !! x)
      with (frame_store (Frame_new (Some rp) (payload_id q) session m).2 !! x).
    rewrite Frame_new_store; [|done|simpl; eauto].
    repeat case_decide; try done; congruence. }
  assert (fm_frames m1 = <[payload_id q := n]> (fm_frames m)) as Hidx1 by done.
  assert (fm_mainFrame m1 = fm_mainFrame m) as Hmf1
    by apply Frame_new_mainFrame.
  assert (next_ref m1 = next_ref m1) as _ by done.
  clearbody m1.
  assert (onFrameNavigated q m1
          = Ok (emit (FrameNavigated n) (update_frame n (Frame_navigated q) m1))) as E2.
  { unfold onFrameNavigated. rewrite Hpid, bool_decide_eq_false_2 by done.
    rewrite Hidx1, lookup_insert_eq. cbn [assert bind].
    unfold deref. rewrite Hst, decide_True by done. done. }
  eexists. split_and!.
  - unfold frame_events. rewrite Hpid. unfold deliver. simpl.
    rewrite E1. simpl. rewrite E2. done.
  - done.
  - done.
  - simpl. by rewrite lookup_alter_eq, Hst, decide_True.
  - intros x fx Hx. simpl.
    assert (x ≠ n) as Hxn.
    { intros ->. pose proof (wf_fresh m Hwf). subst n. congruence. }
    rewrite lookup_alter_ne, Hst, decide_False by done.
    case_decide; rewrite Hx; simpl; eexists; split_and!; done.
Qed.

Lemma wf_deliver events m m' : wf m → deliver events m = Ok m' → wf m'.
Proof. apply forM_preserves. intros event s s'. apply wf_dispatch. Qed.

Lemma top_level_navigation_frame payload m m' :
  wf m → truthy (payload_parentId payload) = None →
  onFrameNavigated payload m = Ok m' →
  ∃ r f0, fm_mainFrame m' = Some r
          ∧ frame_store m' !! r = Some (Frame_navigated payload f0).
Proof.
  intros Hwf Hpid E. destruct (fm_mainFrame m) as [r|] eqn:Hmf.
  - pose proof Hwf as (_ & _ & _ & _ & _ & Hm & _).
    unfold main_ok in Hm. rewrite Hmf in Hm. destruct Hm as [f Hr].
    destruct (onFrameNavigated_main payload m r f Hwf) as (mk & _ & _ & Hrk & E');
      [done..|].
    rewrite E' in E. injection E as <-. eexists r, _. split; [done|].
    simpl. by rewrite !lookup_alter_eq, Hrk.
  - rewrite onFrameNavigated_first in E by done. cbv zeta in E. injection E as <-.
    eexists (next_ref m), _. split; [done|].
    simpl. rewrite !lookup_alter_eq, lookup_insert_eq. reflexivity.
Qed.

Section snapshot.
Variable session : CDPSession.

Lemma materialized_step seen q m :
  wf m → materialized session seen m →
  (∃ pid, truthy (payload_parentId q) = Some pid ∧ pid ∈ payload_id <$> seen) →
  payload_id q ∉ payload_id <$> seen →
  ∃ m', deliver (frame_events session q) m = Ok m' ∧ materialized session (seen ++ [q]) m'.
Proof.
  intros Hwf [Hkeys Hplaced] (pid & Hpid & Hseen) Hnew.
  apply Hkeys in Hseen as [rp Hrp].
  assert (fm_frames m !! payload_id q = None) as Hk.
  { destruct (fm_frames m !! payload_id q) eqn:E; [|done].
    exfalso. apply Hnew, Hkeys. eauto. }
  destruct (attach_and_navigate session q pid rp m Hwf Hpid Hrp Hk)
    as (m' & E & Hidx & Hmf & Hn & Hold).
  exists m'. split; [done|]. split.
  - intros k. rewrite Hidx, fmap_app, elem_of_app. simpl.
    rewrite list_elem_of_singleton, lookup_insert_is_Some, Hkeys. naive_solver.
  - intros q' [Hq'|Hq']%elem_of_app.
    + destruct (Hplaced q' Hq') as (r & f & Hr & Hf & Hurl & Hname & Hlink).
      destruct (Hold _ _ Hf) as (f' & Hf' & Hurl' & Hname' & Hpa' & Hcl').
      assert (payload_id q' ≠ payload_id q) as Hne.
      { intros Heq. apply Hnew. rewrite <-Heq. by apply list_elem_of_fmap_2. }
      exists r, f'. split_and!.
      * by rewrite Hidx, lookup_insert_ne.
      * done.
      * congruence.
      * congruence.
      * destruct (truthy (payload_parentId q')) as [pid'|].
        -- destruct Hlink as (Hcl & rp' & Hrp' & Hpa). split; [congruence|].
           exists rp'. split; [|congruence].
           rewrite Hidx, lookup_insert_ne; [done|]. intros <-. congruence.
        -- destruct Hlink as [Hm Hpa]. split; congruence.
    + apply list_elem_of_singleton in Hq' as ->.
      eexists (next_ref m), _. split_and!.
      * rewrite Hidx. apply lookup_insert_eq.
      * exact Hn.
      * done.
      * done.
      * rewrite Hpid. split; [done|]. exists rp. split; [|done].
        rewrite Hidx, lookup_insert_ne; [done|]. intros <-. congruence.
Qed.

Lemma materialized_rest rest : ∀ seen m,
  wf m → materialized session seen m →
  parents_first (payload_id <$> seen) rest →
  NoDup (payload_id <$> (seen ++ rest)) →
  ∃ m', deliver (rest ≫= frame_events session) m = Ok m'
        ∧ materialized session (seen ++ rest) m'.
Proof.
  induction rest as [|q rest IH]; intros seen m Hwf Hmat Hpar Hnodup.
  - exists m. rewrite app_nil_r. done.
  - destruct Hpar as [Hq Hpar].
    assert (payload_id q ∉ payload_id <$> seen) as Hnew.
    { rewrite fmap_app in Hnodup. apply NoDup_app in Hnodup as (_ & Hdisj & _).
      intros Hin. apply (Hdisj _ Hin). simpl. left. }
    destruct (materialized_step seen q m Hwf Hmat Hq Hnew) as (m1 & E1 & Hmat1).
    destruct (IH (seen ++ [q]) m1) as (m' & E' & Hmat').
    + by eapply wf_deliver.
    + done.
    + by rewrite fmap_app.
    + by rewrite <-app_assoc.
    + exists m'. split; [|by rewrite <-app_assoc in Hmat'].
      change (q :: rest) with ([q] ++ rest). rewrite bind_app. simpl.
      rewrite app_nil_r, deliver_app, E1. done.
Qed.
End snapshot.

(** X24.  A frame-tree snapshot whose first frame has no parent id, whose
    other frames each name as parent a frame listed before them, and in
    which no id occurs twice, is handled without an exception, whatever the
    manager tracked before.  Afterwards the frames of the snapshot are
    tracked, and they alone: each under its id, with the name and the url of
    its payload; the first is the main frame, and every other one is bound to
    the session and has the frame of its parent id as parent. *)
Theorem snapshot_is_materialized session frameTree m :
  attainable m → snapshot_ok (tree_frames frameTree) →
  ∃ m', handleFrameTree session frameTree m = (Ok tt, m')
    ∧ (∀ frameId, is_Some (frame frameId m')
                  ↔ frameId ∈ payload_id <$> tree_frames frameTree)
    ∧ ∀ q, q ∈ tree_frames frameTree → placed session q m'.
Proof.
  intros [Hwf Hok]%attainable_tree_ok Hsnap.
  assert (∀ m', deliver (tree_frames frameTree ≫= frame_events session) m = Ok m' →
                handleFrameTree session frameTree m = (Ok tt, m')) as Hdeliver.
  { intros m' E. rewrite handleFrameTree_replay. apply handle_all_Ok.
    by rewrite tree_events_frames. }
  destruct (tree_frames frameTree) as [|root rest]; [done|].
  destruct Hsnap as (Hroot & Hnodup & Hpar).
  destruct (top_level_navigation root m Hwf Hok Hroot)
    as (m1 & r & E1 & Hmain1 & Hidx1 & _ & Hnone1).
  assert (wf m1) as Hwf1 by (by eapply wf_onFrameNavigated).
  destruct (top_level_navigation_frame root m m1 Hwf Hroot E1)
    as (r' & f0 & Hmf1 & Hr1).
  assert (r' = r) as ->.
  { unfold mainFrame in Hmain1. rewrite Hmf1 in Hmain1. by injection Hmain1. }
  assert (materialized session [root] m1) as Hmat1.
  { split.
    - intros k. rewrite Hidx1. simpl. rewrite list_elem_of_singleton.
      destruct (decide (k = payload_id root)) as [ -> |Hne].
      + rewrite lookup_singleton_eq. split; [done|eauto].
      + rewrite lookup_singleton_ne by done. split; [by intros [? ?]|done].
    - intros q ->%list_elem_of_singleton. eexists r, _. split_and!.
      + rewrite Hidx1. apply lookup_singleton_eq.
      + exact Hr1.
      + done.
      + done.
      + rewrite Hroot. split; [done|]. by destruct (Hnone1 _ _ Hr1). }
  destruct (materialized_rest session rest [root] m1 Hwf1 Hmat1 Hpar Hnodup)
    as (m' & E' & Hkeys & Hplaced).
  exists m'. split_and!.
  - apply Hdeliver. change (root :: rest) with ([root] ++ rest).
    rewrite bind_app. simpl. rewrite app_nil_r, deliver_app.
    unfold frame_events at 1. rewrite Hroot. unfold deliver at 1. simpl.
    rewrite E1. done.
  - done.
  - done.
Qed.

Lemma snapshot_is_materialized_witness :
  ∃ m', handleFrameTree S1 snapshot_tree (FrameManager_new S1) = (Ok tt, m')
        ∧ is_Some (frame "F3" m') ∧ ¬ is_Some (frame "F9" m').
Proof.
  destruct (snapshot_is_materialized S1 snapshot_tree (FrameManager_new S1))
    as (m' & E & Hkeys & _).
  { apply attainable_new. }
  { split; [reflexivity|]. split.
    - apply (bool_decide_unpack _). vm_compute. reflexivity.
    - simpl. split_and!; try done; eexists; (split; [reflexivity|]);
        apply (bool_decide_unpack _); vm_compute; reflexivity. }
  exists m'. split; [exact E|]. split.
  - apply Hkeys. apply (bool_decide_unpack _). vm_compute. reflexivity.
  - intros H. apply Hkeys in H. revert H.
    apply (bool_decide_unpack _). vm_compute. reflexivity.
Defined.

(** ** Url and name of a frame *)

(** X25.  A [navigatedWithinDocument] event for a tracked frame replaces the
    url of that frame and nothing else of it: [url()] is the url of the event
    and [name()], the id, the links and the lifecycle state are as before.
    It emits [FrameNavigatedWithinDocument] and then [FrameNavigated] for
    the frame, and leaves the index and every other frame alone; for an
    untracked frame id it changes nothing.  After a [frameNavigated] event,
    by contrast, [url()] is the url of the payload followed by its fragment,
    if any, and [name()] is the name of the payload, or the empty string. *)
Theorem url_and_name_follow_navigation frameId u m :
  (frame frameId m = None → onFrameNavigatedWithinDocument frameId u m = Ok m)
  ∧ (∀ r f,
       frame frameId m = Some r → frame_store m !! r = Some f →
       ∃ m', onFrameNavigatedWithinDocument frameId u m = Ok m'
         ∧ frame_store m' = <[r := Frame_navigatedWithinDocument u f]> (frame_store m)
         ∧ Frame_url (Frame_navigatedWithinDocument u f) = u
         ∧ Frame_name (Frame_navigatedWithinDocument u f) = Frame_name f
         ∧ Frame_navigatedWithinDocument u f
           = {| parentFrame := parentFrame f; url := u; detached := detached f;
                frame_client := frame_client f; _id := _id f;
                _loaderId := _loaderId f; _name := _name f;
                _hasStartedLoading := _hasStartedLoading f;
                _lifecycleEvents := _lifecycleEvents f;
                _mainWorld := _mainWorld f; _secondaryWorld := _secondaryWorld f;
                _childFrames := _childFrames f |}
         ∧ fm_frames m' = fm_frames m ∧ world_store m' = world_store m
         ∧ emitted m'
           = emitted m ++ [FrameNavigatedWithinDocument r; FrameNavigated r])
  ∧ (∀ payload f,
       Frame_url (Frame_navigated payload f)
       = payload_url payload +:+ default "" (truthy (payload_urlFragment payload))
       ∧ Frame_name (Frame_navigated payload f)
         = default "" (truthy (payload_name payload))).
Proof.
  unfold frame. split_and!.
  - intros Hk. unfold onFrameNavigatedWithinDocument. by rewrite Hk.
  - intros r f Hk Hr. unfold onFrameNavigatedWithinDocument. rewrite Hk.
    eexists. split; [done|]. simpl. split_and!; try done.
    + apply map_eq. intros x. destruct (decide (x = r)) as [ -> |Hne].
      * by rewrite lookup_alter_eq, lookup_insert_eq, Hr.
      * by rewrite lookup_alter_ne, lookup_insert_ne.
    + by rewrite <-app_assoc.
  - intros payload f. split; [|done]. unfold Frame_url. simpl. f_equal.
    unfold truthy. destruct (payload_urlFragment payload) as [s|]; [|done].
    by case_decide; subst.
Qed.

Lemma url_and_name_follow_navigation_witness :
  ∃ m',
    onFrameNavigatedWithinDocument "F1" "https://a.test/#top" (state_of scenario_main (FrameManager_new S1)) = Ok m'
    ∧ Frame_url <$> frame_store m' !! 0 = Some "https://a.test/#top"
    ∧ emitted m'
      = emitted (state_of scenario_main (FrameManager_new S1)) ++ [FrameNavigatedWithinDocument 0; FrameNavigated 0].
Proof.
  destruct (url_and_name_follow_navigation "F1" "https://a.test/#top" (state_of scenario_main (FrameManager_new S1)))
    as (_ & H & _).
  destruct (H 0 scenario_main_frame) as (m' & E & Hst & _ & _ & _ & _ & _ & Hem);
    [vm_compute; reflexivity..|].
  exists m'. split; [exact E|]. split; [|exact Hem].
  rewrite Hst, lookup_insert_eq. reflexivity.
Defined.

(** ** The utility world *)

(** X26.  Of the utility contexts reported for a frame by its session, the
    first one is bound to the frame's secondary world and stays bound: a
    second utility context for the frame is indexed with no world, the world
    still holds the first one, and destroying the second one leaves that
    binding in place.  Destroying the first one empties the world. *)
Theorem utility_world_keeps_first_context p1 p2 session frameId m r f w2 :
  wf m → fm_frames m !! frameId = Some r → frame_store m !! r = Some f →
  frame_client f = session →
  world_store m !! _secondaryWorld f = Some w2 → world_context w2 = None →
  ctx_auxData p1 = Some {| aux_frameId := Some frameId; aux_isDefault := false |} →
  ctx_auxData p2 = Some {| aux_frameId := Some frameId; aux_isDefault := false |} →
  ctx_name p1 = UTILITY_WORLD_NAME → ctx_name p2 = UTILITY_WORLD_NAME →
  ctx_id p1 ≠ ctx_id p2 →
  ∃ m1 m2 m3 m4 c1 c2,
    onExecutionContextCreated p1 session m = Ok m1
    ∧ onExecutionContextCreated p2 session m1 = Ok m2
    ∧ executionContextById (ctx_id p1) session m2 = Ok c1
    ∧ executionContextById (ctx_id p2) session m2 = Ok c2
    ∧ c1 ≠ c2
    ∧ _world <$> context_store m2 !! c1 = Some (Some (_secondaryWorld f))
    ∧ _world <$> context_store m2 !! c2 = Some None
    ∧ world_context <$> world_store m2 !! _secondaryWorld f = Some (Some c1)
    ∧ onExecutionContextDestroyed (ctx_id p2) session m2 = Ok m3
    ∧ world_context <$> world_store m3 !! _secondaryWorld f = Some (Some c1)
    ∧ onExecutionContextDestroyed (ctx_id p1) session m2 = Ok m4
    ∧ world_context <$> world_store m4 !! _secondaryWorld f = Some None.
Proof.
  intros Hwf Hk Hr Hcl Hw2 Hempty Haux1 Haux2 Hn1 Hn2 Hne.
  set (m1 := createContext p1 session (frame_client f) (Some (_secondaryWorld f)) m).
  assert (onExecutionContextCreated p1 session m = Ok m1) as E1.
  { unfold onExecutionContextCreated, contextFrame. rewrite Haux1. simpl. rewrite Hk.
    unfold deref. rewrite Hr. simpl. rewrite bool_decide_eq_false_2 by (by intros ?).
    unfold contextWorld. rewrite Haux1. simpl.
    rewrite bool_decide_eq_true_2 by done. unfold deref. rewrite Hw2. simpl.
    unfold DOMWorld_hasContext. rewrite Hempty.
    rewrite bool_decide_eq_false_2 by (by intros [? ?]). done. }
  pose proof (createContext_frames p1 session (frame_client f)
                (Some (_secondaryWorld f)) m) as (Hfr1 & Hfs1 & _ & _ & _ & Hn).
  pose proof (createContext_index p1 session (frame_client f)
                (Some (_secondaryWorld f)) m) as Hidx1.
  pose proof (createContext_context_store p1 session (frame_client f)
                (Some (_secondaryWorld f)) m) as Hcs1.
  pose proof (createContext_world_store p1 session (frame_client f)
                (Some (_secondaryWorld f)) m) as Hws1.
  fold m1 in Hfr1, Hfs1, Hn, Hidx1, Hcs1, Hws1. clearbody m1.
  assert (world_store m1 !! _secondaryWorld f
          = Some (DOMWorld_setContext (Some (next_ref m)) w2)) as Hw1.
  { by rewrite Hws1, lookup_alter_eq, Hw2. }
  set (m2 := createContext p2 session (frame_client f) None m1).
  assert (onExecutionContextCreated p2 session m1 = Ok m2) as E2.
  { unfold onExecutionContextCreated, contextFrame. rewrite Haux2. simpl.
    rewrite Hfr1, Hk. unfold deref. rewrite Hfs1, Hr. simpl.
    rewrite bool_decide_eq_false_2 by (by intros ?).
    unfold contextWorld. rewrite Haux2. simpl.
    rewrite bool_decide_eq_true_2 by done. unfold deref. rewrite Hw1. simpl.
    done. }
  pose proof (createContext_index p2 session (frame_client f) None m1) as Hidx2.
  pose proof (createContext_context_store p2 session (frame_client f) None m1) as Hcs2.
  pose proof (createContext_world_store p2 session (frame_client f) None m1) as Hws2.
  fold m2 in Hidx2, Hcs2, Hws2. clearbody m2.
  assert (contextKey session (ctx_id p1) ≠ contextKey session (ctx_id p2)) as Hkey.
  { intros [_ ?]%contextKey_inj. done. }
  assert (fm_contextIdToContext m2 !! contextKey session (ctx_id p1) = Some (next_ref m))
    as Hk1.
  { rewrite Hidx2, Hidx1. rewrite lookup_insert_ne by done. apply lookup_insert_eq. }
  assert (fm_contextIdToContext m2 !! contextKey session (ctx_id p2) = Some (next_ref m1))
    as Hk2.
  { rewrite Hidx2. apply lookup_insert_eq. }
  assert (context_store m2 !! next_ref m
          = Some {| _client := frame_client f; _contextPayload := p1;
                    _world := Some (_secondaryWorld f) |}) as Hc1.
  { rewrite Hcs2, Hcs1. rewrite lookup_insert_ne by lia. apply lookup_insert_eq. }
  assert (context_store m2 !! next_ref m1
          = Some {| _client := frame_client f; _contextPayload := p2;
                    _world := None |}) as Hc2.
  { rewrite Hcs2. apply lookup_insert_eq. }
  assert (world_store m2 !! _secondaryWorld f
          = Some (DOMWorld_setContext (Some (next_ref m)) w2)) as Hw2'.
  { by rewrite Hws2. }
  destruct (destroyed_context_lemma (ctx_id p2) session m2 _ _ Hk2 Hc2)
    as (m3 & E3 & _ & _ & Hw3 & _).
  destruct (destroyed_context_lemma (ctx_id p1) session m2 _ _ Hk1 Hc1)
    as (m4 & E4 & _ & Hw4 & _).
  exists m1, m2, m3, m4, (next_ref m), (next_ref m1). split_and!.
  - done.
  - done.
  - by apply executionContextById_Some.
  - by apply executionContextById_Some.
  - lia.
  - by rewrite Hc1.
  - by rewrite Hc2.
  - by rewrite Hw2'.
  - done.
  - rewrite (Hw3 (_secondaryWorld f)) by done. by rewrite Hw2'.
  - done.
  - rewrite (Hw4 (_secondaryWorld f)) by done. by rewrite Hw2'.
Qed.

Lemma utility_world_keeps_first_context_witness :
  ∃ m1 m2 c1,
    onExecutionContextCreated (contextFor 2 UTILITY_WORLD_NAME (Some "F1") false) S1
      (state_of scenario_main (FrameManager_new S1)) = Ok m1
    ∧ onExecutionContextCreated (contextFor 3 UTILITY_WORLD_NAME (Some "F1") false) S1 m1
      = Ok m2
    ∧ executionContextById 2 S1 m2 = Ok c1
    ∧ world_context <$> world_store m2 !! 2 = Some (Some c1).
Proof.
  destruct (utility_world_keeps_first_context
              (contextFor 2 UTILITY_WORLD_NAME (Some "F1") false)
              (contextFor 3 UTILITY_WORLD_NAME (Some "F1") false) S1 "F1"
              (state_of scenario_main (FrameManager_new S1)) 0
              {| parentFrame := None; url := "https://a.test"; detached := false;
                 frame_client := S1; _id := "F1"; _loaderId := "";
                 _name := None; _hasStartedLoading := false;
                 _lifecycleEvents := []; _mainWorld := 1; _secondaryWorld := 2;
                 _childFrames := [] |}
              (DOMWorld_new 0))
    as (m1 & m2 & _ & _ & c1 & _ & E1 & E2 & Hc1 & _ & _ & _ & _ & Hw & _).
  { apply (bool_decide_unpack _). vm_compute. reflexivity. }
  { vm_compute. reflexivity. }
  { vm_compute. reflexivity. }
  { reflexivity. }
  { vm_compute. reflexivity. }
  { reflexivity. }
  { reflexivity. }
  { reflexivity. }
  { reflexivity. }
  { reflexivity. }
  { discriminate. }
  exists m1, m2, c1. split; [exact E1|]. split; [exact E2|]. split; [exact Hc1|exact Hw].
Defined.

(** ** A frame that returns in-process *)

(** X27.  A tracked out-of-process frame is removed by the
    [Target.detachedFromTarget] event of its target.  When a [frameAttached]
    event of the manager's own session names it first, the frame is bound to
    that session again, with two new worlds, nothing is emitted, and the
    [Target.detachedFromTarget] event that follows changes nothing: the frame
    stays tracked. *)
Theorem reattached_frame_survives_target_detach tid parentFrameId m r f :
  wf m → tid ≠ "" → frame tid m = Some r → frame_store m !! r = Some f →
  frame_client f ≠ fm_client m →
  (∃ m', onDetachedFromTarget (Some tid) m = Ok m' ∧ frame tid m' = None)
  ∧ ∃ m1,
      onFrameAttached (fm_client m) tid parentFrameId m = Ok m1
      ∧ frame_store m1
        = <[r := Frame_set_binding (fm_client m) (next_ref m) (S (next_ref m)) f]>
            (frame_store m)
      ∧ world_store m1 !! next_ref m = Some (DOMWorld_new r)
      ∧ world_store m1 !! S (next_ref m) = Some (DOMWorld_new r)
      ∧ fm_frames m1 = fm_frames m
      ∧ emitted m1 = emitted m
      ∧ onDetachedFromTarget (Some tid) m1 = Ok m1
      ∧ frame tid m1 = Some r.
Proof.
  unfold frame. intros Hwf Hne Hk Hr Hc. split.
  - destruct (removeFrames_spec m r f Hwf Hr) as (m' & E & Hrem & _ & Hin).
    exists m'. split.
    + unfold onDetachedFromTarget, truthy. rewrite decide_False by done.
      rewrite Hk. unfold deref. rewrite Hr. simpl. unfold Frame_isOOPFrame.
      by rewrite bool_decide_eq_true_2.
    + destruct (fm_frames m' !! tid) as [x|] eqn:Hx; [|done].
      exfalso. pose proof Hrem as (_ & _ & Hidx & _). pose proof Hx as Hx'.
      rewrite Hidx in Hx'. case_decide; [done|].
      assert (x = r) as -> by congruence.
      eapply (subtree_removed_from_index m m' _ r r); [apply Hwf|done..].
  - exists (Frame_updateClient (fm_client m) r m). split_and!.
    + unfold onFrameAttached. rewrite Hk. unfold deref. rewrite Hr. simpl.
      unfold Frame_isOOPFrame. by rewrite bool_decide_eq_true_2.
    + simpl. apply map_eq. intros x. destruct (decide (x = r)) as [ -> |Hx].
      * by rewrite lookup_alter_eq, lookup_insert_eq, Hr.
      * by rewrite lookup_alter_ne, lookup_insert_ne.
    + simpl. rewrite lookup_insert_ne by lia. apply lookup_insert_eq.
    + simpl. apply lookup_insert_eq.
    + done.
    + done.
    + unfold onDetachedFromTarget, truthy. rewrite decide_False by done.
      simpl. rewrite Hk. unfold deref. rewrite lookup_alter_eq, Hr. simpl.
      unfold Frame_isOOPFrame. simpl.
      by rewrite bool_decide_eq_false_2 by (by intros ?).
    + done.
Qed.

Lemma reattached_frame_survives_target_detach_witness :
  ∃ m1,
    onFrameAttached S1 "F2" (Some "F1") (state_of scenario_oop (FrameManager_new S1))
    = Ok m1
    ∧ onDetachedFromTarget (Some "F2") m1 = Ok m1
    ∧ frame "F2" m1 = Some 3.
Proof.
  destruct (reattached_frame_survives_target_detach "F2" (Some "F1")
              (state_of scenario_oop (FrameManager_new S1)) 3 scenario_oop_child)
    as (_ & m1 & E & _ & _ & _ & _ & _ & Hd & Hf).
  { apply (bool_decide_unpack _). vm_compute. reflexivity. }
  { discriminate. }
  { vm_compute. reflexivity. }
  { vm_compute. reflexivity. }
  { discriminate. }
  exists m1. split; [exact E|]. split; [exact Hd|exact Hf].
Defined.
